(** * aws-inventory: the topology graph builder of [diagram.py]

    A shallow embedding of [main] of [src/diagram.py]: the eight inventory
    documents as records, the [networkx.DiGraph] it builds as an insertion
    ordered node table with an edge list, Python's exceptions as an error
    monad, and the legend of [draw_vpc_topology].

    Conventions of the embedding.
    - A field read with [d["k"]] is a record field of its type; a field read
      with [d.get("k")] or [d.get("k", default)] is an [option], [None] when
      the key is absent.  The top-level keys [Vpcs], [Subnets], [DBInstances],
      [LoadBalancers], [services] and [Reservations] are read with [d["k"]]
      somewhere in [main], so the documents carry them; [TargetGroups] is only
      ever read with [.get].
    - Strings are [string]; the truth value of a Python string is [truthy].
    - [set()] is a [gset string], the dict comprehensions are [gmap]s.
    - The layout and the plotting calls of [draw_vpc_topology] are outside
      the embedding; its legend and the file it writes are inside. *)

From stdpp Require Import gmap strings list pretty.
From Stdlib Require Import Ascii ZArith Lia.

Open Scope string_scope.
Open Scope list_scope.
Open Scope nat_scope.

(** ** Python exceptions as an error monad *)

Inductive exn := KeyError | IndexError.

Inductive result (A : Type) :=
  | Ok (a : A)
  | Raise (e : exn).
Arguments Ok {A} a.
Arguments Raise {A} e.

#[global] Instance result_ret : MRet result := fun _ a => Ok a.
#[global] Instance result_bind : MBind result := fun _ _ f r =>
  match r with
  | Ok a => f a
  | Raise e => Raise e
  end.

(** [for x in xs: st = body(st, x)], stopping at the first exception. *)
Fixpoint for_each {A S : Type} (body : S → A → result S) (xs : list A) (st : S)
  : result S :=
  match xs with
  | [] => Ok st
  | x :: xs' => st' ← body st x; for_each body xs' st'
  end.

(** [[x for x in xs if p(x)]] where the condition may raise. *)
Fixpoint filter_raising {A : Type} (p : A → result bool) (xs : list A)
  : result (list A) :=
  match xs with
  | [] => Ok []
  | x :: xs' =>
      b ← p x;
      rest ← filter_raising p xs';
      Ok (if b : bool then x :: rest else rest)
  end.

(** ** Python strings and lists *)

(** [bool(s)] for a string. *)
Definition truthy (s : string) : bool := negb (String.eqb s "").

(** [bool(o)] for the result of [d.get("k")] on a string field. *)
Definition truthy_opt (o : option string) : bool :=
  match o with
  | Some s => truthy s
  | None => false
  end.

(** [s.split(sep)] for a one-character separator. *)
Fixpoint split (sep : Ascii.ascii) (s : string) : list string :=
  match s with
  | EmptyString => [EmptyString]
  | String c s' =>
      if Ascii.eqb c sep then EmptyString :: split sep s'
      else match split sep s' with
           | [] => [String c EmptyString]
           | h :: t => String c h :: t
           end
  end.

(** [l[i]] with Python's negative indices. *)
Definition getitem {A : Type} (l : list A) (i : Z) : result A :=
  let n := Z.of_nat (length l) in
  let j := if (i <? 0)%Z then (i + n)%Z else i in
  if ((j <? 0)%Z || (n <=? j)%Z)%bool then Raise IndexError
  else match l !! Z.to_nat j with
       | Some x => Ok x
       | None => Raise IndexError
       end.

Definition nl : string := String "010"%char EmptyString.

(** ** The inventory documents *)

Module Vpc.
Record t := mk { VpcId : string; CidrBlock : option string }.
End Vpc.

Module Tag.
Record t := mk { Value : option string }.
End Tag.

Module Subnet.
Record t := mk { SubnetId : string; VpcId : string; Tags : option (list Tag.t) }.
End Subnet.

Module Instance.
Record t := mk { InstanceId : string }.
End Instance.

Module Reservation.
Record t := mk { Instances : list Instance.t }.
End Reservation.

Module DBSubnet.
Record t := mk { SubnetIdentifier : option string }.
End DBSubnet.

Module DBSubnetGroup.
Record t := mk { Subnets : option (list DBSubnet.t) }.
End DBSubnetGroup.

Module DBInstance.
Record t := mk { DBInstanceIdentifier : string;
                 DBSubnetGroup : option DBSubnetGroup.t }.
End DBInstance.

Module LoadBalancer.
Record t := mk { LoadBalancerArn : string;
                 LoadBalancerName : string;
                 VpcId : string;
                 TargetGroupArns : option (list string) }.
End LoadBalancer.

Module Binding.
Record t := mk { loadBalancerName : option string;
                 targetGroupArn : option string }.
End Binding.

Module Service.
Record t := mk { serviceName : string;
                 clusterArn : string;
                 loadBalancers : option (list Binding.t) }.
End Service.

Module TargetGroup.
Record t := mk { TargetGroupArn : string; VpcId : string }.
End TargetGroup.

Record inventory := {
  vpcs : list Vpc.t;
  subs : list Subnet.t;
  ec2s : list Reservation.t;
  rds : list DBInstance.t;
  lbs : list LoadBalancer.t;
  ecs_services : list Service.t;
  tgs : option (list TargetGroup.t)
}.

(** ** The directed graph *)

Record attrs := {
  label : option string;
  color : option string;
  layer : option Z
}.

Definition no_attrs : attrs := {| label := None; color := None; layer := None |}.

(** [old.update(new)] on an attribute dict. *)
Definition update_attrs (old new : attrs) : attrs :=
  {| label := match label new with Some l => Some l | None => label old end;
     color := match color new with Some c => Some c | None => color old end;
     layer := match layer new with Some k => Some k | None => layer old end |}.

Record DiGraph := {
  nodes : list (string * attrs);
  edges : list (string * string)
}.

Definition empty_graph : DiGraph := {| nodes := []; edges := [] |}.

Fixpoint upsert (n : string) (a : attrs) (l : list (string * attrs))
  : list (string * attrs) :=
  match l with
  | [] => [(n, update_attrs no_attrs a)]
  | (m, b) :: l' =>
      if String.eqb m n then (m, update_attrs b a) :: l'
      else (m, b) :: upsert n a l'
  end.

Fixpoint node_attrs (l : list (string * attrs)) (n : string) : option attrs :=
  match l with
  | [] => None
  | (m, b) :: l' => if String.eqb m n then Some b else node_attrs l' n
  end.

Definition has_node (G : DiGraph) (n : string) : bool :=
  match node_attrs (nodes G) n with Some _ => true | None => false end.

Definition edge_eqb (e f : string * string) : bool :=
  String.eqb e.1 f.1 && String.eqb e.2 f.2.

Definition has_edge (G : DiGraph) (u v : string) : bool :=
  existsb (edge_eqb (u, v)) (edges G).

(** [G.add_node(n, label=.., color=.., layer=..)] *)
Definition add_node (G : DiGraph) (n : string) (a : attrs) : DiGraph :=
  {| nodes := upsert n a (nodes G); edges := edges G |}.

(** [G.add_edge(u, v)]: both ends become nodes when they are not yet. *)
Definition add_edge (G : DiGraph) (u v : string) : DiGraph :=
  {| nodes := upsert v no_attrs (upsert u no_attrs (nodes G));
     edges := if has_edge G u v then edges G else edges G ++ [(u, v)] |}.

(** [G.in_degree(n)] *)
Definition in_degree (G : DiGraph) (n : string) : nat :=
  length (filter (λ e, e.2 = n) (edges G)).

Definition node_ids (G : DiGraph) : list string := (nodes G).*1.

Definition mk_attrs (l c : string) (k : Z) : attrs :=
  {| label := Some l; color := Some c; layer := Some k |}.

(** ** [main], lines 35-53: the lookup tables and the used names *)

(** [{tg: lb["LoadBalancerArn"] for lb in ... for tg in lb.get("TargetGroupArns", [])}] *)
Definition target_to_lb (inv : inventory) : gmap string string :=
  foldl (λ m lb,
           foldl (λ m' tg, <[tg := LoadBalancer.LoadBalancerArn lb]> m') m
                 (default [] (LoadBalancer.TargetGroupArns lb)))
        ∅ (lbs inv).

(** [{tg["TargetGroupArn"]: tg["VpcId"] for tg in tgs.get("TargetGroups", [])}] *)
Definition tg_to_vpc (inv : inventory) : gmap string string :=
  foldl (λ m tg, <[TargetGroup.TargetGroupArn tg := TargetGroup.VpcId tg]> m)
        ∅ (default [] (tgs inv)).

(** Lines 46-53, the body of the inner loop of the used-name scan. *)
Definition used_name_binding (used : gset string) (lb : Binding.t)
  : result (gset string) :=
  let lb_name := Binding.loadBalancerName lb in
  let tg_arn := default "" (Binding.targetGroupArn lb) in
  if truthy_opt lb_name then Ok ({[default "" lb_name]} ∪ used)
  else if truthy tg_arn then
    tail ← getitem (split ":" tg_arn) (-1);
    let parts := split "/" tail in
    if (2 <=? length parts)%nat then
      name ← getitem parts (-2);
      Ok ({[name]} ∪ used)
    else Ok used
  else Ok used.

Definition used_name_service (used : gset string) (svc : Service.t)
  : result (gset string) :=
  for_each used_name_binding (default [] (Service.loadBalancers svc)) used.

Definition used_lb_names (inv : inventory) : result (gset string) :=
  for_each used_name_service (ecs_services inv) ∅.

(** ** [main], lines 55-103: nodes and edges *)

Definition lb_attrs : attrs := mk_attrs "Load Balancer" "lightslategray" 3.

(** The synthetic ids: [f"LB:{name}"], [f"CLUSTER:{cluster_name}"] and
    [f"SVC:{svc_name}"]. *)
Definition lb_node_id (name : string) : string := "LB:" +:+ name.
Definition cluster_node_id (cluster_name : string) : string := "CLUSTER:" +:+ cluster_name.
Definition service_node_id (svc_name : string) : string := "SVC:" +:+ svc_name.

(** Lines 58-59. *)
Definition add_vpc (G : DiGraph) (v : Vpc.t) : DiGraph :=
  let cidr := default "unknown" (Vpc.CidrBlock v) in
  add_node G (Vpc.VpcId v) (mk_attrs ("VPC" +:+ nl +:+ cidr) "skyblue" 2).

(** Lines 62-64. [s.get("Tags", [{}])[0]] raises on an empty tag list. *)
Definition add_subnet (G : DiGraph) (s : Subnet.t) : result DiGraph :=
  tag0 ← getitem (default [Tag.mk None] (Subnet.Tags s)) 0;
  let subnet_name := default (Subnet.SubnetId s) (Tag.Value tag0) in
  let G1 := add_node G (Subnet.SubnetId s)
                     (mk_attrs ("Subnet" +:+ nl +:+ subnet_name) "lightgreen" 1) in
  Ok (add_edge G1 (Subnet.VpcId s) (Subnet.SubnetId s)).

(** [db.get("DBSubnetGroup", {}).get("Subnets", [])] *)
Definition db_subnets (db : DBInstance.t) : list DBSubnet.t :=
  default [] (DBSubnetGroup.Subnets
                (default (DBSubnetGroup.mk None) (DBInstance.DBSubnetGroup db))).

(** Lines 70-71. *)
Definition add_db_subnet (db_id : string) (G : DiGraph) (sn : DBSubnet.t) : DiGraph :=
  let sn_id := DBSubnet.SubnetIdentifier sn in
  if truthy_opt sn_id then add_edge G (default "" sn_id) db_id else G.

(** Lines 67-71. *)
Definition add_db (G : DiGraph) (db : DBInstance.t) : DiGraph :=
  let db_id := DBInstance.DBInstanceIdentifier db in
  let G1 := add_node G db_id (mk_attrs "RDS" "plum" 0) in
  foldl (add_db_subnet db_id) G1 (db_subnets db).

(** The subnet identifiers for which line 71 runs: those present and
    non-empty, in the order of the subnet group. *)
Definition listed_subnet_ids (db : DBInstance.t) : list string :=
  omap (λ sn, match DBSubnet.SubnetIdentifier sn with
              | Some s => if truthy s then Some s else None
              | None => None
              end)
       (db_subnets db).

(** Lines 74-78. *)
Definition add_lb (used : gset string) (G : DiGraph) (lb : LoadBalancer.t) : DiGraph :=
  let name := LoadBalancer.LoadBalancerName lb in
  if decide (name ∈ used) then
    let lb_id := lb_node_id name in
    add_edge (add_node G lb_id lb_attrs) (LoadBalancer.VpcId lb) lb_id
  else G.

(** Line 93:
    [lb.get("loadBalancerName") or tg_arn.split("/")[-2] if tg_arn else None],
    which Python reads as [(a or b) if tg_arn else None]. *)
Definition resolve_lb_name (lb : Binding.t) : result (option string) :=
  let tg_arn := default "" (Binding.targetGroupArn lb) in
  if truthy tg_arn then
    if truthy_opt (Binding.loadBalancerName lb) then Ok (Binding.loadBalancerName lb)
    else name ← getitem (split "/" tg_arn) (-2); Ok (Some name)
  else Ok None.

(** Lines 95-99. *)
Definition link_lb (service_id : string) (lb_name : option string) (G : DiGraph)
  : DiGraph :=
  if truthy_opt lb_name then
    let lb_id := lb_node_id (default "" lb_name) in
    let G1 := if has_node G lb_id then G else add_node G lb_id lb_attrs in
    add_edge G1 service_id lb_id
  else G.

(** Lines 102-103. *)
Definition anchor_service (to_vpc : gmap string string) (service_id tg_arn : string)
    (G : DiGraph) : DiGraph :=
  if truthy tg_arn then
    match to_vpc !! tg_arn with
    | Some vpc_id => add_edge G vpc_id service_id
    | None => G
    end
  else G.

(** Lines 92-103, the body of the loop over a service's bindings. *)
Definition add_binding (to_vpc : gmap string string) (service_id : string)
    (G : DiGraph) (lb : Binding.t) : result DiGraph :=
  let tg_arn := default "" (Binding.targetGroupArn lb) in
  lb_name ← resolve_lb_name lb;
  Ok (anchor_service to_vpc service_id tg_arn (link_lb service_id lb_name G)).

(** Lines 81-103. *)
Definition add_service (to_vpc : gmap string string) (G : DiGraph) (svc : Service.t)
  : result DiGraph :=
  let svc_name := Service.serviceName svc in
  cluster_name ← getitem (split "/" (Service.clusterArn svc)) (-1);
  let cluster_id := cluster_node_id cluster_name in
  let service_id := service_node_id svc_name in
  let G1 := add_node G cluster_id (mk_attrs "ECS Cluster" "lightyellow" 3) in
  let G2 := add_node G1 service_id
                     (mk_attrs ("ECS Service" +:+ nl +:+ svc_name) "gold" 4) in
  let G3 := add_edge G2 cluster_id service_id in
  for_each (add_binding to_vpc service_id) (default [] (Service.loadBalancers svc)) G3.

(** Lines 43-103: the used names and the graph before the final pass. *)
Definition build_graph (inv : inventory) : result (gset string * DiGraph) :=
  used ← used_lb_names inv;
  let G1 := foldl add_vpc empty_graph (vpcs inv) in
  G2 ← for_each add_subnet (subs inv) G1;
  let G3 := foldl add_db G2 (rds inv) in
  let G4 := foldl (add_lb used) G3 (lbs inv) in
  G5 ← for_each (add_service (tg_to_vpc inv)) (ecs_services inv) G4;
  Ok (used, G5).

(** ** [main], lines 105-114: the unattached resources *)

Definition always_contained : list string := ["EC2"; "RDS"; "ECS Cluster"; "ECS Task"].

Definition NO_VPC : string := "NO_VPC".

(** [G.in_degree(n) == 0 and G.nodes[n]["label"] in {...}]: the label is read
    only when the in-degree is zero, and a node without one raises [KeyError]. *)
Definition is_unattached (G : DiGraph) (n : string) : result bool :=
  if (in_degree G n =? 0)%nat then
    match node_attrs (nodes G) n with
    | Some a =>
        match label a with
        | Some l => Ok (bool_decide (l ∈ always_contained))
        | None => Raise KeyError
        end
    | None => Raise KeyError
    end
  else Ok false.

Definition unattached_of (G : DiGraph) : result (list string) :=
  filter_raising (is_unattached G) (node_ids G).

Definition sentinel_attrs : attrs := mk_attrs "No VPC" "lightgray" 0.

(** Lines 111-114. *)
Definition attach_orphans (G : DiGraph) (unattached : list string) : DiGraph :=
  match unattached with
  | [] => G
  | _ :: _ =>
      let G1 := add_node G NO_VPC sentinel_attrs in
      foldl (λ G' n, add_edge G' NO_VPC n) G1 unattached
  end.

(** Lines 35-114: everything [main] does before it draws. *)
Definition build (inv : inventory) : result (gset string * DiGraph * list string) :=
  '(used, G) ← build_graph inv;
  unattached ← unattached_of G;
  Ok (used, attach_orphans G unattached, unattached).

(** ** [draw_vpc_topology], lines 136-167: title, legend and output file *)

Record diagram := {
  file : string;
  title : string;
  legend : list (string * string)
}.

(** [sum(len(r["Instances"]) for r in ec2s["Reservations"])] *)
Definition count_ec2 (inv : inventory) : nat :=
  sum_list (map (λ r, length (Reservation.Instances r)) (ec2s inv)).

Definition patch (c name : string) (n : nat) : string * string :=
  (c, name +:+ " (" +:+ pretty n +:+ ")").

(** Lines 152-159: the entries every legend has. *)
Definition base_handles (inv : inventory) (used : gset string) : list (string * string) :=
  [ patch "skyblue" "VPCs" (length (vpcs inv));
    patch "lightgreen" "Subnets" (length (subs inv));
    patch "orange" "EC2 instances" (count_ec2 inv);
    patch "plum" "RDS instances" (length (rds inv));
    patch "lightslategray" "Load Balancers" (size used);
    patch "gold" "ECS Services" (length (ecs_services inv)) ].

(** Lines 139-163.  [G] is the graph of [main] as it is when the diagram is
    drawn, and [counts["Unattached"]] is computed on it. *)
Definition legend_handles (inv : inventory) (used : gset string) (G : DiGraph)
  : result (list (string * string)) :=
  unattached_now ← unattached_of G;
  let counts_unattached := length unattached_now in
  Ok (if (counts_unattached =? 0)%nat then base_handles inv used
      else base_handles inv used ++ [patch "lightgray" "Unattached" counts_unattached]).

Definition draw_vpc_topology (inv : inventory) (used : gset string) (G : DiGraph)
    (vpc_id : string) (title_arg : option string) : result diagram :=
  handles ← legend_handles inv used G;
  Ok {| file := vpc_id +:+ "_topology.png";
        title := if truthy_opt title_arg then default "" title_arg
                 else "Topology for " +:+ vpc_id;
        legend := handles |}.

Definition orphan_title : string := "Topology — Orphaned Resources".

(** Lines 169-176. *)
Definition main (inv : inventory) : result (list diagram) :=
  '(used, G, unattached) ← build inv;
  per_vpc ← for_each (λ acc vpc,
                        d ← draw_vpc_topology inv used G (Vpc.VpcId vpc) None;
                        Ok (acc ++ [d]))
                     (vpcs inv) [];
  match unattached with
  | [] => Ok per_vpc
  | _ :: _ =>
      d ← draw_vpc_topology inv used G NO_VPC (Some orphan_title);
      Ok (per_vpc ++ [d])
  end.

(** ** Vocabulary of the statements *)

(** No node carries the label of the sentinel. *)
Definition no_sentinel (G : DiGraph) : Prop :=
  ∀ n a, node_attrs (nodes G) n = Some a → label a ≠ Some "No VPC".

Definition graph_inv (G : DiGraph) : Prop := NoDup (node_ids G) ∧ no_sentinel G.

(** What [draw_vpc_topology] returns for a container and for the orphan
    partition when the legend has its six entries. *)
Definition vpc_diagram (inv : inventory) (used : gset string) (v : Vpc.t) : diagram :=
  {| file := Vpc.VpcId v +:+ "_topology.png";
     title := "Topology for " +:+ Vpc.VpcId v;
     legend := base_handles inv used |}.

Definition orphan_diagram (inv : inventory) (used : gset string) : diagram :=
  {| file := NO_VPC +:+ "_topology.png";
     title := orphan_title;
     legend := base_handles inv used |}.

(** [c in s] for a character. *)
Fixpoint contains_char (c : Ascii.ascii) (s : string) : bool :=
  match s with
  | EmptyString => false
  | String d s' => Ascii.eqb d c || contains_char c s'
  end.

(** The construction steps that call [add_node], and the ids they call it
    with: lines 59, 63, 68, 77 and 98, 87, 88, 113. *)
Inductive step :=
  | Containers | Subnets | Databases | LoadBalancers | Clusters | Services | Sentinel.

Definition adds (inv : inventory) (used : gset string) (unattached : list string)
    (st : step) (n : string) : Prop :=
  match st with
  | Containers => ∃ v, v ∈ vpcs inv ∧ n = Vpc.VpcId v
  | Subnets => ∃ s, s ∈ subs inv ∧ n = Subnet.SubnetId s
  | Databases => ∃ db, db ∈ rds inv ∧ n = DBInstance.DBInstanceIdentifier db
  | LoadBalancers =>
      (∃ lb, lb ∈ lbs inv ∧ LoadBalancer.LoadBalancerName lb ∈ used
             ∧ n = lb_node_id (LoadBalancer.LoadBalancerName lb))
      ∨ (∃ svc lb name, svc ∈ ecs_services inv
                        ∧ lb ∈ default [] (Service.loadBalancers svc)
                        ∧ resolve_lb_name lb = Ok (Some name) ∧ name ≠ ""
                        ∧ n = lb_node_id name)
  | Clusters =>
      ∃ svc cluster_name, svc ∈ ecs_services inv
                          ∧ getitem (split "/" (Service.clusterArn svc)) (-1)
                            = Ok cluster_name
                          ∧ n = cluster_node_id cluster_name
  | Services => ∃ svc, svc ∈ ecs_services inv ∧ n = service_node_id (Service.serviceName svc)
  | Sentinel => unattached ≠ [] ∧ n = NO_VPC
  end.

(** No id is added by two different steps. *)
Definition collision_free (inv : inventory) (used : gset string)
    (unattached : list string) : Prop :=
  ∀ st1 st2 n, adds inv used unattached st1 n → adds inv used unattached st2 n → st1 = st2.

(** The ids that come from the input as they are. *)
Definition vpc_ids (inv : inventory) : list string := map Vpc.VpcId (vpcs inv).
Definition subnet_ids (inv : inventory) : list string := map Subnet.SubnetId (subs inv).
Definition db_ids (inv : inventory) : list string :=
  map DBInstance.DBInstanceIdentifier (rds inv).

Definition native_ids (inv : inventory) : list string :=
  vpc_ids inv ++ subnet_ids inv ++ db_ids inv.

Definition disjointb (xs ys : list string) : bool :=
  forallb (λ x, negb (existsb (String.eqb x) ys)) xs.

(** No id is shared by two of the three native collections, none has a ':'
    and none is the sentinel's. *)
Definition native_ids_apart (inv : inventory) : bool :=
  disjointb (vpc_ids inv) (subnet_ids inv)
  && disjointb (vpc_ids inv) (db_ids inv)
  && disjointb (subnet_ids inv) (db_ids inv)
  && forallb (λ n, negb (contains_char ":" n) && negb (String.eqb n NO_VPC))
             (native_ids inv).

(** One container, one tagged subnet in it, one database in that subnet, and
    the graph [main] builds from them. *)
Definition small_inventory : inventory :=
  {| vpcs := [Vpc.mk "vpc-1" (Some "10.0.0.0/16")];
     subs := [Subnet.mk "subnet-1" "vpc-1" (Some [Tag.mk (Some "web")])];
     ec2s := [];
     rds := [DBInstance.mk "db-1"
               (Some (DBSubnetGroup.mk (Some [DBSubnet.mk (Some "subnet-1")])))];
     lbs := []; ecs_services := []; tgs := Some [] |}.

Definition small_graph : DiGraph :=
  {| nodes := [ ("vpc-1", mk_attrs ("VPC" +:+ nl +:+ "10.0.0.0/16") "skyblue" 2);
                ("subnet-1", mk_attrs ("Subnet" +:+ nl +:+ "web") "lightgreen" 1);
                ("db-1", mk_attrs "RDS" "plum" 0) ];
     edges := [ ("vpc-1", "subnet-1"); ("subnet-1", "db-1") ] |}.

(** A container and a database with the same id. *)
Definition shared_id_inventory : inventory :=
  {| vpcs := [Vpc.mk "vpc-0a1b" (Some "10.0.0.0/16")]; subs := []; ec2s := [];
     rds := [DBInstance.mk "vpc-0a1b" None];
     lbs := []; ecs_services := []; tgs := None |}.

(** A service bound to a load balancer by its name alone. *)
Definition classic_lb_inventory : inventory :=
  {| vpcs := []; subs := []; ec2s := []; rds := []; lbs := [];
     ecs_services :=
       [Service.mk "web" "arn:aws:ecs:us-east-1:123456789012:cluster/prod"
                   (Some [Binding.mk (Some "classic-lb") None])];
     tgs := None |}.

(** An inventory with one database and no subnet group: the database is the
    only unattached resource. *)
Definition orphan_db_inventory : inventory :=
  {| vpcs := []; subs := []; ec2s := [];
     rds := [DBInstance.mk "db-1" None];
     lbs := []; ecs_services := []; tgs := None |}.

(** A load balancer [a] of the collection and a service whose only binding
    carries the target-group ARN [a/b:c]. *)
Definition odd_arn_inventory : inventory :=
  {| vpcs := [Vpc.mk "vpc-1" None]; subs := []; ec2s := []; rds := [];
     lbs := [LoadBalancer.mk "arn:lb/a" "a" "vpc-1" None];
     ecs_services :=
       [Service.mk "web" "arn:aws:ecs:us-east-1:123456789012:cluster/prod"
                   (Some [Binding.mk None (Some "a/b:c")])];
     tgs := None |}.

(** A container whose id is the string of the sentinel. *)
Definition sentinel_named_inventory : inventory :=
  {| vpcs := [Vpc.mk "NO_VPC" None]; subs := []; ec2s := []; rds := []; lbs := [];
     ecs_services := []; tgs := None |}.

(** A database that lists a subnet of the input and a subnet that is not in
    the input. *)
Definition stale_subnet_inventory : inventory :=
  {| vpcs := [Vpc.mk "vpc-1" None];
     subs := [Subnet.mk "subnet-1" "vpc-1" None];
     ec2s := [];
     rds := [DBInstance.mk "db-1"
               (Some (DBSubnetGroup.mk (Some [DBSubnet.mk (Some "subnet-1");
                                              DBSubnet.mk (Some "subnet-gone")])))];
     lbs := []; ecs_services := []; tgs := None |}.

(** A service with two bindings: the first carries a target-group ARN that
    the target-group table does not know, the second one that it knows. *)
Definition unknown_arn_inventory : inventory :=
  {| vpcs := [Vpc.mk "vpc-1" None]; subs := []; ec2s := []; rds := []; lbs := [];
     ecs_services :=
       [Service.mk "api" "arn:aws:ecs:us-east-1:123456789012:cluster/prod"
                   (Some [Binding.mk None (Some "arn:tg/none/1");
                          Binding.mk None (Some "arn:tg/known/2")])];
     tgs := Some [TargetGroup.mk "arn:tg/known/2" "vpc-1"] |}.

(** A service whose only binding has no name and the ARN of the target group
    [my-tg]. *)
Definition target_group_inventory : inventory :=
  {| vpcs := []; subs := []; ec2s := []; rds := []; lbs := [];
     ecs_services :=
       [Service.mk "web" "arn:aws:ecs:us-east-1:123456789012:cluster/prod"
          (Some [Binding.mk None
                   (Some "arn:aws:elasticloadbalancing:us-east-1:123456789012:targetgroup/my-tg/abc123")])];
     tgs := None |}.

(** The ids the input refers to as the source of an edge: the container of a
    subnet, the subnets a database lists, the container of a load balancer
    and of a target group. *)
Definition referenced_ids (inv : inventory) : list string :=
  map Subnet.VpcId (subs inv)
  ++ (db ← rds inv; listed_subnet_ids db)
  ++ map LoadBalancer.VpcId (lbs inv)
  ++ map TargetGroup.VpcId (default [] (tgs inv)).

(** The inventory with another list of services. *)
Definition with_services (inv : inventory) (svcs : list Service.t) : inventory :=
  {| vpcs := vpcs inv; subs := subs inv; ec2s := ec2s inv; rds := rds inv;
     lbs := lbs inv; ecs_services := svcs; tgs := tgs inv |}.

(** The service with another list of bindings. *)
Definition with_bindings (svc : Service.t) (bs : list Binding.t) : Service.t :=
  Service.mk (Service.serviceName svc) (Service.clusterArn svc) (Some bs).

(** ** Vocabulary of the further statements *)

(** Both ends of every edge are nodes. *)
Definition edges_closed (G : DiGraph) : Prop :=
  ∀ u v, (u, v) ∈ edges G → u ∈ node_ids G ∧ v ∈ node_ids G.

(** The attribute triples [main] passes to [add_node]: lines 59, 63, 68,
    77 and 98, 87, 88, 113. *)
Inductive step_attrs : attrs → Prop :=
  | vpc_step_attrs cidr : step_attrs (mk_attrs ("VPC" +:+ nl +:+ cidr) "skyblue" 2)
  | subnet_step_attrs name : step_attrs (mk_attrs ("Subnet" +:+ nl +:+ name) "lightgreen" 1)
  | db_step_attrs : step_attrs (mk_attrs "RDS" "plum" 0)
  | lb_step_attrs : step_attrs lb_attrs
  | cluster_step_attrs : step_attrs (mk_attrs "ECS Cluster" "lightyellow" 3)
  | service_step_attrs name :
      step_attrs (mk_attrs ("ECS Service" +:+ nl +:+ name) "gold" 4)
  | sentinel_step_attrs : step_attrs sentinel_attrs.

(** The ids the edges of lines 64, 71, 78, 89, 99 and 103 point to. *)
Definition step_target (inv : inventory) (v : string) : Prop :=
  v ∈ subnet_ids inv ∨ v ∈ db_ids inv
  ∨ (∃ name, v = lb_node_id name) ∨ (∃ name, v = service_node_id name).

(** [G.pred[n]], the nodes with an edge to [n]. *)
Definition predecessors (G : DiGraph) (n : string) : gset string :=
  list_to_set (filter (λ e, e.2 = n) (edges G)).*1.

(** A node's attributes are none (the node was only ever named by an edge) or
    one of the triples of [step_attrs]. *)
Definition attrs_by_kind (G : DiGraph) : Prop :=
  ∀ n a, node_attrs (nodes G) n = Some a → a = no_attrs ∨ step_attrs a.

(** Every binding of every service, in the order the loops of lines 44-45
    and 80-91 visit them. *)
Definition all_bindings (inv : inventory) : list Binding.t :=
  svc ← ecs_services inv; default [] (Service.loadBalancers svc).

(** The name lines 46-53 add to the used names for one binding, if any. *)
Definition scanned_name (lb : Binding.t) : option string :=
  let lb_name := Binding.loadBalancerName lb in
  let tg_arn := default "" (Binding.targetGroupArn lb) in
  if truthy_opt lb_name then lb_name
  else if truthy tg_arn then
    tail ← last (split ":" tg_arn);
    let parts := split "/" tail in
    if (2 <=? length parts)%nat then parts !! (length parts - 2) else None
  else None.

(** The bindings on which line 93 raises: no usable direct name and a
    non-empty ARN without a '/'. *)
Definition raising_binding (lb : Binding.t) : bool :=
  let tg_arn := default "" (Binding.targetGroupArn lb) in
  truthy tg_arn && negb (truthy_opt (Binding.loadBalancerName lb))
  && negb (contains_char "/" tg_arn).

(** No subnet has an empty tag list and no binding is a raising one. *)
Definition index_safe (inv : inventory) : bool :=
  forallb (λ s, match Subnet.Tags s with Some [] => false | _ => true end) (subs inv)
  && forallb (λ lb, negb (raising_binding lb)) (all_bindings inv).

(** Every reference of the input names a resource of the input: the container
    of a subnet, of a load balancer and of a target group is a listed
    container, and the subnets a database lists are listed subnets. *)
Definition references_resolve (inv : inventory) : Prop :=
  Forall (λ s, Subnet.VpcId s ∈ vpc_ids inv) (subs inv) ∧
  Forall (λ db, Forall (λ sn, sn ∈ subnet_ids inv) (listed_subnet_ids db)) (rds inv) ∧
  Forall (λ lb, LoadBalancer.VpcId lb ∈ vpc_ids inv) (lbs inv) ∧
  Forall (λ tg, TargetGroup.VpcId tg ∈ vpc_ids inv) (default [] (tgs inv)).

(** Every node was created by an [add_node] of [main]. *)
Definition all_created (G : DiGraph) : Prop :=
  ∀ n a, node_attrs (nodes G) n = Some a → step_attrs a.

(** The edges [main] adds before the final pass: lines 64, 71, 78, 89, 99
    and 103. *)
Inductive built_edge (inv : inventory) (used : gset string) : string → string → Prop :=
  | subnet_edge s :
      s ∈ subs inv → built_edge inv used (Subnet.VpcId s) (Subnet.SubnetId s)
  | db_edge db sn :
      db ∈ rds inv → sn ∈ listed_subnet_ids db →
      built_edge inv used sn (DBInstance.DBInstanceIdentifier db)
  | lb_edge lb :
      lb ∈ lbs inv → LoadBalancer.LoadBalancerName lb ∈ used →
      built_edge inv used (LoadBalancer.VpcId lb)
                 (lb_node_id (LoadBalancer.LoadBalancerName lb))
  | cluster_edge svc cluster_name :
      svc ∈ ecs_services inv →
      getitem (split "/" (Service.clusterArn svc)) (-1) = Ok cluster_name →
      built_edge inv used (cluster_node_id cluster_name)
                 (service_node_id (Service.serviceName svc))
  | service_lb_edge svc lb name :
      svc ∈ ecs_services inv → lb ∈ default [] (Service.loadBalancers svc) →
      resolve_lb_name lb = Ok (Some name) → name ≠ "" →
      built_edge inv used (service_node_id (Service.serviceName svc)) (lb_node_id name)
  | anchor_edge svc lb tg_arn vpc_id :
      svc ∈ ecs_services inv → lb ∈ default [] (Service.loadBalancers svc) →
      Binding.targetGroupArn lb = Some tg_arn → tg_arn ≠ "" →
      tg_to_vpc inv !! tg_arn = Some vpc_id →
      built_edge inv used vpc_id (service_node_id (Service.serviceName svc)).

(** ** [main], lines 169-176: the part of the graph a diagram shows *)

(** One round of following the edges that leave a set of nodes. *)
Definition expand (G : DiGraph) (seen : gset string) : gset string :=
  seen ∪ list_to_set (filter (λ e, e.1 ∈ seen) (edges G)).*2.

Fixpoint reach (rounds : nat) (G : DiGraph) (seen : gset string) : gset string :=
  match rounds with
  | 0 => seen
  | S rounds' => reach rounds' G (expand G seen)
  end.

(** [nx.descendants(G, source)]: the nodes that can be reached from [source],
    without [source] itself; networkx refuses a source that is no node. *)
Definition descendants (G : DiGraph) (source : string) : option (gset string) :=
  if has_node G source
  then Some (reach (length (nodes G)) G {[source]} ∖ {[source]})
  else None.

(** [{vpc_id} | nx.descendants(G, vpc_id)] *)
Definition row_nodes (G : DiGraph) (root : string) : option (gset string) :=
  reached ← descendants G root; Some ({[root]} ∪ reached).

(** [G.subgraph(row_nodes).copy()].  networkx keeps the members of
    [row_nodes] that are nodes of [G] in a set of its own and copies the
    nodes by iterating that set when it holds fewer than half of the nodes of
    [G], and by iterating [G] otherwise.  The order in which Python iterates
    a set of strings changes from run to run: it is the parameter
    [set_order]. *)
Definition subgraph (set_order : gset string → list string) (G : DiGraph)
    (row : gset string) : DiGraph :=
  let ok : gset string := filter (λ n, n ∈ node_ids G) row in
  {| nodes :=
       if (2 * size ok <? length (nodes G))%nat
       then omap (λ n, a ← node_attrs (nodes G) n; Some (n, a)) (set_order ok)
       else filter (λ p, p.1 ∈ row) (nodes G);
     edges := filter (λ e, e.1 ∈ row ∧ e.2 ∈ row) (edges G) |}.

(** There is a path of edges from [x] to [y], possibly empty. *)
Definition reachable (G : DiGraph) (x y : string) : Prop :=
  rtc (λ a b, has_edge G a b = true) x y.

(** ** [draw_vpc_topology], lines 117-135: what is drawn for a node *)

(** Lines 117-120, the three [setdefault] calls. *)
Definition with_defaults (n : string) (a : attrs) : attrs :=
  {| label := Some (default n (label a));
     color := Some (default "gray" (color a));
     layer := Some (default 99%Z (layer a)) |}.

(** [s[:k]], with one [ascii] per character of the Python string. *)
Fixpoint str_take (k : nat) (s : string) : string :=
  match k, s with
  | S k', String c s' => String c (str_take k' s')
  | _, _ => EmptyString
  end.

(** Line 131: [n.split(":")[-1][:10] if ":" in n else n[:12]] *)
Definition short_name (n : string) : result string :=
  if contains_char ":" n then
    tail ← getitem (split ":" n) (-1);
    Ok (str_take 10 tail)
  else Ok (str_take 12 n).

(** What is drawn for one node: the layer that fixes its row (line 122), the
    colour of its marker (line 128) and its two-line text (line 132). *)
Record mark := {
  mark_id : string;
  tier : Z;
  fill : string;
  text : string
}.

(** [KeyError] stands for an attribute that is missing after the defaults,
    which the proofs show never happens. *)
Definition draw_node (p : string * attrs) : result mark :=
  let a := with_defaults p.1 p.2 in
  short ← short_name p.1;
  match layer a, color a, label a with
  | Some k, Some c, Some l =>
      Ok {| mark_id := p.1; tier := k; fill := c; text := l +:+ nl +:+ short |}
  | _, _, _ => Raise KeyError
  end.

Fixpoint draw_nodes (ps : list (string * attrs)) : result (list mark) :=
  match ps with
  | [] => Ok []
  | p :: ps' => m ← draw_node p; ms ← draw_nodes ps'; Ok (m :: ms)
  end.

(** The marks of the diagram rooted at [root]: lines 171-172 and 175-176
    followed by lines 117-135.  The list has one mark per node of the copy;
    the renderer places the markers in the order of the copy and the texts
    in the order of the layout, so the position of a mark in the list means
    nothing. *)
Definition picture (set_order : gset string → list string) (G : DiGraph)
    (root : string) : option (result (list mark)) :=
  row ← row_nodes G root; Some (draw_nodes (nodes (subgraph set_order G row))).

(** The pairs of layer and colour of the kinds of node, and the pair of the
    defaults. *)
Definition kind_styles : list (Z * string) :=
  [ (2%Z, "skyblue"); (1%Z, "lightgreen"); (0%Z, "plum"); (3%Z, "lightslategray");
    (3%Z, "lightyellow"); (4%Z, "gold"); (0%Z, "lightgray") ].

Definition default_style : Z * string := (99%Z, "gray").

(** * Properties *)

(** ** The error monad and the loops *)

Lemma bind_Ok {A B} (r : result A) (f : A → result B) (b : B) :
  r ≫= f = Ok b ↔ ∃ a, r = Ok a ∧ f a = Ok b.
Proof.
  destruct r as [a|e]; simpl; split.
  - intros H. by exists a.
  - by intros (a' & [= ->] & H).
  - intros [=].
  - by intros (a' & [=] & _).
Qed.

(** A loop whose body never raises is a [foldl]. *)
Lemma for_each_total {A S} (body : S → A → result S) (f : S → A → S) xs st :
  (∀ s x, x ∈ xs → body s x = Ok (f s x)) →
  for_each body xs st = Ok (foldl f st xs).
Proof.
  revert st. induction xs as [|x xs IH]; intros st Hb; simpl; [done|].
  rewrite Hb by left. simpl. apply IH. intros s y Hy. apply Hb. by right.
Qed.

(** An invariant of the body is an invariant of the loop. *)
Lemma for_each_invariant {A S} (P : S → Prop) (body : S → A → result S) xs st st' :
  (∀ s x s', x ∈ xs → P s → body s x = Ok s' → P s') →
  P st → for_each body xs st = Ok st' → P st'.
Proof.
  revert st. induction xs as [|x xs IH]; intros st Hb HP; simpl.
  - by intros [= <-].
  - intros (s1 & H1 & H2)%bind_Ok. apply (IH s1); [|by eapply Hb; [left|..]|done].
    intros s y s' Hy. apply Hb. by right.
Qed.

Lemma foldl_invariant {A S} (P : S → Prop) (f : S → A → S) xs st :
  (∀ s x, x ∈ xs → P s → P (f s x)) → P st → P (foldl f st xs).
Proof.
  revert st. induction xs as [|x xs IH]; intros st Hf HP; simpl; [done|].
  apply IH; [|apply Hf; [left|done]]. intros s y Hy. apply Hf. by right.
Qed.

(** If every exception of the body is [e] and some element always raises,
    the loop raises [e]. *)
Lemma for_each_raises {A S} (body : S → A → result S) xs st x e :
  x ∈ xs →
  (∀ s, body s x = Raise e) →
  (∀ s y e', y ∈ xs → body s y = Raise e' → e' = e) →
  for_each body xs st = Raise e.
Proof.
  revert st. induction xs as [|y xs IH]; intros st Hx Hr He; [by inversion Hx|].
  simpl. destruct (body st y) as [s1|e1] eqn:Hy; simpl.
  - apply IH.
    + inversion Hx; subst; [by rewrite Hr in Hy | done].
    + done.
    + intros s z e' Hz. apply He. by right.
  - f_equal. eapply He; [left | done].
Qed.

Lemma for_each_raise_inv {A S} (body : S → A → result S) xs st e :
  for_each body xs st = Raise e → ∃ s x, x ∈ xs ∧ body s x = Raise e.
Proof.
  revert st. induction xs as [|y xs IH]; intros st; simpl; [done|].
  destruct (body st y) as [s1|e1] eqn:Hy; simpl.
  - intros (s & x & Hx & H)%IH. exists s, x. split; [by right | done].
  - intros [= ->]. exists st, y. split; [left | done].
Qed.

Lemma filter_raising_Ok {A} (p : A → result bool) xs ys :
  filter_raising p xs = Ok ys →
  (∀ x, x ∈ xs → ∃ b, p x = Ok b) ∧
  (∀ x, x ∈ ys ↔ x ∈ xs ∧ p x = Ok true).
Proof.
  revert ys. induction xs as [|x xs IH]; intros ys; simpl.
  - intros [= <-]. split; [by intros x Hx; inversion Hx|].
    intros x. split; [by intros Hx; inversion Hx | by intros [Hx _]; inversion Hx].
  - intros (b & Hb & (rest & Hrest & [= <-])%bind_Ok)%bind_Ok.
    destruct (IH _ Hrest) as [IH1 IH2]. split.
    + intros y Hy. inversion Hy; subst; [by exists b | by apply IH1].
    + intros y. destruct b.
      * rewrite elem_of_cons, IH2, elem_of_cons. split.
        -- intros [->|[H1 H2]]; [by split; [left|] | by split; [right|]].
        -- intros [[->|H1] H2]; [by left | by right].
      * rewrite IH2, elem_of_cons. split.
        -- intros [H1 H2]. by split; [right|].
        -- intros [[->|H1] H2]; [congruence | done].
Qed.

Lemma filter_raising_NoDup {A} (p : A → result bool) xs ys :
  NoDup xs → filter_raising p xs = Ok ys → NoDup ys.
Proof.
  revert ys. induction xs as [|x xs IH]; intros ys Hnd; simpl.
  - intros [= <-]. constructor.
  - intros (b & Hb & (rest & Hrest & [= <-])%bind_Ok)%bind_Ok.
    inversion Hnd as [|? ? Hx Hnd']; subst.
    destruct b; [|by apply IH].
    constructor; [|by apply IH].
    intros [Hin _]%(filter_raising_Ok _ _ _ Hrest). done.
Qed.

Lemma filter_raising_none {A} (p : A → result bool) xs :
  (∀ x, x ∈ xs → p x = Ok false) → filter_raising p xs = Ok [].
Proof.
  induction xs as [|x xs IH]; intros Hp; simpl; [done|].
  rewrite Hp by left. simpl. rewrite IH; [done|].
  intros y Hy. apply Hp. by right.
Qed.

(** ** Python strings and lists *)

Lemma truthy_true s : truthy s = true ↔ s ≠ "".
Proof.
  unfold truthy. destruct (String.eqb_spec s ""); simpl; split; congruence.
Qed.

Lemma split_length sep s : 1 ≤ length (split sep s).
Proof.
  induction s as [|c s IH]; simpl; [lia|].
  destruct (Ascii.eqb c sep); simpl; [lia|].
  destruct (split sep s); simpl in *; lia.
Qed.

(** Boolean comparisons on [Z] in the hypotheses, as propositions for [lia]. *)
Ltac zbool :=
  repeat match goal with
         | H : (_ || _)%bool = true |- _ => apply orb_true_iff in H as [H|H]
         | H : (_ || _)%bool = false |- _ => apply orb_false_iff in H as [? ?]
         | H : (_ <? _)%Z = true |- _ => apply Z.ltb_lt in H
         | H : (_ <? _)%Z = false |- _ => apply Z.ltb_ge in H
         | H : (_ <=? _)%Z = true |- _ => apply Z.leb_le in H
         | H : (_ <=? _)%Z = false |- _ => apply Z.leb_gt in H
         end.

Lemma getitem_raise {A} (l : list A) i e : getitem l i = Raise e → e = IndexError.
Proof.
  unfold getitem. repeat case_match; congruence.
Qed.

Lemma getitem_last {A} (l : list A) :
  getitem l (-1) = match last l with Some x => Ok x | None => Raise IndexError end.
Proof.
  unfold getitem. rewrite last_lookup.
  destruct l as [|x l]; [done|].
  replace (-1 <? 0)%Z with true by done.
  assert (Z.to_nat (-1 + Z.of_nat (length (x :: l))) = pred (length (x :: l))) as ->.
  { change (length (x :: l)) with (S (length l)). lia. }
  destruct (_ || _)%bool eqn:Hb; [|done].
  change (length (x :: l)) with (S (length l)) in Hb.
  zbool; lia.
Qed.

Lemma getitem_second_last_short {A} (l : list A) :
  length l < 2 → getitem l (-2) = Raise IndexError.
Proof.
  intros Hl. unfold getitem.
  replace (-2 <? 0)%Z with true by done.
  destruct (_ || _)%bool eqn:Hb; [done|].
  zbool; lia.
Qed.

Lemma getitem_second_last {A} (l : list A) :
  2 ≤ length l → ∃ x, l !! (length l - 2) = Some x ∧ getitem l (-2) = Ok x.
Proof.
  intros Hl. unfold getitem.
  replace (-2 <? 0)%Z with true by done.
  assert (Z.to_nat (-2 + Z.of_nat (length l)) = length l - 2) as -> by lia.
  destruct (_ || _)%bool eqn:Hb.
  { zbool; lia. }
  destruct (lookup_lt_is_Some_2 l (length l - 2)) as [x Hx]; [lia|].
  exists x. by rewrite Hx.
Qed.

Lemma getitem_0_cons {A} (x : A) l : getitem (x :: l) 0 = Ok x.
Proof.
  unfold getitem. replace (0 <? 0)%Z with false by done.
  destruct (_ || _)%bool eqn:Hb; [|done].
  change (length (x :: l)) with (S (length l)) in Hb.
  zbool; lia.
Qed.

Lemma split_last_Ok sep s : ∃ x, getitem (split sep s) (-1) = Ok x.
Proof.
  rewrite getitem_last. pose proof (split_length sep s) as Hl.
  destruct (split sep s) as [|y l] eqn:E; [simpl in Hl; lia|].
  rewrite last_lookup. simpl.
  destruct (lookup_lt_is_Some_2 (y :: l) (length l)) as [x Hx]; [simpl; lia|].
  exists x. by rewrite Hx.
Qed.

(** ** The graph operations *)

Lemma update_attrs_none b : update_attrs b no_attrs = b.
Proof. by destruct b. Qed.

Lemma node_attrs_upsert_eq n a l :
  node_attrs (upsert n a l) n
  = Some (update_attrs (default no_attrs (node_attrs l n)) a).
Proof.
  induction l as [|[m b] l IH]; simpl.
  - by rewrite String.eqb_refl.
  - destruct (String.eqb_spec m n) as [->|Hne]; simpl.
    + by rewrite String.eqb_refl.
    + by destruct (String.eqb_spec m n).
Qed.

Lemma node_attrs_upsert_ne n m a l :
  m ≠ n → node_attrs (upsert n a l) m = node_attrs l m.
Proof.
  intros Hne. induction l as [|[k b] l IH]; simpl.
  - by destruct (String.eqb_spec n m) as [->|].
  - destruct (String.eqb_spec k n) as [->|Hkn]; simpl.
    + by destruct (String.eqb_spec n m) as [->|].
    + by rewrite IH.
Qed.

Lemma node_attrs_Some_elem l n : is_Some (node_attrs l n) ↔ n ∈ l.*1.
Proof.
  induction l as [|[m b] l IH]; simpl.
  - split; [by intros [? [=]] | by intros H; inversion H].
  - rewrite elem_of_cons. destruct (String.eqb_spec m n) as [->|Hne].
    + split; [by left | by eexists].
    + rewrite IH. split; [by right | by intros [->|]].
Qed.

Lemma upsert_ids n a l :
  (upsert n a l).*1 = if decide (n ∈ l.*1) then l.*1 else l.*1 ++ [n].
Proof.
  induction l as [|[m b] l IH].
  - destruct (decide (n ∈ ([] : list (string * attrs)).*1)) as [Hin|_]; [|done].
    by inversion Hin.
  - cbn [upsert]. destruct (String.eqb_spec m n) as [->|Hne].
    + destruct (decide (n ∈ ((n, b) :: l).*1)) as [_|Hin]; [done|].
      exfalso. apply Hin. left.
    + rewrite fmap_cons, IH. cbn [fst].
      destruct (decide (n ∈ l.*1)) as [Hin|Hin],
               (decide (n ∈ ((m, b) :: l).*1)) as [Hin'|Hin']; try done.
      * exfalso. apply Hin'. by right.
      * rewrite fmap_cons in Hin'. cbn [fst] in Hin'.
        apply elem_of_cons in Hin' as [->|?]; done.
Qed.

Lemma upsert_NoDup n a l : NoDup l.*1 → NoDup (upsert n a l).*1.
Proof.
  intros Hnd. rewrite upsert_ids. case_decide; [done|].
  apply NoDup_app. split_and!; [done | | apply NoDup_singleton].
  intros x Hx Hn. apply list_elem_of_singleton in Hn. by subst.
Qed.

Lemma has_node_true G n : has_node G n = true ↔ n ∈ node_ids G.
Proof.
  unfold has_node, node_ids. rewrite <- node_attrs_Some_elem.
  destruct (node_attrs (nodes G) n) as [a|]; split; intros H.
  - by eexists.
  - done.
  - done.
  - by destruct H as [? [=]].
Qed.

Lemma elem_of_upsert_ids n a l m : m ∈ (upsert n a l).*1 ↔ m ∈ l.*1 ∨ m = n.
Proof.
  rewrite upsert_ids. case_decide.
  - split; [by left | by intros [?| ->]].
  - by rewrite elem_of_app, list_elem_of_singleton.
Qed.

Lemma elem_of_node_ids_add_node G n a m :
  m ∈ node_ids (add_node G n a) ↔ m ∈ node_ids G ∨ m = n.
Proof. apply elem_of_upsert_ids. Qed.

Lemma elem_of_node_ids_add_edge G u v m :
  m ∈ node_ids (add_edge G u v) ↔ m ∈ node_ids G ∨ m = u ∨ m = v.
Proof.
  unfold node_ids, add_edge. simpl. rewrite !elem_of_upsert_ids. tauto.
Qed.

Lemma node_attrs_add_node_eq G n a :
  node_attrs (nodes (add_node G n a)) n
  = Some (update_attrs (default no_attrs (node_attrs (nodes G) n)) a).
Proof. apply node_attrs_upsert_eq. Qed.

Lemma node_attrs_add_node_ne G n m a :
  m ≠ n → node_attrs (nodes (add_node G n a)) m = node_attrs (nodes G) m.
Proof. apply node_attrs_upsert_ne. Qed.

(** An edge never changes the attributes of a node that exists. *)
Lemma node_attrs_add_edge G u v m a :
  node_attrs (nodes G) m = Some a →
  node_attrs (nodes (add_edge G u v)) m = Some a.
Proof.
  intros Hm. unfold add_edge. simpl.
  assert (node_attrs (upsert u no_attrs (nodes G)) m = Some a) as H1.
  { destruct (decide (m = u)) as [->|Hne].
    - by rewrite node_attrs_upsert_eq, Hm, update_attrs_none.
    - by rewrite node_attrs_upsert_ne. }
  destruct (decide (m = v)) as [->|Hne].
  - by rewrite node_attrs_upsert_eq, H1, update_attrs_none.
  - by rewrite node_attrs_upsert_ne.
Qed.

(** The attributes a node has after an edge was added: its own, or none when
    the edge created it. *)
Lemma node_attrs_add_edge_inv G u v m a :
  node_attrs (nodes (add_edge G u v)) m = Some a →
  node_attrs (nodes G) m = Some a ∨ (node_attrs (nodes G) m = None ∧ a = no_attrs).
Proof.
  destruct (node_attrs (nodes G) m) as [b|] eqn:Hm.
  - rewrite (node_attrs_add_edge _ _ _ _ _ Hm). intros [= ->]. by left.
  - intros H. right. split; [done|]. unfold add_edge in H. simpl in H.
    destruct (decide (m = v)) as [->|Hv].
    + rewrite node_attrs_upsert_eq in H.
      destruct (decide (v = u)) as [->|Hu].
      * rewrite node_attrs_upsert_eq, Hm in H. by injection H as <-.
      * rewrite node_attrs_upsert_ne, Hm in H by done. by injection H as <-.
    + rewrite node_attrs_upsert_ne in H by done.
      destruct (decide (m = u)) as [->|Hu].
      * rewrite node_attrs_upsert_eq, Hm in H. by injection H as <-.
      * rewrite node_attrs_upsert_ne, Hm in H by done. done.
Qed.

Lemma NoDup_add_node G n a : NoDup (node_ids G) → NoDup (node_ids (add_node G n a)).
Proof. apply upsert_NoDup. Qed.

Lemma NoDup_add_edge G u v : NoDup (node_ids G) → NoDup (node_ids (add_edge G u v)).
Proof. intros H. unfold node_ids, add_edge. simpl. by do 2 apply upsert_NoDup. Qed.

Lemma edge_eqb_true e f : edge_eqb e f = true ↔ e = f.
Proof.
  unfold edge_eqb. destruct e as [a b], f as [c d]. simpl.
  rewrite andb_true_iff, !String.eqb_eq. split.
  - by intros [-> ->].
  - by intros [= -> ->].
Qed.

Lemma has_edge_true G u v : has_edge G u v = true ↔ (u, v) ∈ edges G.
Proof.
  unfold has_edge. rewrite existsb_exists. split.
  - intros (e & Hin & He). apply edge_eqb_true in He. subst e.
    by apply list_elem_of_In.
  - intros Hin. exists (u, v). split; [by apply list_elem_of_In | by apply edge_eqb_true].
Qed.

Lemma elem_of_edges_add_edge G u v e :
  e ∈ edges (add_edge G u v) ↔ e ∈ edges G ∨ e = (u, v).
Proof.
  unfold add_edge. simpl. destruct (has_edge G u v) eqn:Hh.
  - apply has_edge_true in Hh. split; [by left | by intros [?| ->]].
  - by rewrite elem_of_app, list_elem_of_singleton.
Qed.

Lemma in_degree_add_node G n a m : in_degree (add_node G n a) m = in_degree G m.
Proof. done. Qed.

Lemma in_degree_add_edge G u v w :
  in_degree (add_edge G u v) w
  = in_degree G w + (if has_edge G u v then 0 else if decide (v = w) then 1 else 0).
Proof.
  unfold in_degree, add_edge. simpl. destruct (has_edge G u v); [lia|].
  rewrite filter_app, length_app. f_equal.
  rewrite filter_cons. simpl. by case_decide.
Qed.

Lemma in_degree_add_edge_mono G u v w : in_degree G w ≤ in_degree (add_edge G u v) w.
Proof. rewrite in_degree_add_edge. lia. Qed.

Lemma in_degree_pos G u v : has_edge G u v = true → 0 < in_degree G v.
Proof.
  rewrite has_edge_true. unfold in_degree. intros Hin.
  assert ((u, v) ∈ filter (λ e, e.2 = v) (edges G)) as H.
  { by apply list_elem_of_filter. }
  destruct (filter _ _); [by inversion H | simpl; lia].
Qed.

(** ** Name resolution: the used-name scan and the service loop *)

Lemma for_each_Ok {A S} (body : S → A → result S) xs st :
  (∀ s x, x ∈ xs → ∃ s', body s x = Ok s') → ∃ st', for_each body xs st = Ok st'.
Proof.
  revert st. induction xs as [|x xs IH]; intros st Hb; simpl; [by eexists|].
  destruct (Hb st x) as [s1 ->]; [left|]. simpl.
  apply IH. intros s y Hy. apply Hb. by right.
Qed.

Lemma used_name_binding_Ok used lb : ∃ used', used_name_binding used lb = Ok used'.
Proof.
  unfold used_name_binding.
  destruct (truthy_opt _); [by eexists|].
  destruct (truthy _); [|by eexists].
  destruct (split_last_Ok ":" (default "" (Binding.targetGroupArn lb))) as [tail ->].
  cbn -[Nat.leb]. destruct (2 <=? length (split "/" tail)) eqn:Hlen; [|by eexists].
  apply Nat.leb_le, getitem_second_last in Hlen as (name & _ & ->).
  by eexists.
Qed.

(** The used-name scan never raises. *)
Lemma used_lb_names_Ok inv : ∃ used, used_lb_names inv = Ok used.
Proof.
  apply for_each_Ok. intros s svc _. apply for_each_Ok. intros s' lb _.
  apply used_name_binding_Ok.
Qed.

Lemma add_subnet_raise G s e : add_subnet G s = Raise e → e = IndexError.
Proof.
  unfold add_subnet. destruct (getitem _ 0) as [t|e'] eqn:Hg; simpl; [done|].
  intros [= <-]. by eapply getitem_raise.
Qed.

Lemma resolve_lb_name_raise lb e : resolve_lb_name lb = Raise e → e = IndexError.
Proof.
  unfold resolve_lb_name. destruct (truthy _); [|done].
  destruct (truthy_opt _); [done|].
  destruct (getitem _ _) as [t|e'] eqn:Hg; simpl; [done|].
  intros [= <-]. by eapply getitem_raise.
Qed.

Lemma add_binding_raise to_vpc sid G lb e :
  add_binding to_vpc sid G lb = Raise e → e = IndexError.
Proof.
  unfold add_binding. destruct (resolve_lb_name lb) as [o|e'] eqn:Hr; simpl; [done|].
  intros [= <-]. by eapply resolve_lb_name_raise.
Qed.

Lemma add_service_raise to_vpc G svc e :
  add_service to_vpc G svc = Raise e → e = IndexError.
Proof.
  unfold add_service. destruct (getitem _ _) as [c|e'] eqn:Hg; simpl.
  - intros (s & lb & _ & H)%for_each_raise_inv. by eapply add_binding_raise.
  - intros [= <-]. by eapply getitem_raise.
Qed.

(** Every exception of lines 35-103 is an [IndexError]. *)
Lemma build_graph_raise inv e : build_graph inv = Raise e → e = IndexError.
Proof.
  unfold build_graph. destruct (used_lb_names_Ok inv) as [used ->]. simpl.
  destruct (for_each add_subnet _ _) as [G2|e2] eqn:H2; simpl.
  - destruct (for_each (add_service _) _ _) as [G5|e5] eqn:H5; simpl; [done|].
    intros [= <-]. apply for_each_raise_inv in H5 as (s & x & _ & H).
    by eapply add_service_raise.
  - intros [= <-]. apply for_each_raise_inv in H2 as (s & x & _ & H).
    by eapply add_subnet_raise.
Qed.

(** The body of the inner loop of the scan on a binding without a direct
    name: what the last ':' component of its ARN makes of the used names. *)
Lemma used_name_binding_from_arn (used : gset string) (lb : Binding.t) (tg_arn : string) :
  truthy_opt (Binding.loadBalancerName lb) = false →
  Binding.targetGroupArn lb = Some tg_arn →
  (last (split ":" tg_arn) = Some "targetgroup/my-tg/abc123" →
   used_name_binding used lb = Ok ({["my-tg"]} ∪ used)) ∧
  (∀ tail, last (split ":" tg_arn) = Some tail →
           length (split "/" tail) < 2 →
           used_name_binding used lb = Ok used).
Proof.
  intros Hname Harn. unfold used_name_binding. rewrite Hname, Harn.
  cbn -[Nat.leb]. destruct (truthy tg_arn) eqn:Ht.
  - rewrite getitem_last. split.
    + intros ->. reflexivity.
    + intros tail -> Hlen. cbn -[Nat.leb].
      by apply Nat.leb_gt in Hlen as ->.
  - split; [|done].
    assert (tg_arn = "") as ->.
    { destruct (String.eqb_spec tg_arn ""); [done|].
      by apply truthy_true in n; rewrite n in Ht. }
    intros [=].
Qed.

(** C1 (the code departs from the rule): a binding that names its load
    balancer directly and carries no target-group ARN is counted by the
    used-name scan, but the service loop resolves no name for it and adds
    neither a node nor an edge; and for the ARN [a/b:c] the scan recovers
    nothing while the service loop resolves the name [a]. *)
Theorem direct_name_without_arn_dropped (name : string) (used : gset string) :
  name ≠ "" →
  used_name_binding used (Binding.mk (Some name) None) = Ok ({[name]} ∪ used) ∧
  resolve_lb_name (Binding.mk (Some name) None) = Ok None ∧
  (∀ to_vpc service_id G,
     add_binding to_vpc service_id G (Binding.mk (Some name) None) = Ok G) ∧
  used_name_binding used (Binding.mk None (Some "a/b:c")) = Ok used ∧
  resolve_lb_name (Binding.mk None (Some "a/b:c")) = Ok (Some "a").
Proof.
  intros Hne. apply truthy_true in Hne.
  unfold used_name_binding, add_binding, resolve_lb_name. simpl. rewrite Hne.
  done.
Qed.

Lemma direct_name_without_arn_dropped_witness :
  resolve_lb_name (Binding.mk (Some "my-lb") None) = Ok None.
Proof.
  apply (direct_name_without_arn_dropped "my-lb" ∅). done.
Defined.

Lemma resolve_lb_name_no_slash lb tg_arn :
  truthy_opt (Binding.loadBalancerName lb) = false →
  Binding.targetGroupArn lb = Some tg_arn →
  tg_arn ≠ "" →
  length (split "/" tg_arn) ≤ 1 →
  resolve_lb_name lb = Raise IndexError.
Proof.
  intros Hname Harn Hne%truthy_true Hlen.
  unfold resolve_lb_name. rewrite Harn. simpl. rewrite Hne, Hname.
  rewrite getitem_second_last_short by lia. done.
Qed.

Lemma build_raise inv e : build_graph inv = Raise e → build inv = Raise e.
Proof. unfold build. by intros ->. Qed.

Lemma main_raise inv e : build inv = Raise e → main inv = Raise e.
Proof. unfold main. by intros ->. Qed.

(** C10: a binding of a service with no direct name and a non-empty
    target-group ARN that has no '/' in it (one '/'-separated segment) makes
    the name resolution of the service loop raise [IndexError], and the whole
    run ends with that exception. *)
Theorem service_binding_index_error (lb : Binding.t) (tg_arn : string) :
  truthy_opt (Binding.loadBalancerName lb) = false →
  Binding.targetGroupArn lb = Some tg_arn →
  tg_arn ≠ "" →
  length (split "/" tg_arn) ≤ 1 →
  resolve_lb_name lb = Raise IndexError ∧
  ∀ inv svc,
    svc ∈ ecs_services inv →
    lb ∈ default [] (Service.loadBalancers svc) →
    build inv = Raise IndexError ∧ main inv = Raise IndexError.
Proof.
  intros Hname Harn Hne Hlen.
  pose proof (resolve_lb_name_no_slash lb tg_arn Hname Harn Hne Hlen) as Hres.
  split; [done|]. intros inv svc Hsvc Hlb.
  assert (build_graph inv = Raise IndexError) as Hb.
  { unfold build_graph. destruct (used_lb_names_Ok inv) as [used ->]. simpl.
    destruct (for_each add_subnet _ _) as [G2|e2] eqn:H2; simpl.
    - erewrite (for_each_raises _ _ _ svc IndexError); [done..| |].
      + intros G. unfold add_service.
        destruct (split_last_Ok "/" (Service.clusterArn svc)) as [c ->]. simpl.
        apply (for_each_raises _ _ _ lb); [done| |].
        * intros G'. unfold add_binding. by rewrite Hres.
        * intros G' y e' _. apply add_binding_raise.
      + intros G y e' _. apply add_service_raise.
    - f_equal. apply for_each_raise_inv in H2 as (s & x & _ & H).
      by eapply add_subnet_raise. }
  split; [|apply main_raise]; by apply build_raise.
Qed.

Lemma service_binding_index_error_witness :
  main {| vpcs := []; subs := []; ec2s := []; rds := []; lbs := [];
          ecs_services :=
            [Service.mk "api" "arn:aws:ecs:cluster/prod"
                        (Some [Binding.mk None (Some "arn:aws:elb:targetgroup")])];
          tgs := None |}
  = Raise IndexError.
Proof.
  eapply (service_binding_index_error
            (Binding.mk None (Some "arn:aws:elb:targetgroup"))
            "arn:aws:elb:targetgroup").
  - reflexivity.
  - reflexivity.
  - done.
  - simpl. lia.
  - simpl. left.
  - simpl. left.
Defined.

(** ** Databases and their subnets *)

Lemma has_edge_add_edge_iff G u v x y :
  has_edge (add_edge G u v) x y = true ↔ has_edge G x y = true ∨ (x = u ∧ y = v).
Proof.
  rewrite !has_edge_true, elem_of_edges_add_edge. split.
  - intros [?|[= -> ->]]; [by left | by right].
  - intros [?|[-> ->]]; [by left | by right].
Qed.

Lemma add_db_listed G db :
  add_db G db
  = foldl (λ G' s, add_edge G' s (DBInstance.DBInstanceIdentifier db))
          (add_node G (DBInstance.DBInstanceIdentifier db) (mk_attrs "RDS" "plum" 0))
          (listed_subnet_ids db).
Proof.
  unfold add_db, listed_subnet_ids.
  generalize (add_node G (DBInstance.DBInstanceIdentifier db) (mk_attrs "RDS" "plum" 0)).
  induction (db_subnets db) as [|sn l IH]; intros G1; [done|].
  cbn [foldl omap list_omap]. rewrite IH. unfold add_db_subnet.
  destruct (DBSubnet.SubnetIdentifier sn) as [s|]; simpl; [|done].
  by destruct (truthy s).
Qed.

Section edges_into.
Variable v : string.

Let link (G : DiGraph) (s : string) : DiGraph := add_edge G s v.

Lemma has_edge_foldl_link ids G x y :
  has_edge (foldl link G ids) x y = true
  ↔ has_edge G x y = true ∨ (x ∈ ids ∧ y = v).
Proof.
  revert G. induction ids as [|s ids IH]; intros G; simpl.
  - split; [by left | intros [?|[H _]]; [done | by inversion H]].
  - rewrite IH. unfold link. rewrite has_edge_add_edge_iff, elem_of_cons.
    tauto.
Qed.

Lemma in_degree_foldl_link ids G :
  NoDup ids →
  (∀ s, s ∈ ids → has_edge G s v = false) →
  in_degree (foldl link G ids) v = in_degree G v + length ids.
Proof.
  revert G. induction ids as [|s ids IH]; intros G Hnd Hfresh; simpl; [lia|].
  inversion Hnd as [|? ? Hs Hnd']; subst.
  rewrite IH; [|done|].
  - unfold link. rewrite in_degree_add_edge, Hfresh by left.
    rewrite decide_True by done. lia.
  - intros s' Hs'. unfold link.
    destruct (has_edge (add_edge G s v) s' v) eqn:He; [|done].
    apply has_edge_add_edge_iff in He as [He|[-> _]]; [|done].
    rewrite Hfresh in He; [done | by right].
Qed.

Lemma node_ids_foldl_link ids G m :
  m ∈ node_ids (foldl link G ids)
  ↔ m ∈ node_ids G ∨ (ids ≠ [] ∧ (m = v ∨ m ∈ ids)).
Proof.
  revert G. induction ids as [|s ids IH]; intros G; simpl.
  - split; [by left | by intros [?|[? _]]].
  - rewrite IH. unfold link. rewrite elem_of_node_ids_add_edge, elem_of_cons.
    split.
    + intros [[?|[->| ->]]|[_ [->|?]]]; eauto 6.
    + intros [?|[_ [->|[->|?]]]]; eauto 6.
      right. split; [by intros ->; inversion H | by right].
Qed.

End edges_into.

Lemma db_subnets_missing db :
  DBInstance.DBSubnetGroup db = None
  ∨ DBInstance.DBSubnetGroup db = Some (DBSubnetGroup.mk None)
  ∨ DBInstance.DBSubnetGroup db = Some (DBSubnetGroup.mk (Some [])) →
  db_subnets db = [].
Proof. unfold db_subnets. by intros [->|[->| ->]]. Qed.

Lemma in_degree_zero_no_edge G u v : in_degree G v = 0 → has_edge G u v = false.
Proof.
  intros Hz. destruct (has_edge G u v) eqn:He; [|done].
  apply in_degree_pos in He. lia.
Qed.

(** The database step on a graph where the database id has no inbound edge
    yet and every listed subnet is a node. *)
Lemma add_db_inbound_edges (G : DiGraph) (db : DBInstance.t) :
  in_degree G (DBInstance.DBInstanceIdentifier db) = 0 →
  NoDup (listed_subnet_ids db) →
  (∀ s, s ∈ listed_subnet_ids db → has_node G s = true) →
  in_degree (add_db G db) (DBInstance.DBInstanceIdentifier db)
  = length (listed_subnet_ids db) ∧
  (∀ u, has_edge (add_db G db) u (DBInstance.DBInstanceIdentifier db) = true
        ↔ u ∈ listed_subnet_ids db) ∧
  (∀ m, m ∈ node_ids (add_db G db)
        ↔ m ∈ node_ids G ∨ m = DBInstance.DBInstanceIdentifier db) ∧
  (DBInstance.DBSubnetGroup db = None
   ∨ DBInstance.DBSubnetGroup db = Some (DBSubnetGroup.mk None)
   ∨ DBInstance.DBSubnetGroup db = Some (DBSubnetGroup.mk (Some [])) →
   edges (add_db G db) = edges G).
Proof.
  intros Hzero Hnd Hvalid. rewrite add_db_listed.
  set (db_id := DBInstance.DBInstanceIdentifier db) in *.
  set (G1 := add_node G db_id (mk_attrs "RDS" "plum" 0)).
  assert (∀ u, has_edge G1 u db_id = false) as Hfresh.
  { intros u. by apply in_degree_zero_no_edge. }
  split_and!.
  - rewrite in_degree_foldl_link by done.
    unfold G1. rewrite in_degree_add_node, Hzero. done.
  - intros u. rewrite has_edge_foldl_link, Hfresh. split.
    + by intros [?|[? _]].
    + intros Hu. by right.
  - intros m. rewrite node_ids_foldl_link. unfold G1.
    rewrite elem_of_node_ids_add_node. split.
    + intros [?|[_ [->|Hm]]]; [done | by right |].
      left. by apply has_node_true, Hvalid.
    + intros H. by left.
  - intros Hmiss%db_subnets_missing. unfold listed_subnet_ids. by rewrite Hmiss.
Qed.

(** C3, at an input where it fails: a database lists a subnet id that is no
    node.  The reference is not skipped: the id becomes a node and the edge
    to the database is added; the final pass of the builder then raises
    [KeyError] on the node without a label. *)
Lemma missing_subnet_not_skipped :
  has_node empty_graph "subnet-gone" = false ∧
  has_node (add_db empty_graph
              (DBInstance.mk "db-1"
                 (Some (DBSubnetGroup.mk (Some [DBSubnet.mk (Some "subnet-gone")])))))
           "subnet-gone" = true ∧
  has_edge (add_db empty_graph
              (DBInstance.mk "db-1"
                 (Some (DBSubnetGroup.mk (Some [DBSubnet.mk (Some "subnet-gone")])))))
           "subnet-gone" "db-1" = true ∧
  build {| vpcs := []; subs := []; ec2s := [];
           rds := [DBInstance.mk "db-1"
                     (Some (DBSubnetGroup.mk (Some [DBSubnet.mk (Some "subnet-gone")])))];
           lbs := []; ecs_services := []; tgs := None |}
  = Raise KeyError.
Proof. by vm_compute. Qed.

(** ** Optional fields and empty collections *)

(** Where the defaults work: a container without a CIDR block is labelled
    [unknown], a subnet without the [Tags] key or whose first tag has no
    [Value] is labelled with its id, a database without a subnet group gets
    no edge, and empty collections give the empty graph. *)
Lemma optional_field_defaults :
  (∀ G id, node_attrs (nodes (add_vpc G (Vpc.mk id None))) id
           = Some (mk_attrs ("VPC" +:+ nl +:+ "unknown") "skyblue" 2)) ∧
  (∀ G id vpc_id tags,
     tags = None ∨ (∃ rest, tags = Some (Tag.mk None :: rest)) →
     add_subnet G (Subnet.mk id vpc_id tags)
     = Ok (add_edge (add_node G id (mk_attrs ("Subnet" +:+ nl +:+ id) "lightgreen" 1))
                    vpc_id id)) ∧
  (∀ G id, edges (add_db G (DBInstance.mk id None)) = edges G) ∧
  build {| vpcs := []; subs := []; ec2s := []; rds := []; lbs := [];
           ecs_services := []; tgs := Some [] |}
  = Ok (∅, empty_graph, []).
Proof.
  split_and!.
  - intros G id. unfold add_vpc. by rewrite node_attrs_add_node_eq.
  - intros G id vpc_id tags [->|[rest ->]]; unfold add_subnet; cbn -[getitem].
    + by rewrite getitem_0_cons.
    + by rewrite getitem_0_cons.
  - done.
  - done.
Qed.

(** C4 (the code departs from the claim): a subnet whose [Tags] list is
    present and empty makes the subnet step raise [IndexError], and with it
    the builder and the whole run, instead of falling back to the subnet id. *)
Theorem empty_tag_list_aborts (s : Subnet.t) (inv : inventory) :
  Subnet.Tags s = Some [] →
  s ∈ subs inv →
  (∀ G, add_subnet G s = Raise IndexError) ∧
  build inv = Raise IndexError ∧
  main inv = Raise IndexError.
Proof.
  intros Htags Hs.
  assert (∀ G, add_subnet G s = Raise IndexError) as Hraise.
  { intros G. unfold add_subnet. by rewrite Htags. }
  split; [done|].
  assert (build_graph inv = Raise IndexError) as Hb.
  { unfold build_graph. destruct (used_lb_names_Ok inv) as [used ->]. simpl.
    erewrite (for_each_raises _ _ _ s IndexError); [done..|].
    intros G y e' _. apply add_subnet_raise. }
  split; [|apply main_raise]; by apply build_raise.
Qed.

Lemma empty_tag_list_aborts_witness :
  build {| vpcs := [Vpc.mk "vpc-1" None];
           subs := [Subnet.mk "subnet-1" "vpc-1" (Some [])];
           ec2s := []; rds := []; lbs := []; ecs_services := []; tgs := None |}
  = Raise IndexError.
Proof.
  eapply (empty_tag_list_aborts (Subnet.mk "subnet-1" "vpc-1" (Some []))).
  - reflexivity.
  - simpl. left.
Defined.

(** ** The final pass: unattached resources and the sentinel *)

Section edges_from.
Variable u : string.

Let out (G : DiGraph) (n : string) : DiGraph := add_edge G u n.

Lemma has_edge_foldl_out ns G x y :
  has_edge (foldl out G ns) x y = true
  ↔ has_edge G x y = true ∨ (x = u ∧ y ∈ ns).
Proof.
  revert G. induction ns as [|n ns IH]; intros G; simpl.
  - split; [by left | intros [?|[_ H]]; [done | by inversion H]].
  - rewrite IH. unfold out. rewrite has_edge_add_edge_iff, elem_of_cons. tauto.
Qed.

Lemma in_degree_foldl_out_mono ns G w :
  in_degree G w ≤ in_degree (foldl out G ns) w.
Proof.
  revert G. induction ns as [|n ns IH]; intros G; simpl; [done|].
  etrans; [|apply IH]. apply in_degree_add_edge_mono.
Qed.

Lemma node_attrs_foldl_out ns G m a :
  node_attrs (nodes G) m = Some a →
  node_attrs (nodes (foldl out G ns)) m = Some a.
Proof.
  revert G. induction ns as [|n ns IH]; intros G Hm; simpl; [done|].
  apply IH. by apply node_attrs_add_edge.
Qed.

Lemma node_ids_foldl_out ns G m :
  m ∈ node_ids (foldl out G ns) → m ∈ node_ids G ∨ m = u ∨ m ∈ ns.
Proof.
  revert G. induction ns as [|n ns IH]; intros G; simpl; [by left|].
  intros [H|[->|H]]%IH.
  - apply elem_of_node_ids_add_edge in H as [?|[->| ->]];
      [by left | by right; left | right; right; left].
  - by right; left.
  - right; right. by right.
Qed.

Lemma NoDup_foldl_out ns G :
  NoDup (node_ids G) → NoDup (node_ids (foldl out G ns)).
Proof.
  revert G. induction ns as [|n ns IH]; intros G Hnd; simpl; [done|].
  apply IH. by apply NoDup_add_edge.
Qed.
End edges_from.

Lemma attach_orphans_cons G n ns :
  attach_orphans G (n :: ns)
  = foldl (λ G' m, add_edge G' NO_VPC m) (add_node G NO_VPC sentinel_attrs) (n :: ns).
Proof. done. Qed.

Lemma is_unattached_true G n :
  is_unattached G n = Ok true
  ↔ in_degree G n = 0 ∧
    ∃ a l, node_attrs (nodes G) n = Some a ∧ label a = Some l ∧ l ∈ always_contained.
Proof.
  unfold is_unattached. destruct (Nat.eqb_spec (in_degree G n) 0) as [Hz|Hnz].
  - destruct (node_attrs (nodes G) n) as [a|]; [destruct (label a) as [l|] eqn:Hl|].
    + split.
      * intros [= Hb]. apply bool_decide_eq_true in Hb. split; [done|]. by exists a, l.
      * intros (_ & a' & l' & Ha & Hl' & Hin). simplify_eq. f_equal.
        by apply bool_decide_eq_true.
    + split; [done|]. intros (_ & a' & l' & Ha & Hl' & _). by simplify_eq.
    + split; [done|]. intros (_ & a' & l' & Ha & _). by simplify_eq.
  - split; [done | by intros [? _]].
Qed.

(** After the sentinel's edges are in, nothing qualifies as unattached. *)
Lemma unattached_after_attach G un :
  unattached_of G = Ok un → unattached_of (attach_orphans G un) = Ok [].
Proof.
  intros Hun. destruct un as [|n0 ns]; [done|].
  rewrite attach_orphans_cons. set (un := n0 :: ns) in *.
  set (G1 := add_node G NO_VPC sentinel_attrs).
  set (G' := foldl _ G1 un).
  destruct (filter_raising_Ok _ _ _ Hun) as [Hall Hin].
  apply filter_raising_none. intros n Hn.
  assert (node_attrs (nodes G') NO_VPC = Some sentinel_attrs) as Hsent.
  { apply node_attrs_foldl_out. unfold G1. by rewrite node_attrs_add_node_eq. }
  destruct (decide (n = NO_VPC)) as [->|Hne].
  { unfold is_unattached. rewrite Hsent. by destruct (_ =? _). }
  assert (n ∈ node_ids G) as HnG.
  { apply node_ids_foldl_out in Hn as [Hn|[?|Hn]]; [|done|by apply Hin in Hn as [? _]].
    unfold G1 in Hn. by apply elem_of_node_ids_add_node in Hn as [?|?]. }
  destruct (Hall n HnG) as [b Hb]. destruct b.
  - assert (0 < in_degree G' n) as Hpos.
    { apply (in_degree_pos _ NO_VPC), has_edge_foldl_out. right.
      split; [done|]. apply Hin. by split. }
    unfold is_unattached. destruct (Nat.eqb_spec (in_degree G' n) 0); [lia | done].
  - pose proof (in_degree_foldl_out_mono NO_VPC un G1 n) as Hmono.
    fold G' in Hmono. unfold G1 in Hmono at 1. rewrite in_degree_add_node in Hmono.
    unfold is_unattached in *.
    destruct (Nat.eqb_spec (in_degree G' n) 0) as [Hz|]; [|done].
    destruct (Nat.eqb_spec (in_degree G n) 0) as [|]; [|lia].
    destruct (node_attrs (nodes G) n) as [a|] eqn:Ha; [|done].
    assert (node_attrs (nodes G') n = Some a) as ->; [|done].
    apply node_attrs_foldl_out. unfold G1. by rewrite node_attrs_add_node_ne.
Qed.

Lemma build_Ok inv used G un :
  build inv = Ok (used, G, un)
  ↔ ∃ G0, build_graph inv = Ok (used, G0) ∧ unattached_of G0 = Ok un
          ∧ G = attach_orphans G0 un.
Proof.
  unfold build. split.
  - intros ([used' G0] & Hb & (un' & Hu & [= -> <- ->])%bind_Ok)%bind_Ok.
    by exists G0.
  - intros (G0 & -> & Hu & ->). simpl. by rewrite Hu.
Qed.

Lemma legend_after_attach inv used G un :
  unattached_of G = Ok un →
  legend_handles inv used (attach_orphans G un) = Ok (base_handles inv used).
Proof.
  intros Hun. unfold legend_handles. by rewrite (unattached_after_attach _ _ Hun).
Qed.

(** What [main] returns when the builder succeeds: one diagram per container,
    then the orphan diagram when something was unattached; every legend has
    the six base entries. *)
Lemma main_spec inv used G un :
  build inv = Ok (used, G, un) →
  main inv = Ok (map (vpc_diagram inv used) (vpcs inv)
                 ++ match un with [] => [] | _ :: _ => [orphan_diagram inv used] end).
Proof.
  intros Hb. unfold main. rewrite Hb. simpl.
  apply build_Ok in Hb as (G0 & _ & Hun & ->).
  pose proof (legend_after_attach inv used G0 un Hun) as Hleg.
  rewrite (for_each_total _ (λ acc v, acc ++ [vpc_diagram inv used v])).
  2:{ intros acc v _. unfold draw_vpc_topology. by rewrite Hleg. }
  simpl. unfold draw_vpc_topology. rewrite Hleg. simpl.
  assert (∀ acc, foldl (λ acc v, acc ++ [vpc_diagram inv used v]) acc (vpcs inv)
                 = acc ++ map (vpc_diagram inv used) (vpcs inv)) as ->.
  { induction (vpcs inv) as [|v vs IH]; intros acc; simpl.
    - by rewrite app_nil_r.
    - by rewrite IH, <- app_assoc. }
  simpl. destruct un; [by rewrite app_nil_r | done].
Qed.

(** ** Invariants of the construction *)

Lemma no_sentinel_add_node G n l c k :
  l ≠ "No VPC" → no_sentinel G → no_sentinel (add_node G n (mk_attrs l c k)).
Proof.
  intros Hl HG m a. destruct (decide (m = n)) as [->|Hne].
  - rewrite node_attrs_add_node_eq. intros [= <-]. simpl. congruence.
  - rewrite node_attrs_add_node_ne by done. apply HG.
Qed.

Lemma no_sentinel_add_edge G u v : no_sentinel G → no_sentinel (add_edge G u v).
Proof.
  intros HG m a [Hm|[_ ->]]%node_attrs_add_edge_inv; [by eapply HG | done].
Qed.

Lemma graph_inv_add_node G n l c k :
  l ≠ "No VPC" → graph_inv G → graph_inv (add_node G n (mk_attrs l c k)).
Proof.
  intros Hl [H1 H2]. split; [by apply NoDup_add_node | by apply no_sentinel_add_node].
Qed.

Lemma graph_inv_add_edge G u v : graph_inv G → graph_inv (add_edge G u v).
Proof.
  intros [H1 H2]. split; [by apply NoDup_add_edge | by apply no_sentinel_add_edge].
Qed.

Lemma graph_inv_empty : graph_inv empty_graph.
Proof. split; [constructor | done]. Qed.

Lemma graph_inv_add_vpc G v : graph_inv G → graph_inv (add_vpc G v).
Proof. intros HG. by apply graph_inv_add_node. Qed.

Lemma graph_inv_add_subnet G s G' :
  graph_inv G → add_subnet G s = Ok G' → graph_inv G'.
Proof.
  intros HG (t & _ & [= <-])%bind_Ok.
  by apply graph_inv_add_edge, graph_inv_add_node.
Qed.

Lemma graph_inv_add_db G db : graph_inv G → graph_inv (add_db G db).
Proof.
  intros HG. rewrite add_db_listed. apply foldl_invariant.
  - intros G' s _. apply graph_inv_add_edge.
  - by apply graph_inv_add_node.
Qed.

Lemma graph_inv_add_lb used G lb : graph_inv G → graph_inv (add_lb used G lb).
Proof.
  intros HG. unfold add_lb. case_decide; [|done].
  by apply graph_inv_add_edge, graph_inv_add_node.
Qed.

Lemma graph_inv_link_lb sid o G : graph_inv G → graph_inv (link_lb sid o G).
Proof.
  intros HG. unfold link_lb. destruct (truthy_opt o); [|done].
  apply graph_inv_add_edge. destruct (has_node _ _); [done|].
  by apply graph_inv_add_node.
Qed.

Lemma graph_inv_anchor_service to_vpc sid tg G :
  graph_inv G → graph_inv (anchor_service to_vpc sid tg G).
Proof.
  intros HG. unfold anchor_service. destruct (truthy tg); [|done].
  destruct (to_vpc !! tg); [|done]. by apply graph_inv_add_edge.
Qed.

Lemma graph_inv_add_binding to_vpc sid G lb G' :
  graph_inv G → add_binding to_vpc sid G lb = Ok G' → graph_inv G'.
Proof.
  intros HG (o & _ & [= <-])%bind_Ok.
  by apply graph_inv_anchor_service, graph_inv_link_lb.
Qed.

Lemma graph_inv_add_service to_vpc G svc G' :
  graph_inv G → add_service to_vpc G svc = Ok G' → graph_inv G'.
Proof.
  intros HG (c & _ & Hfor)%bind_Ok.
  eapply for_each_invariant; [| |exact Hfor].
  - intros s lb s' _. apply graph_inv_add_binding.
  - apply graph_inv_add_edge, graph_inv_add_node; [done|].
    by apply graph_inv_add_node.
Qed.

Lemma build_graph_Ok inv used G :
  build_graph inv = Ok (used, G)
  ↔ ∃ G2, used_lb_names inv = Ok used ∧
          for_each add_subnet (subs inv) (foldl add_vpc empty_graph (vpcs inv)) = Ok G2 ∧
          for_each (add_service (tg_to_vpc inv)) (ecs_services inv)
                   (foldl (add_lb used) (foldl add_db G2 (rds inv)) (lbs inv)) = Ok G.
Proof.
  unfold build_graph. split.
  - intros (used' & Hu & (G2 & H2 & (G5 & H5 & [= -> ->])%bind_Ok)%bind_Ok)%bind_Ok.
    by exists G2.
  - intros (G2 & -> & H2 & H5). simpl. rewrite H2. simpl. by rewrite H5.
Qed.

(** The graph before the final pass has distinct node ids and no node with
    the sentinel's label. *)
Lemma build_graph_inv inv used G : build_graph inv = Ok (used, G) → graph_inv G.
Proof.
  intros (G2 & _ & H2 & H5)%build_graph_Ok.
  eapply for_each_invariant; [| |exact H5].
  - intros s svc s' _. apply graph_inv_add_service.
  - apply foldl_invariant; [intros; by apply graph_inv_add_lb|].
    apply foldl_invariant; [intros; by apply graph_inv_add_db|].
    eapply for_each_invariant; [| |exact H2].
    + intros s sn s' _. apply graph_inv_add_subnet.
    + apply foldl_invariant; [intros; by apply graph_inv_add_vpc|].
      apply graph_inv_empty.
Qed.

Lemma NoDup_attach_orphans G un :
  NoDup (node_ids G) → NoDup (node_ids (attach_orphans G un)).
Proof.
  intros Hnd. destruct un as [|n ns]; [done|]. rewrite attach_orphans_cons.
  by apply NoDup_foldl_out, NoDup_add_node.
Qed.

(** ** The legend and the orphan partition *)

Lemma base_handles_no_unattached inv used k :
  patch "lightgray" "Unattached" k ∉ base_handles inv used.
Proof.
  unfold base_handles, patch. intros H.
  repeat (apply elem_of_cons in H as [[=]|H]). by inversion H.
Qed.

(** C2 (the code departs from the claim): whenever the builder succeeds,
    [main] draws its diagrams and every legend consists of the six base
    entries; no legend has an [Unattached] entry, whatever the number of
    unattached nodes found by the final pass, because the count is taken
    again on the graph after the sentinel's edges were added. *)
Theorem legend_never_shows_unattached (inv : inventory) (used : gset string)
    (G : DiGraph) (un : list string) :
  build inv = Ok (used, G, un) →
  ∃ ds, main inv = Ok ds ∧
        length ds = length (vpcs inv) + (match un with [] => 0 | _ :: _ => 1 end) ∧
        ∀ d, d ∈ ds →
             legend d = base_handles inv used ∧
             ∀ k, patch "lightgray" "Unattached" k ∉ legend d.
Proof.
  intros Hb. eexists. split; [by apply (main_spec _ _ _ _ Hb)|]. split.
  - rewrite length_app, length_map. by destruct un.
  - intros d Hd.
    assert (legend d = base_handles inv used) as Hleg.
    { apply elem_of_app in Hd as [Hd|Hd].
      - apply list_elem_of_fmap in Hd as (v & -> & _). done.
      - destruct un; [by inversion Hd|].
        apply list_elem_of_singleton in Hd as ->. done. }
    split; [done|]. intros k. rewrite Hleg. apply base_handles_no_unattached.
Qed.

Lemma legend_never_shows_unattached_witness :
  ∃ ds, main orphan_db_inventory = Ok ds ∧
        length ds = 0 + 1 ∧
        ∀ d, d ∈ ds →
             legend d = base_handles orphan_db_inventory ∅ ∧
             ∀ k, patch "lightgray" "Unattached" k ∉ legend d.
Proof.
  apply (legend_never_shows_unattached
           orphan_db_inventory ∅
           (attach_orphans (add_db empty_graph (DBInstance.mk "db-1" None)) ["db-1"])
           ["db-1"]).
  reflexivity.
Defined.

(** The run on [orphan_db_inventory]: one unattached node, one diagram, the
    orphan one, and six legend entries. *)
Example orphan_db_run :
  build orphan_db_inventory
  = Ok (∅,
        {| nodes := [("db-1", mk_attrs "RDS" "plum" 0); (NO_VPC, sentinel_attrs)];
           edges := [(NO_VPC, "db-1")] |},
        ["db-1"]) ∧
  main orphan_db_inventory
  = Ok [ {| file := "NO_VPC_topology.png";
            title := orphan_title;
            legend := [ ("skyblue", "VPCs (0)");
                        ("lightgreen", "Subnets (0)");
                        ("orange", "EC2 instances (0)");
                        ("plum", "RDS instances (1)");
                        ("lightslategray", "Load Balancers (0)");
                        ("gold", "ECS Services (0)") ] |} ].
Proof. by vm_compute. Qed.

(** ** Node ids *)

(** Ids of different synthetic families differ, whatever the names. *)
Lemma synthetic_ids_apart x y :
  lb_node_id x ≠ cluster_node_id y ∧ lb_node_id x ≠ service_node_id y ∧
  cluster_node_id x ≠ service_node_id y ∧
  lb_node_id x ≠ NO_VPC ∧ cluster_node_id x ≠ NO_VPC ∧ service_node_id x ≠ NO_VPC.
Proof. by split_and!. Qed.


Lemma foldl_reaches {A S} (P : S → Prop) (f : S → A → S) xs st x :
  x ∈ xs → (∀ s y, P s → P (f s y)) → (∀ s, P (f s x)) → P (foldl f st xs).
Proof.
  intros Hx Hstable Hx'. revert st.
  induction xs as [|y xs IH]; intros st; [by inversion Hx|]. simpl.
  apply elem_of_cons in Hx as [->|Hx]; [|by apply IH].
  apply foldl_invariant; [by intros; apply Hstable | apply Hx'].
Qed.

Lemma for_each_reaches {A S} (P : S → Prop) (body : S → A → result S) xs st st' x :
  x ∈ xs →
  (∀ s y s', P s → body s y = Ok s' → P s') →
  (∀ s s', body s x = Ok s' → P s') →
  for_each body xs st = Ok st' → P st'.
Proof.
  intros Hx Hstable Hx'. revert st.
  induction xs as [|y xs IH]; intros st; [by inversion Hx|]. simpl.
  intros (s1 & H1 & H2)%bind_Ok.
  apply elem_of_cons in Hx as [->|Hx]; [|by eapply IH].
  eapply for_each_invariant; [| |exact H2].
  - intros s z s' _. apply Hstable.
  - by eapply Hx'.
Qed.

Section node_stays.
Variable n : string.

Let here (G : DiGraph) : Prop := n ∈ node_ids G.

Lemma here_add_node G m a : here G → here (add_node G m a).
Proof. intros H. apply elem_of_node_ids_add_node. by left. Qed.

Lemma here_add_edge G u v : here G → here (add_edge G u v).
Proof. intros H. apply elem_of_node_ids_add_edge. by left. Qed.

Lemma here_add_vpc G v : here G → here (add_vpc G v).
Proof. apply here_add_node. Qed.

Lemma here_add_subnet G s G' : here G → add_subnet G s = Ok G' → here G'.
Proof.
  intros HG (t & _ & [= <-])%bind_Ok. by apply here_add_edge, here_add_node.
Qed.

Lemma here_add_db G db : here G → here (add_db G db).
Proof.
  intros HG. rewrite add_db_listed. apply foldl_invariant.
  - intros G' s _. apply here_add_edge.
  - by apply here_add_node.
Qed.

Lemma here_add_lb used G lb : here G → here (add_lb used G lb).
Proof.
  intros HG. unfold add_lb. case_decide; [|done].
  by apply here_add_edge, here_add_node.
Qed.

Lemma here_link_lb sid o G : here G → here (link_lb sid o G).
Proof.
  intros HG. unfold link_lb. destruct (truthy_opt o); [|done].
  apply here_add_edge. destruct (has_node _ _); [done|]. by apply here_add_node.
Qed.

Lemma here_anchor_service to_vpc sid tg G :
  here G → here (anchor_service to_vpc sid tg G).
Proof.
  intros HG. unfold anchor_service. destruct (truthy tg); [|done].
  destruct (to_vpc !! tg); [|done]. by apply here_add_edge.
Qed.

Lemma here_add_binding to_vpc sid G lb G' :
  here G → add_binding to_vpc sid G lb = Ok G' → here G'.
Proof.
  intros HG (o & _ & [= <-])%bind_Ok.
  by apply here_anchor_service, here_link_lb.
Qed.

Lemma here_add_service to_vpc G svc G' :
  here G → add_service to_vpc G svc = Ok G' → here G'.
Proof.
  intros HG (c & _ & Hfor)%bind_Ok.
  eapply for_each_invariant; [| |exact Hfor].
  - intros s lb s' _. apply here_add_binding.
  - by apply here_add_edge, here_add_node, here_add_node.
Qed.

Lemma here_attach_orphans G un : here G → here (attach_orphans G un).
Proof.
  intros HG. destruct un as [|m ms]; [done|]. rewrite attach_orphans_cons.
  apply foldl_invariant.
  - intros G' k _. apply here_add_edge.
  - by apply here_add_node.
Qed.

Lemma here_subnets G ss G' : here G → for_each add_subnet ss G = Ok G' → here G'.
Proof.
  intros HG. apply for_each_invariant; [|done]. intros s x s' _. apply here_add_subnet.
Qed.

Lemma here_dbs G dbs : here G → here (foldl add_db G dbs).
Proof. intros HG. apply foldl_invariant; [intros; by apply here_add_db | done]. Qed.

Lemma here_lbs used G bs : here G → here (foldl (add_lb used) G bs).
Proof. intros HG. apply foldl_invariant; [intros; by apply here_add_lb | done]. Qed.

Lemma here_bindings to_vpc sid G bs G' :
  here G → for_each (add_binding to_vpc sid) bs G = Ok G' → here G'.
Proof.
  intros HG. apply for_each_invariant; [|done]. intros s x s' _. apply here_add_binding.
Qed.

Lemma here_services to_vpc G svcs G' :
  here G → for_each (add_service to_vpc) svcs G = Ok G' → here G'.
Proof.
  intros HG. apply for_each_invariant; [|done]. intros s x s' _. apply here_add_service.
Qed.
End node_stays.

Lemma here_add_db_self G db :
  DBInstance.DBInstanceIdentifier db ∈ node_ids (add_db G db).
Proof.
  rewrite add_db_listed. apply foldl_invariant.
  - intros G' s _. apply here_add_edge.
  - apply elem_of_node_ids_add_node. by right.
Qed.

Lemma add_node_here G n a : n ∈ node_ids (add_node G n a).
Proof. apply elem_of_node_ids_add_node. by right. Qed.

Lemma add_edge_here_r G u v : v ∈ node_ids (add_edge G u v).
Proof. apply elem_of_node_ids_add_edge. right. by right. Qed.

(** An id that the service loop resolves for a binding is a node after the
    binding was processed. *)
Lemma add_binding_lb_node to_vpc sid G lb G' name :
  resolve_lb_name lb = Ok (Some name) → name ≠ "" →
  add_binding to_vpc sid G lb = Ok G' →
  lb_node_id name ∈ node_ids G'.
Proof.
  intros Hres Hne%truthy_true. unfold add_binding. rewrite Hres. simpl.
  intros [= <-]. apply here_anchor_service. unfold link_lb. simpl. rewrite Hne.
  apply add_edge_here_r.
Qed.

(** Every id a step adds is a node of the graph the builder returns. *)
Lemma adds_are_nodes inv used G un st n :
  build inv = Ok (used, G, un) → adds inv used un st n → n ∈ node_ids G.
Proof.
  intros (G0 & (G2 & _ & H2 & H5)%build_graph_Ok & _ & ->)%build_Ok Hadd.
  set (P := λ G : DiGraph, n ∈ node_ids G).
  destruct st; simpl in Hadd.
  - destruct Hadd as (v & Hv & Hn). apply here_attach_orphans.
    eapply here_services; [|exact H5]. apply here_lbs, here_dbs.
    eapply here_subnets; [|exact H2].
    apply (foldl_reaches P _ _ _ v Hv); unfold P.
    + intros. by apply here_add_vpc.
    + intros s. rewrite Hn. apply add_node_here.
  - destruct Hadd as (s & Hs & Hn). apply here_attach_orphans.
    eapply here_services; [|exact H5]. apply here_lbs, here_dbs.
    eapply (for_each_reaches P _ _ _ _ s Hs); [| |exact H2]; unfold P.
    + intros ? ? ?. apply here_add_subnet.
    + intros G G' (t & _ & HG')%bind_Ok. injection HG' as <-. rewrite Hn.
      apply add_edge_here_r.
  - destruct Hadd as (db & Hdb & Hn). apply here_attach_orphans.
    eapply here_services; [|exact H5]. apply here_lbs.
    apply (foldl_reaches P _ _ _ db Hdb); unfold P.
    + intros. by apply here_add_db.
    + intros G. rewrite Hn. apply here_add_db_self.
  - apply here_attach_orphans. destruct Hadd as [(lb & Hlb & Hused & Hn)|Hadd].
    + eapply here_services; [|exact H5].
      apply (foldl_reaches P _ _ _ lb Hlb); unfold P.
      * intros. by apply here_add_lb.
      * intros G. unfold add_lb. rewrite decide_True by done. rewrite Hn.
        apply add_edge_here_r.
    + destruct Hadd as (svc & lb & name & Hsvc & Hlb & Hres & Hne & Hn).
      eapply (for_each_reaches P _ _ _ _ svc Hsvc); [| |exact H5]; unfold P.
      * intros ? ? ?. apply here_add_service.
      * intros G G' (c & _ & Hfor)%bind_Ok.
        eapply (for_each_reaches P _ _ _ _ lb Hlb); [| |exact Hfor]; unfold P.
        -- intros ? ? ?. apply here_add_binding.
        -- intros G1 G1'. rewrite Hn. by apply add_binding_lb_node.
  - destruct Hadd as (svc & c & Hsvc & Hc & Hn). apply here_attach_orphans.
    eapply (for_each_reaches P _ _ _ _ svc Hsvc); [| |exact H5]; unfold P.
    + intros ? ? ?. apply here_add_service.
    + intros G G'. unfold add_service. rewrite Hc. simpl. intros Hfor.
      eapply here_bindings; [|exact Hfor]. rewrite Hn.
      apply here_add_edge, here_add_node, add_node_here.
  - destruct Hadd as (svc & Hsvc & Hn). apply here_attach_orphans.
    eapply (for_each_reaches P _ _ _ _ svc Hsvc); [| |exact H5]; unfold P.
    + intros ? ? ?. apply here_add_service.
    + intros G G' (c & _ & Hfor)%bind_Ok.
      eapply here_bindings; [|exact Hfor]. rewrite Hn. apply add_edge_here_r.
  - destruct Hadd as [Hne Hn]. destruct un as [|m ms]; [done|].
    rewrite attach_orphans_cons. apply (foldl_invariant P); unfold P.
    + intros ? ? _. apply here_add_edge.
    + rewrite Hn. apply add_node_here.
Qed.

Lemma disjointb_spec xs ys x :
  disjointb xs ys = true → x ∈ xs → x ∈ ys → False.
Proof.
  unfold disjointb. rewrite forallb_forall. intros Hall Hx Hy.
  apply list_elem_of_In, Hall, negb_true_iff in Hx.
  assert (existsb (String.eqb x) ys = true) as He; [|congruence].
  apply existsb_exists. exists x. split; [by apply list_elem_of_In|].
  apply String.eqb_refl.
Qed.

Lemma native_ids_apart_spec inv :
  native_ids_apart inv = true →
  (∀ n, n ∈ vpc_ids inv → n ∈ subnet_ids inv → False) ∧
  (∀ n, n ∈ vpc_ids inv → n ∈ db_ids inv → False) ∧
  (∀ n, n ∈ subnet_ids inv → n ∈ db_ids inv → False) ∧
  (∀ n, n ∈ native_ids inv → contains_char ":" n = false ∧ n ≠ NO_VPC).
Proof.
  unfold native_ids_apart. rewrite !andb_true_iff.
  intros [[[H1 H2] H3] H4]. split_and!.
  - intros n. by apply disjointb_spec.
  - intros n. by apply disjointb_spec.
  - intros n. by apply disjointb_spec.
  - intros n Hn. rewrite forallb_forall in H4.
    apply list_elem_of_In, H4, andb_true_iff in Hn as [Hc He].
    apply negb_true_iff in Hc, He. split; [done|]. by apply String.eqb_neq.
Qed.

(** A step that adds a native id, and a step that adds a synthetic one. *)
Lemma adds_native inv used un st n :
  adds inv used un st n →
  match st with
  | Containers => n ∈ vpc_ids inv
  | Subnets => n ∈ subnet_ids inv
  | Databases => n ∈ db_ids inv
  | LoadBalancers | Clusters | Services => contains_char ":" n = true
  | Sentinel => n = NO_VPC
  end.
Proof.
  destruct st; simpl.
  - intros (v & Hv & ->). by apply list_elem_of_fmap_2.
  - intros (s & Hs & ->). by apply list_elem_of_fmap_2.
  - intros (db & Hdb & ->). by apply list_elem_of_fmap_2.
  - intros [(lb & _ & _ & ->)|(svc & lb & name & _ & _ & _ & _ & ->)]; done.
  - by intros (svc & c & _ & _ & ->).
  - by intros (svc & _ & ->).
  - by intros [_ ->].
Qed.

Lemma synthetic_step_ids inv used un st n :
  adds inv used un st n →
  match st with
  | LoadBalancers => ∃ x, n = lb_node_id x
  | Clusters => ∃ x, n = cluster_node_id x
  | Services => ∃ x, n = service_node_id x
  | _ => True
  end.
Proof.
  destruct st; simpl; try done.
  - intros [(lb & _ & _ & ->)|(svc & lb & name & _ & _ & _ & _ & ->)]; by eexists.
  - intros (svc & c & _ & _ & ->). by eexists.
  - intros (svc & _ & ->). by eexists.
Qed.

(** C7, at an input where it fails: a container and a database have the
    same id; the container step and the database step both add it, and the
    graph holds one node for the two resources, with the database's
    attributes. *)
Lemma container_and_database_share_id :
  build shared_id_inventory
  = Ok (∅,
        {| nodes := [("vpc-0a1b", mk_attrs "RDS" "plum" 0); (NO_VPC, sentinel_attrs)];
           edges := [(NO_VPC, "vpc-0a1b")] |},
        ["vpc-0a1b"]) ∧
  ¬ collision_free shared_id_inventory ∅ ["vpc-0a1b"].
Proof.
  split; [by vm_compute|]. intros Hfree.
  assert (Containers = Databases) as Heq; [|done].
  apply (Hfree _ _ "vpc-0a1b"); simpl.
  - eexists. split; [left | done].
  - eexists. split; [left | done].
Qed.

(** C7, as the code has it: the node ids of the graph the builder returns are
    pairwise distinct and every id a step adds is among them; when no id is
    shared by two of the container, subnet and database collections and none
    of these ids has a ':' or is [NO_VPC], no two construction steps add the
    same id. *)
Theorem node_ids_unique_when_natives_apart (inv : inventory) (used : gset string)
    (G : DiGraph) (un : list string) :
  build inv = Ok (used, G, un) →
  native_ids_apart inv = true →
  NoDup (node_ids G) ∧
  (∀ st n, adds inv used un st n → n ∈ node_ids G) ∧
  collision_free inv used un.
Proof.
  intros Hb Hapart. split_and!.
  - apply build_Ok in Hb as (G0 & HG0 & _ & ->).
    apply NoDup_attach_orphans. by destruct (build_graph_inv _ _ _ HG0).
  - intros st n. by apply adds_are_nodes.
  - destruct (native_ids_apart_spec _ Hapart) as (Hvs & Hvd & Hsd & Hnat).
    assert (∀ n, n ∈ vpc_ids inv → contains_char ":" n = false ∧ n ≠ NO_VPC) as Hv.
    { intros n Hn. apply Hnat. unfold native_ids. rewrite !elem_of_app. by left. }
    assert (∀ n, n ∈ subnet_ids inv → contains_char ":" n = false ∧ n ≠ NO_VPC) as Hs.
    { intros n Hn. apply Hnat. unfold native_ids. rewrite !elem_of_app. right. by left. }
    assert (∀ n, n ∈ db_ids inv → contains_char ":" n = false ∧ n ≠ NO_VPC) as Hd.
    { intros n Hn. apply Hnat. unfold native_ids. rewrite !elem_of_app. right. by right. }
    intros st1 st2 n H1 H2.
    pose proof (adds_native _ _ _ _ _ H1) as N1.
    pose proof (adds_native _ _ _ _ _ H2) as N2.
    pose proof (synthetic_step_ids _ _ _ _ _ H1) as S1.
    pose proof (synthetic_step_ids _ _ _ _ _ H2) as S2.
    destruct st1, st2; try done; exfalso; simpl in N1, N2, S1, S2;
      first
        [ by eauto
        | by match goal with
             | N : _ ∈ vpc_ids _ |- _ => apply Hv in N as [? ?]
             | N : _ ∈ subnet_ids _ |- _ => apply Hs in N as [? ?]
             | N : _ ∈ db_ids _ |- _ => apply Hd in N as [? ?]
             end; congruence
        | by repeat match goal with
                    | S : ∃ _, _ |- _ => destruct S as [? S]
                    end;
             unfold lb_node_id, cluster_node_id, service_node_id, NO_VPC in *;
             simplify_eq ].
Qed.

Lemma node_ids_unique_when_natives_apart_witness :
  NoDup (node_ids small_graph) ∧
  (∀ st n, adds small_inventory ∅ [] st n → n ∈ node_ids small_graph) ∧
  collision_free small_inventory ∅ [].
Proof.
  apply (node_ids_unique_when_natives_apart small_inventory ∅ small_graph []).
  - by vm_compute.
  - reflexivity.
Defined.

(** ** Load balancers and their nodes *)

(** A load balancer of the collection whose name is in the used-name set has
    its node in the graph the builder returns. *)
Lemma used_load_balancer_has_node inv used G un lb :
  build inv = Ok (used, G, un) →
  lb ∈ lbs inv →
  LoadBalancer.LoadBalancerName lb ∈ used →
  has_node G (lb_node_id (LoadBalancer.LoadBalancerName lb)) = true.
Proof.
  intros Hb Hlb Hused. apply has_node_true.
  apply (adds_are_nodes _ _ _ _ LoadBalancers _ Hb). left. by exists lb.
Qed.

(** C5 (the code departs from the claim): a load balancer that a binding
    names directly, without a target-group ARN, is in the used-name set, yet
    the graph has no node for it; and a load balancer [a] that no binding
    names by the rule of the used-name scan gets a node from the service
    loop, which reads the ARN [a/b:c] differently. *)
Theorem named_load_balancer_without_node :
  (∃ G un, build classic_lb_inventory = Ok ({["classic-lb"]}, G, un)
           ∧ node_ids G = ["CLUSTER:prod"; "SVC:web"; "NO_VPC"]
           ∧ has_node G (lb_node_id "classic-lb") = false) ∧
  (∃ G un, build odd_arn_inventory = Ok (∅, G, un)
           ∧ has_node G (lb_node_id "a") = true).
Proof.
  split.
  - do 2 eexists. split_and!; [by vm_compute | done..].
  - do 2 eexists. split_and!; [by vm_compute | done..].
Qed.

(** * Further properties of the construction *)

(** ** Induction over the construction steps *)

Section construction.
Variable inv : inventory.
Variable P : DiGraph → Prop.
Hypothesis P_node : ∀ G n a, step_attrs a → P G → P (add_node G n a).
Hypothesis P_edge : ∀ G u v, step_target inv v → P G → P (add_edge G u v).

Lemma P_add_vpc G v : P G → P (add_vpc G v).
Proof. intros HG. apply P_node; [constructor | done]. Qed.

Lemma P_add_subnet G s G' : s ∈ subs inv → P G → add_subnet G s = Ok G' → P G'.
Proof.
  intros Hs HG (t & _ & HG')%bind_Ok. injection HG' as <-.
  apply P_edge.
  - left. by apply list_elem_of_fmap_2.
  - apply P_node; [constructor | done].
Qed.

Lemma P_add_db G db : db ∈ rds inv → P G → P (add_db G db).
Proof.
  intros Hdb HG. rewrite add_db_listed. apply foldl_invariant.
  - intros G' s _. apply P_edge. right. left. by apply list_elem_of_fmap_2.
  - apply P_node; [constructor | done].
Qed.

Lemma P_add_lb used G lb : P G → P (add_lb used G lb).
Proof.
  intros HG. unfold add_lb. case_decide; [|done].
  apply P_edge; [right; right; left; by eexists|].
  apply P_node; [constructor | done].
Qed.

Lemma P_link_lb sid o G : P G → P (link_lb sid o G).
Proof.
  intros HG. unfold link_lb. destruct (truthy_opt o); [|done].
  apply P_edge; [right; right; left; by eexists|].
  destruct (has_node _ _); [done|]. apply P_node; [constructor | done].
Qed.

Lemma P_anchor_service to_vpc name tg G :
  P G → P (anchor_service to_vpc (service_node_id name) tg G).
Proof.
  intros HG. unfold anchor_service. destruct (truthy tg); [|done].
  destruct (to_vpc !! tg); [|done].
  apply P_edge; [right; right; right; by eexists | done].
Qed.

Lemma P_add_binding to_vpc name G lb G' :
  P G → add_binding to_vpc (service_node_id name) G lb = Ok G' → P G'.
Proof.
  intros HG (o & _ & HG')%bind_Ok. injection HG' as <-.
  by apply P_anchor_service, P_link_lb.
Qed.

Lemma P_add_service to_vpc G svc G' : P G → add_service to_vpc G svc = Ok G' → P G'.
Proof.
  intros HG (c & _ & Hfor)%bind_Ok.
  eapply (for_each_invariant P); [| |exact Hfor].
  - intros s lb s' _. apply P_add_binding.
  - apply P_edge; [right; right; right; by eexists|].
    apply P_node; [constructor|]. apply P_node; [constructor | done].
Qed.

(** What holds of the empty graph and is kept by every [add_node] and
    [add_edge] of lines 57-103 holds of the graph they build. *)
Lemma build_graph_ind used G : P empty_graph → build_graph inv = Ok (used, G) → P G.
Proof.
  intros H0 (G2 & _ & H2 & H5)%build_graph_Ok.
  eapply (for_each_invariant P); [| |exact H5].
  - intros s svc s' _. apply P_add_service.
  - apply (foldl_invariant P); [intros; by apply P_add_lb|].
    apply (foldl_invariant P); [intros; by apply P_add_db|].
    eapply (for_each_invariant P); [| |exact H2].
    + intros s sn s'. apply P_add_subnet.
    + apply (foldl_invariant P); [intros; by apply P_add_vpc | done].
Qed.
End construction.

(** The same for the graph [main] draws from, final pass included. *)
Lemma build_ind (P : DiGraph → Prop) inv used G un :
  P empty_graph →
  (∀ G n a, step_attrs a → P G → P (add_node G n a)) →
  (∀ G u v, P G → P (add_edge G u v)) →
  build inv = Ok (used, G, un) → P G.
Proof.
  intros H0 Hnode Hedge (G0 & HG0 & _ & ->)%build_Ok.
  assert (P G0) as HP0.
  { apply (build_graph_ind inv P) with (used := used); [done| |done..].
    intros. by apply Hedge. }
  destruct un as [|n ns]; [done|]. rewrite attach_orphans_cons.
  apply (foldl_invariant P); [intros; by apply Hedge|].
  apply Hnode; [constructor | done].
Qed.

(** ** Shape of the graph *)

Lemma step_attrs_full b a : step_attrs a → update_attrs b a = a.
Proof. by intros []. Qed.

Lemma edges_closed_add_node G n a : edges_closed G → edges_closed (add_node G n a).
Proof.
  intros HG u v Huv. destruct (HG u v Huv) as [Hu Hv].
  rewrite !elem_of_node_ids_add_node. by split; left.
Qed.

Lemma edges_closed_add_edge G u v : edges_closed G → edges_closed (add_edge G u v).
Proof.
  intros HG x y [Hxy|Hxy]%elem_of_edges_add_edge; rewrite !elem_of_node_ids_add_edge.
  - destruct (HG x y Hxy). by split; left.
  - injection Hxy as -> ->. split; right; [by left | by right].
Qed.

Lemma NoDup_edges_add_edge G u v : NoDup (edges G) → NoDup (edges (add_edge G u v)).
Proof.
  intros Hnd. unfold add_edge. simpl. destruct (has_edge G u v) eqn:He; [done|].
  apply NoDup_app. split_and!; [done| |apply NoDup_singleton].
  intros e He' Hin. apply list_elem_of_singleton in Hin. subst e.
  apply has_edge_true in He'. congruence.
Qed.

Lemma attrs_by_kind_add_node G n a :
  step_attrs a → attrs_by_kind G → attrs_by_kind (add_node G n a).
Proof.
  intros Ha HG m b. destruct (decide (m = n)) as [->|Hne].
  - rewrite node_attrs_add_node_eq, step_attrs_full by done. intros [= <-]. by right.
  - rewrite node_attrs_add_node_ne by done. apply HG.
Qed.

Lemma attrs_by_kind_add_edge G u v : attrs_by_kind G → attrs_by_kind (add_edge G u v).
Proof.
  intros HG m b [Hm|[_ ->]]%node_attrs_add_edge_inv; [by eapply HG | by left].
Qed.

Lemma in_degree_predecessors G n :
  NoDup (edges G) → in_degree G n = size (predecessors G n).
Proof.
  intros Hnd. unfold in_degree, predecessors.
  rewrite size_list_to_set, length_fmap; [done|].
  apply NoDup_fmap_2_strong; [|by apply NoDup_filter].
  intros [x1 y1] [x2 y2] [H1 _]%list_elem_of_filter [H2 _]%list_elem_of_filter.
  simpl in *. congruence.
Qed.

Lemma elem_of_predecessors G n u : u ∈ predecessors G n ↔ (u, n) ∈ edges G.
Proof.
  unfold predecessors. rewrite elem_of_list_to_set, list_elem_of_fmap. split.
  - intros ([x y] & -> & [Hy Hin]%list_elem_of_filter). simpl in *. by subst.
  - intros Hin. exists (u, n). split; [done|]. by apply list_elem_of_filter.
Qed.

(** X1: in the graph [main] draws from, both ends of every edge are nodes, no
    edge is stored twice, and the in-degree of a node is the number of
    different nodes with an edge to it. *)
Theorem built_graph_edges (inv : inventory) (used : gset string) (G : DiGraph)
    (un : list string) :
  build inv = Ok (used, G, un) →
  edges_closed G ∧ NoDup (edges G) ∧
  ∀ n, in_degree G n = size (predecessors G n)
       ∧ ∀ u, u ∈ predecessors G n ↔ has_edge G u n = true.
Proof.
  intros Hb.
  assert (NoDup (edges G)) as Hnd.
  { apply (build_ind (λ G, NoDup (edges G)) _ _ _ _ ltac:(constructor)) in Hb;
      [done| |]; intros; [done | by apply NoDup_edges_add_edge]. }
  split_and!; [|done|].
  - apply (build_ind edges_closed) in Hb; [done| | |].
    + by intros u v Huv; inversion Huv.
    + intros. by apply edges_closed_add_node.
    + intros. by apply edges_closed_add_edge.
  - intros n. split; [by apply in_degree_predecessors|].
    intros u. by rewrite elem_of_predecessors, has_edge_true.
Qed.

Lemma built_graph_edges_witness :
  edges_closed small_graph ∧ NoDup (edges small_graph) ∧
  ∀ n, in_degree small_graph n = size (predecessors small_graph n)
       ∧ ∀ u, u ∈ predecessors small_graph n ↔ has_edge small_graph u n = true.
Proof.
  apply (built_graph_edges small_inventory ∅ small_graph []). by vm_compute.
Defined.

Lemma build_graph_attrs_by_kind inv used G :
  build_graph inv = Ok (used, G) → attrs_by_kind G.
Proof.
  apply (build_graph_ind inv attrs_by_kind).
  - intros. by apply attrs_by_kind_add_node.
  - intros. by apply attrs_by_kind_add_edge.
  - by intros n a.
Qed.

Lemma always_contained_kinds a l :
  step_attrs a → label a = Some l → l ∈ always_contained →
  a = mk_attrs "RDS" "plum" 0 ∨ a = mk_attrs "ECS Cluster" "lightyellow" 3.
Proof.
  unfold always_contained. intros Ha Hl Hin.
  destruct Ha; simpl in Hl; injection Hl as <-;
    repeat (apply elem_of_cons in Hin as [Hin|Hin]; [by (discriminate || eauto)|]);
    by inversion Hin.
Qed.

(** X2: every node of the graph [main] draws from has either no attributes
    at all or the label, colour and layer of exactly one kind of node; and
    every unattached node is a database or a cluster: no node is ever
    labelled [EC2] or [ECS Task]. *)
Theorem node_attributes_by_kind (inv : inventory) (used : gset string) (G : DiGraph)
    (un : list string) :
  build inv = Ok (used, G, un) →
  attrs_by_kind G ∧
  ∃ G0, build_graph inv = Ok (used, G0) ∧
        ∀ n, n ∈ un →
             node_attrs (nodes G0) n = Some (mk_attrs "RDS" "plum" 0)
             ∨ node_attrs (nodes G0) n = Some (mk_attrs "ECS Cluster" "lightyellow" 3).
Proof.
  intros Hb. split.
  - apply (build_ind attrs_by_kind) in Hb; [done| | |].
    + by intros n a.
    + intros. by apply attrs_by_kind_add_node.
    + intros. by apply attrs_by_kind_add_edge.
  - apply build_Ok in Hb as (G0 & HG0 & Hun & _). exists G0. split; [done|].
    intros n Hn. apply (filter_raising_Ok _ _ _ Hun) in Hn as [_ Hn].
    apply is_unattached_true in Hn as (_ & a & l & Ha & Hl & Hin).
    rewrite Ha.
    destruct (build_graph_attrs_by_kind _ _ _ HG0 n a Ha) as [->|Hk]; [done|].
    destruct (always_contained_kinds a l Hk Hl Hin) as [-> | ->]; [by left | by right].
Qed.

Lemma node_attributes_by_kind_witness :
  attrs_by_kind
    (attach_orphans (add_db empty_graph (DBInstance.mk "db-1" None)) ["db-1"]).
Proof.
  apply (node_attributes_by_kind
           orphan_db_inventory ∅
           (attach_orphans (add_db empty_graph (DBInstance.mk "db-1" None)) ["db-1"])
           ["db-1"]).
  reflexivity.
Defined.

(** ** The used names and the exceptions of the builder *)

Lemma truthy_opt_true' o : truthy_opt o = true → ∃ s, o = Some s ∧ s ≠ "".
Proof.
  destruct o as [s|]; simpl; [|done]. intros Hs%truthy_true. by exists s.
Qed.

Lemma used_name_binding_scanned used lb :
  used_name_binding used lb
  = Ok (match scanned_name lb with Some name => {[name]} ∪ used | None => used end).
Proof.
  unfold used_name_binding, scanned_name.
  destruct (truthy_opt (Binding.loadBalancerName lb)) eqn:Hn.
  { apply truthy_opt_true' in Hn as (name & -> & _). done. }
  destruct (truthy _); [|done].
  rewrite getitem_last. pose proof (split_length ":" (default "" (Binding.targetGroupArn lb))).
  destruct (last _) as [tail|] eqn:Hlast.
  - cbn -[Nat.leb]. destruct (2 <=? length (split "/" tail)) eqn:Hlen; [|done].
    apply Nat.leb_le, getitem_second_last in Hlen as (name & Hname & ->).
    by rewrite Hname.
  - apply last_None in Hlast. rewrite Hlast in H. simpl in H. lia.
Qed.

(** Equality of finite sets built from unions, by their members. *)
Ltac set_ext :=
  apply set_eq; intros ?;
  rewrite ?elem_of_union, ?elem_of_list_to_set, ?elem_of_app, ?elem_of_cons,
    ?elem_of_union, ?elem_of_list_to_set, ?elem_of_singleton, ?elem_of_nil,
    ?elem_of_empty;
  tauto.

Lemma used_name_bindings_scanned bs used :
  for_each used_name_binding bs used
  = Ok (list_to_set (omap scanned_name bs) ∪ used).
Proof.
  revert used. induction bs as [|b bs IH]; intros used; simpl.
  - f_equal. set_ext.
  - rewrite used_name_binding_scanned. simpl. rewrite IH. f_equal.
    destruct (scanned_name b); set_ext.
Qed.

Lemma used_name_service_scanned used svc :
  used_name_service used svc
  = Ok (list_to_set (omap scanned_name (default [] (Service.loadBalancers svc))) ∪ used).
Proof. apply used_name_bindings_scanned. Qed.

Lemma used_lb_names_scanned inv :
  used_lb_names inv = Ok (list_to_set (omap scanned_name (all_bindings inv))).
Proof.
  unfold used_lb_names, all_bindings.
  assert (∀ svcs used,
            for_each used_name_service svcs used
            = Ok (list_to_set
                    (omap scanned_name (svc ← svcs; default [] (Service.loadBalancers svc)))
                  ∪ used)) as Hloop.
  { induction svcs as [|svc svcs IH]; intros used.
    - simpl. f_equal. set_ext.
    - cbn [for_each]. rewrite used_name_service_scanned. simpl.
      rewrite IH. f_equal. rewrite omap_app. set_ext. }
  rewrite Hloop. f_equal. set_ext.
Qed.

(** X3: the used-name scan never raises, and a name is in the set it returns
    exactly when some binding of some service contributes it: its direct
    name when that is non-empty, otherwise the second-to-last '/' segment of
    the last ':' component of its ARN when there are at least two segments. *)
Theorem used_names_are_scanned_names (inv : inventory) :
  ∃ used, used_lb_names inv = Ok used ∧
          ∀ name, name ∈ used ↔
                  ∃ svc lb, svc ∈ ecs_services inv
                            ∧ lb ∈ default [] (Service.loadBalancers svc)
                            ∧ scanned_name lb = Some name.
Proof.
  eexists. split; [apply used_lb_names_scanned|]. intros name.
  rewrite elem_of_list_to_set, list_elem_of_omap. unfold all_bindings. split.
  - intros (lb & (svc & Hlb & Hsvc)%list_elem_of_bind & Hname). by exists svc, lb.
  - intros (svc & lb & Hsvc & Hlb & Hname). exists lb. split; [|done].
    apply list_elem_of_bind. by exists svc.
Qed.

Lemma contains_char_split sep s :
  contains_char sep s = true ↔ 2 ≤ length (split sep s).
Proof.
  induction s as [|c s IH]; simpl.
  - split; [done | lia].
  - pose proof (split_length sep s) as Hlen. destruct (Ascii.eqb c sep); simpl.
    + split; [lia | done].
    + rewrite IH. destruct (split sep s); simpl in *; [lia | done].
Qed.

Lemma resolve_lb_name_raising lb :
  if raising_binding lb then resolve_lb_name lb = Raise IndexError
  else ∃ o, resolve_lb_name lb = Ok o.
Proof.
  unfold raising_binding, resolve_lb_name.
  destruct (truthy _); simpl; [|by eexists].
  destruct (truthy_opt _); simpl; [by eexists|].
  destruct (contains_char "/" _) eqn:Hc; simpl.
  - apply contains_char_split, getitem_second_last in Hc as (name & _ & ->).
    by eexists.
  - rewrite getitem_second_last_short; [done|].
    destruct (decide (2 ≤ length (split "/" (default "" (Binding.targetGroupArn lb)))))
      as [Hlen|Hlen]; [|lia].
    apply contains_char_split in Hlen. congruence.
Qed.

Lemma add_subnet_Ok G s :
  Subnet.Tags s ≠ Some [] → ∃ G', add_subnet G s = Ok G'.
Proof.
  intros Htags. unfold add_subnet.
  destruct (Subnet.Tags s) as [[|t ts]|]; [done| |];
    cbn -[getitem]; rewrite getitem_0_cons; by eexists.
Qed.

Lemma add_service_Ok to_vpc G svc :
  (∀ lb, lb ∈ default [] (Service.loadBalancers svc) → raising_binding lb = false) →
  ∃ G', add_service to_vpc G svc = Ok G'.
Proof.
  intros Hsafe. unfold add_service.
  destruct (split_last_Ok "/" (Service.clusterArn svc)) as [c ->]. simpl.
  apply for_each_Ok. intros G1 lb Hlb. unfold add_binding.
  pose proof (resolve_lb_name_raising lb) as Hres. rewrite (Hsafe lb Hlb) in Hres.
  destruct Hres as [o ->]. by eexists.
Qed.

Lemma index_safe_true inv :
  index_safe inv = true ↔
  (∀ s, s ∈ subs inv → Subnet.Tags s ≠ Some []) ∧
  (∀ svc lb, svc ∈ ecs_services inv → lb ∈ default [] (Service.loadBalancers svc)
             → raising_binding lb = false).
Proof.
  unfold index_safe, all_bindings. rewrite andb_true_iff, !forallb_forall. split.
  - intros [Hs Hb]. split.
    + intros s Hin%list_elem_of_In%Hs Htags. by rewrite Htags in Hin.
    + intros svc lb Hsvc Hlb. apply negb_true_iff, Hb, list_elem_of_In.
      apply list_elem_of_bind. by exists svc.
  - intros [Hs Hb]. split.
    + intros s Hin%list_elem_of_In. specialize (Hs s Hin).
      by destruct (Subnet.Tags s) as [[|]|].
    + intros lb (svc & Hlb & Hsvc)%list_elem_of_In%list_elem_of_bind.
      apply negb_true_iff. by eapply Hb.
Qed.

Lemma forallb_false {A} (f : A → bool) l :
  forallb f l = false → ∃ x, x ∈ l ∧ f x = false.
Proof.
  induction l as [|x l IH]; simpl; [done|].
  intros [Hx|Hl]%andb_false_iff.
  - exists x. split; [left | done].
  - destruct (IH Hl) as (y & Hy & Hfy). exists y. split; [by right | done].
Qed.

Lemma index_safe_false inv :
  index_safe inv = false →
  (∃ s, s ∈ subs inv ∧ Subnet.Tags s = Some []) ∨
  (∃ svc lb, svc ∈ ecs_services inv ∧ lb ∈ default [] (Service.loadBalancers svc)
             ∧ raising_binding lb = true).
Proof.
  unfold index_safe, all_bindings. intros [H|H]%andb_false_iff.
  - left. apply forallb_false in H as (s & Hs & Htags). exists s. split; [done|].
    by destruct (Subnet.Tags s) as [[|]|].
  - right. apply forallb_false in H as (lb & Hlb & Hr).
    apply list_elem_of_bind in Hlb as (svc & Hlb & Hsvc).
    exists svc, lb. split_and!; [done..|]. by apply negb_false_iff.
Qed.

Lemma unattached_of_raise G e : unattached_of G = Raise e → e = KeyError.
Proof.
  unfold unattached_of. induction (node_ids G) as [|n ns IH]; simpl; [done|].
  destruct (is_unattached G n) as [b|e'] eqn:Hn; simpl.
  - destruct (filter_raising _ ns) as [l|e'']; simpl; [done|].
    intros [= <-]. by apply IH.
  - intros [= <-]. unfold is_unattached in Hn. repeat case_match; congruence.
Qed.

Lemma build_graph_outcome inv :
  if index_safe inv then ∃ used G, build_graph inv = Ok (used, G)
  else build_graph inv = Raise IndexError.
Proof.
  destruct (index_safe inv) eqn:Hsafe.
  - apply index_safe_true in Hsafe as [Hs Hb]. unfold build_graph.
    destruct (used_lb_names_Ok inv) as [used ->]. simpl.
    destruct (for_each_Ok add_subnet (subs inv)
                (foldl add_vpc empty_graph (vpcs inv))) as [G2 ->].
    { intros G s Hin. by apply add_subnet_Ok, Hs. }
    simpl.
    destruct (for_each_Ok (add_service (tg_to_vpc inv)) (ecs_services inv)
                (foldl (add_lb used) (foldl add_db G2 (rds inv)) (lbs inv)))
      as [G5 ->].
    { intros G svc Hin. apply add_service_Ok. intros lb. by apply Hb. }
    simpl. by eexists _, _.
  - destruct (build_graph inv) as [[used G]|e] eqn:Hb.
    + exfalso. apply build_graph_Ok in Hb as (G2 & _ & H2 & H5).
      apply index_safe_false in Hsafe as [(s & Hs & Htags)|(svc & lb & Hsvc & Hlb & Hr)].
      * rewrite (for_each_raises _ _ _ s IndexError) in H2; [done..| |].
        -- intros G'. unfold add_subnet. by rewrite Htags.
        -- intros G' y e' _. apply add_subnet_raise.
      * rewrite (for_each_raises _ _ _ svc IndexError) in H5; [done..| |].
        -- intros G'. unfold add_service.
           destruct (split_last_Ok "/" (Service.clusterArn svc)) as [c ->]. simpl.
           apply (for_each_raises _ _ _ lb); [done| |].
           ++ intros G1. unfold add_binding.
              pose proof (resolve_lb_name_raising lb) as Hres. rewrite Hr in Hres.
              by rewrite Hres.
           ++ intros G1 y e' _. apply add_binding_raise.
        -- intros G' y e' _. apply add_service_raise.
    + f_equal. by eapply build_graph_raise.
Qed.

(** X4: the graph construction of lines 43-103 returns exactly when no subnet
    has an empty tag list and no binding has an unusable direct name together
    with a non-empty ARN without '/'; otherwise it raises [IndexError], and
    these are the only inputs on which the run ends in [IndexError]. *)
Theorem index_error_inputs (inv : inventory) :
  (if index_safe inv then ∃ used G, build_graph inv = Ok (used, G)
   else build_graph inv = Raise IndexError) ∧
  (main inv = Raise IndexError ↔ index_safe inv = false).
Proof.
  pose proof (build_graph_outcome inv) as Hgraph.
  split; [done|]. destruct (index_safe inv).
  - split; [|done]. destruct Hgraph as (used & G & HG).
    destruct (unattached_of G) as [un|e] eqn:Hun.
    + assert (build inv = Ok (used, attach_orphans G un, un)) as Hb.
      { apply build_Ok. by exists G. }
      by rewrite (main_spec _ _ _ _ Hb).
    + assert (build inv = Raise e) as Hb.
      { unfold build. rewrite HG. simpl. by rewrite Hun. }
      rewrite (main_raise _ _ Hb). apply unattached_of_raise in Hun. by subst e.
  - split; [done|]. intros _. by apply main_raise, build_raise.
Qed.

Lemma index_error_inputs_witness :
  main {| vpcs := []; subs := [Subnet.mk "subnet-1" "vpc-1" (Some [])]; ec2s := [];
          rds := []; lbs := []; ecs_services := []; tgs := None |}
  = Raise IndexError.
Proof.
  apply (index_error_inputs
           {| vpcs := []; subs := [Subnet.mk "subnet-1" "vpc-1" (Some [])]; ec2s := [];
              rds := []; lbs := []; ecs_services := []; tgs := None |}).
  reflexivity.
Defined.

(** ** The [KeyError] of the final pass *)

Lemma filter_raising_raises {A} (p : A → result bool) xs :
  (∃ e, filter_raising p xs = Raise e) ↔ ∃ x e, x ∈ xs ∧ p x = Raise e.
Proof.
  induction xs as [|x xs IH]; simpl.
  - split; [by intros [e [=]] | by intros (x & e & Hx & _); inversion Hx].
  - destruct (p x) as [b|e] eqn:Hx; simpl.
    + destruct (filter_raising p xs) as [l|e'] eqn:Hxs; simpl.
      * split; [by intros [e [=]]|]. intros (y & e & Hy & Hpy).
        apply elem_of_cons in Hy as [->|Hy]; [congruence|].
        destruct IH as [_ IH]. destruct IH as [e' [=]]. by exists y, e.
      * split; [|by eexists]. intros _.
        destruct IH as [IH _]. destruct IH as (y & e & Hy & Hpy); [by eexists|].
        exists y, e. split; [by right | done].
    + split; [|by eexists]. intros _. exists x, e. split; [left | done].
Qed.

Lemma is_unattached_raises G n :
  n ∈ node_ids G →
  (∃ e, is_unattached G n = Raise e) ↔
  in_degree G n = 0 ∧ ∃ a, node_attrs (nodes G) n = Some a ∧ label a = None.
Proof.
  intros [a Ha]%node_attrs_Some_elem. unfold is_unattached. rewrite Ha.
  destruct (Nat.eqb_spec (in_degree G n) 0) as [Hz|Hnz].
  - destruct (label a) as [l|] eqn:Hl.
    + split; [by intros [e [=]]|]. intros (_ & a' & [= <-] & Hl'). congruence.
    + split; [|by eexists]. intros _. split; [done|]. by exists a.
  - split; [by intros [e [=]] | by intros [? _]].
Qed.

(** X5: once the graph of lines 43-103 is built, the run ends in [KeyError]
    exactly when that graph has a node without attributes (one that was only
    ever named as an end of an edge) and without inbound edge; in every other
    case [main] returns its diagrams. *)
Theorem key_error_cause (inv : inventory) (used : gset string) (G0 : DiGraph) :
  build_graph inv = Ok (used, G0) →
  (main inv = Raise KeyError ↔
   ∃ n, node_attrs (nodes G0) n = Some no_attrs ∧ in_degree G0 n = 0) ∧
  ((∀ n, node_attrs (nodes G0) n = Some no_attrs → in_degree G0 n ≠ 0) →
   ∃ ds, main inv = Ok ds).
Proof.
  intros HG0.
  assert ((∃ e, unattached_of G0 = Raise e) ↔
          ∃ n, node_attrs (nodes G0) n = Some no_attrs ∧ in_degree G0 n = 0) as Hiff.
  { unfold unattached_of. rewrite filter_raising_raises. split.
    - intros (n & e & Hn & He).
      destruct (is_unattached_raises G0 n Hn) as [Hr _].
      destruct Hr as (Hz & a & Ha & Hl); [by eexists|]. exists n. split; [|done].
      destruct (build_graph_attrs_by_kind _ _ _ HG0 n a Ha) as [->|Hk]; [done|].
      by destruct Hk.
    - intros (n & Ha & Hz).
      assert (n ∈ node_ids G0) as Hn by (apply node_attrs_Some_elem; by eexists).
      destruct (is_unattached_raises G0 n Hn) as [_ Hr].
      destruct Hr as [e He]; [|by exists n, e]. split; [done|]. by exists no_attrs. }
  destruct (unattached_of G0) as [un|e] eqn:Hun.
  - assert (build inv = Ok (used, attach_orphans G0 un, un)) as Hb.
    { apply build_Ok. by exists G0. }
    rewrite (main_spec _ _ _ _ Hb). split; [|by eexists]. split; [done|].
    intros Hn. apply Hiff in Hn as [e [=]].
  - assert (e = KeyError) as -> by (by eapply unattached_of_raise).
    assert (main inv = Raise KeyError) as ->.
    { apply main_raise. unfold build. rewrite HG0. simpl. by rewrite Hun. }
    destruct Hiff as [Hiff _]. destruct Hiff as (n & Ha & Hz); [by eexists|].
    split; [split; [by exists n | done]|]. intros Hall. by destruct (Hall n Ha).
Qed.

Lemma key_error_cause_witness :
  main {| vpcs := []; subs := [Subnet.mk "subnet-1" "vpc-gone" None]; ec2s := [];
          rds := []; lbs := []; ecs_services := []; tgs := None |}
  = Raise KeyError.
Proof.
  apply (key_error_cause
           {| vpcs := []; subs := [Subnet.mk "subnet-1" "vpc-gone" None]; ec2s := [];
              rds := []; lbs := []; ecs_services := []; tgs := None |}
           ∅
           (add_edge (add_node empty_graph "subnet-1"
                               (mk_attrs ("Subnet" +:+ nl +:+ "subnet-1") "lightgreen" 1))
                     "vpc-gone" "subnet-1")).
  - reflexivity.
  - exists "vpc-gone". by vm_compute.
Defined.

(** ** The target-group table *)

Lemma filter_none {A} (P : A → Prop) `{∀ x, Decision (P x)} (l : list A) :
  (∀ x, x ∈ l → ¬ P x) → filter P l = [].
Proof.
  induction l as [|x l IH]; intros Hl; [done|].
  rewrite filter_cons_False by (apply Hl; left). apply IH.
  intros y Hy. apply Hl. by right.
Qed.

Lemma tg_to_vpc_lookup inv arn :
  tg_to_vpc inv !! arn
  = TargetGroup.VpcId
      <$> last (filter (λ tg, TargetGroup.TargetGroupArn tg = arn) (default [] (tgs inv))).
Proof.
  unfold tg_to_vpc. induction (default [] (tgs inv)) as [|tg l IH] using rev_ind.
  - done.
  - rewrite foldl_app, filter_app. simpl.
    destruct (decide (TargetGroup.TargetGroupArn tg = arn)) as [<-|Hne].
    + rewrite lookup_insert_eq, filter_cons_True by done.
      by rewrite filter_nil, last_snoc.
    + rewrite lookup_insert_ne, filter_cons_False by done.
      by rewrite filter_nil, app_nil_r.
Qed.

(** X6: the target-group table maps an ARN to the container of the last
    target group listed with that ARN, and holds no other key. *)
Theorem target_group_table (inv : inventory) (arn : string) :
  (tg_to_vpc inv !! arn = None ↔
   ∀ tg, tg ∈ default [] (tgs inv) → TargetGroup.TargetGroupArn tg ≠ arn) ∧
  (∀ before tg after,
     default [] (tgs inv) = before ++ tg :: after →
     TargetGroup.TargetGroupArn tg = arn →
     (∀ tg', tg' ∈ after → TargetGroup.TargetGroupArn tg' ≠ arn) →
     tg_to_vpc inv !! arn = Some (TargetGroup.VpcId tg)).
Proof.
  rewrite tg_to_vpc_lookup. split.
  - rewrite fmap_None, last_None. split.
    + intros Hnil tg Htg Harn.
      assert (tg ∈ filter (λ tg, TargetGroup.TargetGroupArn tg = arn)
                     (default [] (tgs inv))) as Hin by (by apply list_elem_of_filter).
      rewrite Hnil in Hin. by inversion Hin.
    + intros Hall. by apply filter_none.
  - intros before tg after -> Harn Hafter.
    assert (filter (λ tg, TargetGroup.TargetGroupArn tg = arn) after = []) as Hnil.
    { by apply filter_none. }
    by rewrite filter_app, filter_cons_True, Hnil, last_snoc by done.
Qed.

Lemma target_group_table_witness :
  tg_to_vpc {| vpcs := []; subs := []; ec2s := []; rds := []; lbs := [];
               ecs_services := [];
               tgs := Some [TargetGroup.mk "arn:tg/a/1" "vpc-1";
                            TargetGroup.mk "arn:tg/a/1" "vpc-2"] |}
    !! "arn:tg/a/1"
  = Some "vpc-2".
Proof.
  destruct (target_group_table
              {| vpcs := []; subs := []; ec2s := []; rds := []; lbs := [];
                 ecs_services := [];
                 tgs := Some [TargetGroup.mk "arn:tg/a/1" "vpc-1";
                              TargetGroup.mk "arn:tg/a/1" "vpc-2"] |}
              "arn:tg/a/1") as [_ Hlast].
  apply (Hlast [TargetGroup.mk "arn:tg/a/1" "vpc-1"]
               (TargetGroup.mk "arn:tg/a/1" "vpc-2") []).
  - reflexivity.
  - reflexivity.
  - intros tg' Htg'. by inversion Htg'.
Defined.

Lemma tg_to_vpc_value inv arn vpc_id :
  tg_to_vpc inv !! arn = Some vpc_id →
  ∃ tg, tg ∈ default [] (tgs inv) ∧ TargetGroup.VpcId tg = vpc_id.
Proof.
  rewrite tg_to_vpc_lookup. intros (tg & Hlast & ->)%fmap_Some.
  exists tg. split; [|done].
  apply last_Some in Hlast as [l' Hl'].
  assert (tg ∈ filter (λ tg, TargetGroup.TargetGroupArn tg = arn)
                 (default [] (tgs inv))) as Hin.
  { rewrite Hl'. apply elem_of_app. right. left. }
  by apply list_elem_of_filter in Hin as [_ ?].
Qed.

(** ** Inputs whose references resolve *)

Lemma all_created_add_node G n a :
  step_attrs a → all_created G → all_created (add_node G n a).
Proof.
  intros Ha HG m b. destruct (decide (m = n)) as [->|Hne].
  - rewrite node_attrs_add_node_eq, step_attrs_full by done. by intros [= <-].
  - rewrite node_attrs_add_node_ne by done. apply HG.
Qed.

Lemma all_created_add_edge G u v :
  u ∈ node_ids G → v ∈ node_ids G → all_created G → all_created (add_edge G u v).
Proof.
  intros Hu Hv HG m b Hm.
  assert (m ∈ node_ids G) as Hin.
  { assert (m ∈ node_ids (add_edge G u v)) as Hm'
      by (apply node_attrs_Some_elem; by eexists).
    apply elem_of_node_ids_add_edge in Hm' as [?|[->| ->]]; done. }
  apply node_attrs_Some_elem in Hin as [a Ha].
  rewrite (node_attrs_add_edge _ _ _ _ _ Ha) in Hm. injection Hm as <-.
  by eapply HG.
Qed.

Section resolved.
Variable inv : inventory.
Hypothesis Href : references_resolve inv.

(** The graph has only created nodes, and the listed ids are among them. *)
Let sound (ids : list string) (G : DiGraph) : Prop :=
  all_created G ∧ ∀ n, n ∈ ids → n ∈ node_ids G.

Lemma sound_add_node ids G n a : step_attrs a → sound ids G → sound ids (add_node G n a).
Proof.
  intros Ha [HG Hids]. split; [by apply all_created_add_node|].
  intros m Hm. by apply here_add_node, Hids.
Qed.

Lemma sound_add_edge ids G u v :
  u ∈ node_ids G → v ∈ node_ids G → sound ids G → sound ids (add_edge G u v).
Proof.
  intros Hu Hv [HG Hids]. split; [by apply all_created_add_edge|].
  intros m Hm. by apply here_add_edge, Hids.
Qed.

Lemma sound_vpcs : sound (vpc_ids inv) (foldl add_vpc empty_graph (vpcs inv)).
Proof.
  split.
  - apply (foldl_invariant all_created); [|by intros n a].
    intros G v _ HG. apply all_created_add_node; [constructor | done].
  - intros n (v & -> & Hv)%list_elem_of_fmap.
    apply (foldl_reaches (λ G, Vpc.VpcId v ∈ node_ids G) _ _ _ v Hv).
    + intros. by apply here_add_vpc.
    + intros G. apply add_node_here.
Qed.

Lemma sound_add_subnet ids G s G' :
  (∀ n, n ∈ vpc_ids inv → n ∈ ids) →
  s ∈ subs inv → sound ids G → add_subnet G s = Ok G' → sound ids G'.
Proof.
  intros Hvpc Hs HG (t & _ & HG')%bind_Ok. injection HG' as <-.
  destruct Href as (Hsubs & _). rewrite Forall_forall in Hsubs.
  apply sound_add_edge.
  - apply here_add_node. destruct HG as [_ Hids]. by apply Hids, Hvpc, Hsubs.
  - apply add_node_here.
  - apply sound_add_node; [constructor | done].
Qed.

Lemma sound_subnets G2 :
  for_each add_subnet (subs inv) (foldl add_vpc empty_graph (vpcs inv)) = Ok G2 →
  sound (vpc_ids inv ++ subnet_ids inv) G2.
Proof.
  intros H2.
  assert (sound (vpc_ids inv) G2) as [HG Hv].
  { eapply (for_each_invariant (sound (vpc_ids inv))); [| |exact H2].
    - intros G s G' Hs. by apply sound_add_subnet.
    - apply sound_vpcs. }
  split; [done|]. intros n [Hn|Hn]%elem_of_app; [by apply Hv|].
  apply list_elem_of_fmap in Hn as (s & -> & Hs).
  eapply (for_each_reaches (λ G, Subnet.SubnetId s ∈ node_ids G) _ _ _ _ s Hs);
    [| |exact H2].
  - intros ? ? ?. apply here_add_subnet.
  - intros G G' (t & _ & HG')%bind_Ok. injection HG' as <-. apply add_edge_here_r.
Qed.

Lemma sound_add_db G db :
  db ∈ rds inv →
  sound (vpc_ids inv ++ subnet_ids inv) G → sound (vpc_ids inv ++ subnet_ids inv) (add_db G db).
Proof.
  intros Hdb HG. rewrite add_db_listed.
  destruct Href as (_ & Hdbs & _). rewrite Forall_forall in Hdbs.
  specialize (Hdbs db Hdb). rewrite Forall_forall in Hdbs.
  set (db_id := DBInstance.DBInstanceIdentifier db).
  apply (foldl_invariant
           (λ G', sound (vpc_ids inv ++ subnet_ids inv) G' ∧ db_id ∈ node_ids G')).
  - intros G' s Hs [HG' Hdb']. split; [|by apply here_add_edge].
    apply sound_add_edge; [|done..]. destruct HG' as [_ Hids].
    apply Hids, elem_of_app. right. by apply Hdbs.
  - split; [|apply add_node_here]. apply sound_add_node; [constructor | done].
Qed.

Lemma sound_add_lb used G lb :
  lb ∈ lbs inv →
  sound (vpc_ids inv ++ subnet_ids inv) G →
  sound (vpc_ids inv ++ subnet_ids inv) (add_lb used G lb).
Proof.
  intros Hlb HG. unfold add_lb. case_decide; [|done].
  destruct Href as (_ & _ & Hlbs & _). rewrite Forall_forall in Hlbs.
  apply sound_add_edge.
  - apply here_add_node. destruct HG as [_ Hids].
    apply Hids, elem_of_app. left. by apply Hlbs.
  - apply add_node_here.
  - apply sound_add_node; [constructor | done].
Qed.

Lemma sound_add_binding sid G lb G' :
  sound (vpc_ids inv ++ subnet_ids inv) G → sid ∈ node_ids G →
  add_binding (tg_to_vpc inv) sid G lb = Ok G' →
  sound (vpc_ids inv ++ subnet_ids inv) G' ∧ sid ∈ node_ids G'.
Proof.
  intros HG Hsid (o & _ & HG')%bind_Ok. injection HG' as <-.
  assert (sound (vpc_ids inv ++ subnet_ids inv) (link_lb sid o G)
          ∧ sid ∈ node_ids (link_lb sid o G)) as [HG1 Hsid1].
  { unfold link_lb. destruct (truthy_opt o); [|done].
    destruct (has_node G _) eqn:Hhas.
    - split; [|by apply here_add_edge].
      apply sound_add_edge; [done| |done]. by apply has_node_true.
    - split; [|by apply here_add_edge, here_add_node].
      apply sound_add_edge; [by apply here_add_node | apply add_node_here|].
      apply sound_add_node; [constructor | done]. }
  unfold anchor_service. destruct (truthy _); [|done].
  destruct (tg_to_vpc inv !! _) as [vpc_id|] eqn:Htg; [|done].
  split; [|by apply here_add_edge]. apply sound_add_edge; [|done..].
  apply tg_to_vpc_value in Htg as (tg & Htg & <-).
  destruct Href as (_ & _ & _ & Htgs). rewrite Forall_forall in Htgs.
  destruct HG1 as [_ Hids]. apply Hids, elem_of_app. left. by apply Htgs.
Qed.

Lemma sound_add_service G svc G' :
  sound (vpc_ids inv ++ subnet_ids inv) G →
  add_service (tg_to_vpc inv) G svc = Ok G' →
  sound (vpc_ids inv ++ subnet_ids inv) G'.
Proof.
  intros HG (c & _ & Hfor)%bind_Ok.
  set (sid := service_node_id (Service.serviceName svc)) in *.
  apply (for_each_invariant
           (λ G1, sound (vpc_ids inv ++ subnet_ids inv) G1 ∧ sid ∈ node_ids G1))
    in Hfor; [by destruct Hfor| |].
  - intros G1 lb G1' _ [H1 H2]. by apply sound_add_binding.
  - split; [|apply add_edge_here_r].
    apply sound_add_edge; [apply here_add_node, add_node_here | apply add_node_here|].
    apply sound_add_node; [constructor|]. apply sound_add_node; [constructor | done].
Qed.

Lemma resolved_all_created used G : build_graph inv = Ok (used, G) → all_created G.
Proof.
  intros (G2 & _ & H2 & H5)%build_graph_Ok.
  apply (for_each_invariant (sound (vpc_ids inv ++ subnet_ids inv))) in H5;
    [by destruct H5| |].
  - intros G1 svc G1' _. apply sound_add_service.
  - apply (foldl_invariant (sound (vpc_ids inv ++ subnet_ids inv)));
      [intros; by apply sound_add_lb|].
    apply (foldl_invariant (sound (vpc_ids inv ++ subnet_ids inv)));
      [intros; by apply sound_add_db|].
    by apply sound_subnets.
Qed.
End resolved.

Lemma key_error_free G : all_created G → ∃ un, unattached_of G = Ok un.
Proof.
  intros HG. destruct (unattached_of G) as [un|e] eqn:Hun; [by eexists|].
  exfalso. destruct (filter_raising_raises (is_unattached G) (node_ids G)) as [Hr _].
  destruct Hr as (n & e' & Hn & He); [by eexists|].
  destruct (is_unattached_raises G n Hn) as [Hr _].
  destruct Hr as (_ & a & Ha & Hl); [by eexists|].
  by destruct (HG n a Ha).
Qed.

(** X7: when every reference of the input names a listed resource, no subnet
    has an empty tag list and no binding is a raising one, [main] returns its
    diagrams, and every node of the graph it draws from was created with the
    label, colour and layer of its kind: no node is a bare edge end. *)
Theorem resolved_inputs_run (inv : inventory) :
  references_resolve inv →
  index_safe inv = true →
  ∃ used G un,
    build inv = Ok (used, G, un) ∧ all_created G ∧
    main inv = Ok (map (vpc_diagram inv used) (vpcs inv)
                   ++ match un with [] => [] | _ :: _ => [orphan_diagram inv used] end).
Proof.
  intros Href Hsafe.
  pose proof (build_graph_outcome inv) as Hgraph. rewrite Hsafe in Hgraph.
  destruct Hgraph as (used & G0 & HG0).
  pose proof (resolved_all_created inv Href used G0 HG0) as Hcreated.
  destruct (key_error_free G0 Hcreated) as [un Hun].
  assert (build inv = Ok (used, attach_orphans G0 un, un)) as Hb.
  { apply build_Ok. by exists G0. }
  exists used, (attach_orphans G0 un), un.
  split_and!; [done| |by apply (main_spec _ _ _ _ Hb)].
  destruct (filter_raising_Ok _ _ _ Hun) as [_ Hin].
  destruct un as [|n ns]; [done|]. rewrite attach_orphans_cons.
  apply (foldl_invariant (λ G, all_created G ∧ NO_VPC ∈ node_ids G ∧
                               ∀ m, m ∈ n :: ns → m ∈ node_ids G)).
  - intros G m Hm (HG & Hsent & Hun'). split_and!.
    + apply all_created_add_edge; [done | by apply Hun' | done].
    + by apply here_add_edge.
    + intros m' Hm'. by apply here_add_edge, Hun'.
  - split_and!.
    + apply all_created_add_node; [constructor | done].
    + apply add_node_here.
    + intros m Hm. apply here_add_node. by apply Hin in Hm as [? _].
Qed.

Lemma resolved_inputs_run_witness :
  ∃ used G un,
    build small_inventory = Ok (used, G, un) ∧ all_created G ∧
    main small_inventory
    = Ok (map (vpc_diagram small_inventory used) (vpcs small_inventory)
          ++ match un with [] => [] | _ :: _ => [orphan_diagram small_inventory used] end).
Proof.
  apply (resolved_inputs_run small_inventory).
  - unfold references_resolve. split_and!; apply (bool_decide_unpack _); by vm_compute.
  - reflexivity.
Defined.

(** ** Segments of a split string *)

Lemma split_no_sep sep s x : x ∈ split sep s → contains_char sep x = false.
Proof.
  revert x. induction s as [|c s IH]; intros x; simpl.
  - by intros ->%list_elem_of_singleton.
  - destruct (Ascii.eqb c sep) eqn:Hc.
    + intros [->|Hx]%elem_of_cons; [done | by apply IH].
    + pose proof (split_length sep s) as Hlen.
      destruct (split sep s) as [|h t]; [simpl in Hlen; lia|].
      intros [->|Hx]%elem_of_cons.
      * simpl. rewrite Hc. apply IH. left.
      * apply IH. by right.
Qed.

Lemma split_last_suffix sep s c :
  last (split sep s) = Some c →
  (split sep s = [c] ∧ s = c)
  ∨ (2 ≤ length (split sep s) ∧ ∃ q, s = q +:+ String sep c).
Proof.
  revert c. induction s as [|ch s IH]; intros c; simpl.
  - intros [= <-]. by left.
  - pose proof (split_length sep s) as Hlen.
    destruct (Ascii.eqb_spec ch sep) as [->|Hne].
    + destruct (split sep s) as [|h t] eqn:Hs; [simpl in Hlen; lia|].
      intros Hlast. change (last (h :: t) = Some c) in Hlast. right.
      split; [simpl; lia|].
      destruct (IH c Hlast) as [[_ ->]|[_ [q ->]]].
      * by exists "".
      * by exists (String sep q).
    + destruct (split sep s) as [|h t] eqn:Hs; [simpl in Hlen; lia|].
      destruct t as [|h' t'].
      * intros [= <-]. left. destruct (IH h eq_refl) as [[_ ->]|[Hl _]]; [done|].
        simpl in Hl. lia.
      * intros Hlast. change (last (h :: h' :: t') = Some c) in Hlast. right.
        split; [simpl; lia|].
        destruct (IH c Hlast) as [[[=] _]|[_ [q ->]]]. by exists (String ch q).
Qed.

(** X8: the cluster name of a service never fails to be computed; it is the
    part of the cluster ARN after its last '/', or the whole ARN when that
    has no '/', and it contains no '/'. *)
Theorem cluster_name_of_arn (svc : Service.t) :
  ∃ cluster_name,
    getitem (split "/" (Service.clusterArn svc)) (-1) = Ok cluster_name ∧
    contains_char "/" cluster_name = false ∧
    ((contains_char "/" (Service.clusterArn svc) = false
      ∧ Service.clusterArn svc = cluster_name)
     ∨ ∃ q, Service.clusterArn svc = q +:+ "/" +:+ cluster_name).
Proof.
  destruct (split_last_Ok "/" (Service.clusterArn svc)) as [c Hc].
  exists c. split; [done|]. rewrite getitem_last in Hc.
  destruct (last _) as [c'|] eqn:Hlast; [|done]. injection Hc as ->.
  split.
  - apply (split_no_sep "/" (Service.clusterArn svc)).
    apply last_Some in Hlast as [l' ->]. apply elem_of_app. right. left.
  - destruct (split_last_suffix _ _ _ Hlast) as [[Hone Hs]|[_ [q Hq]]].
    + left. split; [|done].
      destruct (contains_char "/" (Service.clusterArn svc)) eqn:Hcc; [|done].
      apply contains_char_split in Hcc. rewrite Hone in Hcc. simpl in Hcc. lia.
    + right. by exists q.
Qed.

(** ** Clusters *)

Lemma in_degree_zero G n : (∀ u, (u, n) ∉ edges G) → in_degree G n = 0.
Proof.
  intros Hno. unfold in_degree.
  destruct (filter (λ e, e.2 = n) (edges G)) as [|[u v] l] eqn:Hf; [done|].
  assert ((u, v) ∈ filter (λ e, e.2 = n) (edges G)) as Hin by (rewrite Hf; left).
  apply list_elem_of_filter in Hin as [Hv Hin]. simpl in Hv. subst v.
  by destruct (Hno u).
Qed.

Lemma build_graph_targets inv used G u v :
  build_graph inv = Ok (used, G) → (u, v) ∈ edges G → step_target inv v.
Proof.
  intros HG. revert u v.
  apply (build_graph_ind inv (λ G, ∀ u v, (u, v) ∈ edges G → step_target inv v))
    with (used := used); [| | |done].
  - intros G' n a _ HG'. apply HG'.
  - intros G' u v Hv HG' x y [Hxy|[= -> ->]]%elem_of_edges_add_edge; [by eapply HG'|done].
  - intros u v Huv. by inversion Huv.
Qed.

Section cluster_stays.
Variable cid : string.
Hypothesis cid_cluster : ∃ c, cid = cluster_node_id c.

Let kept (G : DiGraph) : Prop :=
  node_attrs (nodes G) cid = Some (mk_attrs "ECS Cluster" "lightyellow" 3).

Lemma kept_add_edge G u v : kept G → kept (add_edge G u v).
Proof. apply node_attrs_add_edge. Qed.

Lemma kept_add_node G n a : n ≠ cid → kept G → kept (add_node G n a).
Proof. intros Hne HG. unfold kept. by rewrite node_attrs_add_node_ne. Qed.

Lemma kept_add_binding to_vpc sid G lb G' :
  kept G → add_binding to_vpc sid G lb = Ok G' → kept G'.
Proof.
  intros HG (o & _ & HG')%bind_Ok. injection HG' as <-.
  assert (kept (link_lb sid o G)) as H1.
  { unfold link_lb. destruct (truthy_opt o); [|done]. apply kept_add_edge.
    destruct (has_node _ _); [done|]. apply kept_add_node; [|done].
    destruct cid_cluster as [c ->]. done. }
  unfold anchor_service. destruct (truthy _); [|done].
  destruct (_ !! _); [|done]. by apply kept_add_edge.
Qed.

Lemma kept_after_cluster to_vpc G svc G' c :
  getitem (split "/" (Service.clusterArn svc)) (-1) = Ok c →
  (cid = cluster_node_id c ∨ kept G) →
  add_service to_vpc G svc = Ok G' → kept G'.
Proof.
  intros Hc Hcid. unfold add_service. rewrite Hc. simpl. intros Hfor.
  eapply (for_each_invariant kept); [| |exact Hfor].
  - intros G1 lb G1' _. apply kept_add_binding.
  - apply kept_add_edge, kept_add_node.
    { destruct cid_cluster as [c' ->]. done. }
    destruct (decide (cluster_node_id c = cid)) as [<-|Hne].
    + unfold kept. by rewrite node_attrs_add_node_eq.
    + destruct Hcid as [->|HG]; [done|]. by apply kept_add_node.
Qed.

Lemma kept_add_service to_vpc G svc G' :
  kept G → add_service to_vpc G svc = Ok G' → kept G'.
Proof.
  intros HG Hadd. destruct (split_last_Ok "/" (Service.clusterArn svc)) as [c Hc].
  eapply kept_after_cluster; [exact Hc | by right | exact Hadd].
Qed.
End cluster_stays.

Lemma cluster_unattached (inv : inventory) (used : gset string) (G : DiGraph)
    (un : list string) (svc : Service.t) (cluster_name : string) :
  build inv = Ok (used, G, un) →
  Forall (λ n, contains_char ":" n = false) (subnet_ids inv ++ db_ids inv) →
  svc ∈ ecs_services inv →
  getitem (split "/" (Service.clusterArn svc)) (-1) = Ok cluster_name →
  cluster_node_id cluster_name ∈ un ∧
  has_edge G NO_VPC (cluster_node_id cluster_name) = true ∧
  ∃ ds, main inv = Ok (ds ++ [orphan_diagram inv used]).
Proof.
  intros Hb Hnat Hsvc Hc. pose proof (main_spec _ _ _ _ Hb) as Hmain.
  apply build_Ok in Hb as (G0 & HG0 & Hun & ->).
  set (cid := cluster_node_id cluster_name) in *.
  assert (node_attrs (nodes G0) cid = Some (mk_attrs "ECS Cluster" "lightyellow" 3))
    as Hattrs.
  { pose proof HG0 as (G2 & _ & _ & H5)%build_graph_Ok.
    eapply (for_each_reaches
              (λ G1, node_attrs (nodes G1) cid
                     = Some (mk_attrs "ECS Cluster" "lightyellow" 3))
              _ _ _ _ svc Hsvc); [| |exact H5].
    - intros G1 svc' G1'. apply kept_add_service. by exists cluster_name.
    - intros G1 G1'. apply (kept_after_cluster cid) with (c := cluster_name);
        [by exists cluster_name | done | by left]. }
  assert (in_degree G0 cid = 0) as Hzero.
  { apply in_degree_zero. intros u Hu.
    rewrite Forall_forall in Hnat.
    destruct (build_graph_targets _ _ _ _ _ HG0 Hu) as [Hs|[Hd|[[x Hx]|[x Hx]]]].
    - assert (contains_char ":" cid = false) as Hcolon
        by (apply Hnat, elem_of_app; by left).
      done.
    - assert (contains_char ":" cid = false) as Hcolon
        by (apply Hnat, elem_of_app; by right).
      done.
    - done.
    - done. }
  assert (cid ∈ un) as Hin.
  { apply (filter_raising_Ok _ _ _ Hun). split.
    - apply node_attrs_Some_elem. by eexists.
    - apply is_unattached_true. split; [done|].
      eexists _, _. split_and!; [done..|]. unfold always_contained.
      do 2 right. left. }
  split_and!; [done| |].
  - destruct un as [|n ns]; [by inversion Hin|]. rewrite attach_orphans_cons.
    apply has_edge_foldl_out. by right.
  - destruct un as [|n ns]; [by inversion Hin|]. by eexists.
Qed.

(** X9: when no subnet id and no database id contains a ':', every cluster of
    every service is an unattached node and gets the sentinel's edge: no edge
    of the construction points to a cluster.  So as soon as there is one
    service, the orphan diagram is drawn. *)
Theorem clusters_are_unattached (inv : inventory) (used : gset string) (G : DiGraph)
    (un : list string) (svc : Service.t) (cluster_name : string) :
  build inv = Ok (used, G, un) →
  Forall (λ n, contains_char ":" n = false) (subnet_ids inv ++ db_ids inv) →
  svc ∈ ecs_services inv →
  getitem (split "/" (Service.clusterArn svc)) (-1) = Ok cluster_name →
  cluster_node_id cluster_name ∈ un ∧
  has_edge G NO_VPC (cluster_node_id cluster_name) = true ∧
  ∃ ds, main inv = Ok (ds ++ [orphan_diagram inv used]).
Proof. apply cluster_unattached. Qed.

Lemma clusters_are_unattached_witness :
  cluster_node_id "prod" ∈ ["CLUSTER:prod"].
Proof.
  eapply (clusters_are_unattached
            classic_lb_inventory {["classic-lb"]}
            (attach_orphans
               {| nodes := [("CLUSTER:prod", mk_attrs "ECS Cluster" "lightyellow" 3);
                            ("SVC:web", mk_attrs ("ECS Service" +:+ nl +:+ "web") "gold" 4)];
                  edges := [("CLUSTER:prod", "SVC:web")] |}
               ["CLUSTER:prod"])
            ["CLUSTER:prod"]
            (Service.mk "web" "arn:aws:ecs:us-east-1:123456789012:cluster/prod"
                        (Some [Binding.mk (Some "classic-lb") None]))
            "prod").
  - by vm_compute.
  - constructor.
  - left.
  - reflexivity.
Defined.

(** ** The edges of the graph *)

Section kept_by_steps.
Variable P : DiGraph → Prop.
Hypothesis P_node : ∀ G n a, P G → P (add_node G n a).
Hypothesis P_edge : ∀ G u v, P G → P (add_edge G u v).

Lemma kept_subnets G ss G' : P G → for_each add_subnet ss G = Ok G' → P G'.
Proof.
  intros HG. apply (for_each_invariant P); [|done].
  intros G1 s G1' _ H1 (t & _ & HG')%bind_Ok. injection HG' as <-.
  by apply P_edge, P_node.
Qed.

Lemma kept_db G db : P G → P (add_db G db).
Proof.
  intros HG. rewrite add_db_listed.
  apply (foldl_invariant P); [intros; by apply P_edge | by apply P_node].
Qed.

Lemma kept_dbs G dbs : P G → P (foldl add_db G dbs).
Proof. intros HG. apply (foldl_invariant P); [intros; by apply kept_db | done]. Qed.

Lemma kept_lb used G lb : P G → P (add_lb used G lb).
Proof.
  intros HG. unfold add_lb. case_decide; [|done]. by apply P_edge, P_node.
Qed.

Lemma kept_lbs used G bs : P G → P (foldl (add_lb used) G bs).
Proof. intros HG. apply (foldl_invariant P); [intros; by apply kept_lb | done]. Qed.

Lemma kept_link_lb sid o G : P G → P (link_lb sid o G).
Proof.
  intros HG. unfold link_lb. destruct (truthy_opt o); [|done].
  apply P_edge. destruct (has_node _ _); [done | by apply P_node].
Qed.

Lemma kept_anchor to_vpc sid tg G : P G → P (anchor_service to_vpc sid tg G).
Proof.
  intros HG. unfold anchor_service. destruct (truthy tg); [|done].
  destruct (to_vpc !! tg); [by apply P_edge | done].
Qed.

Lemma kept_binding to_vpc sid G lb G' :
  P G → add_binding to_vpc sid G lb = Ok G' → P G'.
Proof.
  intros HG (o & _ & HG')%bind_Ok. injection HG' as <-.
  by apply kept_anchor, kept_link_lb.
Qed.

Lemma kept_bindings to_vpc sid G bs G' :
  P G → for_each (add_binding to_vpc sid) bs G = Ok G' → P G'.
Proof.
  intros HG. apply (for_each_invariant P); [|done].
  intros G1 lb G1' _. apply kept_binding.
Qed.

Lemma kept_service to_vpc G svc G' : P G → add_service to_vpc G svc = Ok G' → P G'.
Proof.
  intros HG (c & _ & Hfor)%bind_Ok. eapply kept_bindings; [|exact Hfor].
  by apply P_edge, P_node, P_node.
Qed.

Lemma kept_services to_vpc G svcs G' :
  P G → for_each (add_service to_vpc) svcs G = Ok G' → P G'.
Proof.
  intros HG. apply (for_each_invariant P); [|done].
  intros G1 svc G1' _. apply kept_service.
Qed.

Lemma kept_attach G un : P G → P (attach_orphans G un).
Proof.
  intros HG. destruct un as [|n ns]; [done|]. rewrite attach_orphans_cons.
  apply (foldl_invariant P); [intros; by apply P_edge | by apply P_node].
Qed.
End kept_by_steps.

Lemma edge_kept_node G n a e : e ∈ edges G → e ∈ edges (add_node G n a).
Proof. done. Qed.

Lemma edge_kept_edge G u v e : e ∈ edges G → e ∈ edges (add_edge G u v).
Proof. intros He. apply elem_of_edges_add_edge. by left. Qed.

Lemma edges_add_db G db e :
  e ∈ edges (add_db G db)
  ↔ e ∈ edges G ∨ ∃ sn, sn ∈ listed_subnet_ids db
                        ∧ e = (sn, DBInstance.DBInstanceIdentifier db).
Proof.
  rewrite add_db_listed. destruct e as [x y].
  rewrite <- !has_edge_true, has_edge_foldl_link. unfold has_edge at 1. simpl.
  fold (has_edge G x y). split.
  - intros [?|[Hx ->]]; [by left|]. right. by exists x.
  - intros [?|(sn & Hsn & [= -> ->])]; [by left | by right].
Qed.

Lemma edges_link_lb sid o G e :
  e ∈ edges (link_lb sid o G)
  ↔ e ∈ edges G ∨ ∃ name, o = Some name ∧ name ≠ "" ∧ e = (sid, lb_node_id name).
Proof.
  unfold link_lb. destruct (truthy_opt o) eqn:Ho.
  - apply truthy_opt_true' in Ho as (name & -> & Hname).
    rewrite elem_of_edges_add_edge. simpl.
    assert (edges (if has_node G (lb_node_id name) then G
                   else add_node G (lb_node_id name) lb_attrs) = edges G) as ->
      by (by destruct (has_node _ _)).
    split.
    + intros [?| ->]; [by left|]. right. by exists name.
    + intros [?|(name' & [= <-] & _ & ->)]; [by left | by right].
  - split; [by left|]. intros [?|(name & -> & Hname & _)]; [done|].
    simpl in Ho. apply truthy_true in Hname. congruence.
Qed.

Lemma edges_anchor_service to_vpc sid tg_arn G e :
  e ∈ edges (anchor_service to_vpc sid tg_arn G)
  ↔ e ∈ edges G ∨ ∃ vpc_id, tg_arn ≠ "" ∧ to_vpc !! tg_arn = Some vpc_id
                           ∧ e = (vpc_id, sid).
Proof.
  unfold anchor_service. destruct (truthy tg_arn) eqn:Ht.
  - apply truthy_true in Ht. destruct (to_vpc !! tg_arn) as [vpc_id|].
    + rewrite elem_of_edges_add_edge. split.
      * intros [?| ->]; [by left|]. right. by exists vpc_id.
      * intros [?|(v & _ & [= <-] & ->)]; [by left | by right].
    + split; [by left|]. by intros [?|(v & _ & [=] & _)].
  - split; [by left|]. intros [?|(v & Hne & _)]; [done|].
    apply truthy_true in Hne. congruence.
Qed.

Lemma build_graph_edges_sound inv used G u v :
  build_graph inv = Ok (used, G) → (u, v) ∈ edges G → built_edge inv used u v.
Proof.
  intros (G2 & _ & H2 & H5)%build_graph_Ok. revert u v.
  set (S := λ G : DiGraph, ∀ u v, (u, v) ∈ edges G → built_edge inv used u v).
  change (S G). eapply (for_each_invariant S); [| |exact H5].
  - intros G1 svc G1' Hsvc HG1 (c & Hc & Hfor)%bind_Ok.
    eapply (for_each_invariant S); [| |exact Hfor].
    + intros G3 lb G3' Hlb HG3 (o & Ho & HG3')%bind_Ok. injection HG3' as <-.
      intros u v [Huv|(vpc_id & Hne & Htg & [= -> ->])]%edges_anchor_service.
      * apply edges_link_lb in Huv as [Huv|(name & -> & Hname & [= -> ->])];
          [by apply HG3|]. by eapply service_lb_edge.
      * destruct (Binding.targetGroupArn lb) as [arn|] eqn:Harn; [|done].
        by eapply anchor_edge.
    + intros u v [Huv|[= -> ->]]%elem_of_edges_add_edge; [by apply HG1|].
      by apply cluster_edge.
  - apply (foldl_invariant S).
    { intros G1 lb Hlb HG1 u v. unfold add_lb. case_decide; [|by apply HG1].
      intros [Huv|[= -> ->]]%elem_of_edges_add_edge; [by apply HG1|].
      by apply lb_edge. }
    apply (foldl_invariant S).
    { intros G1 db Hdb HG1 u v [Huv|(sn & Hsn & [= -> ->])]%edges_add_db;
        [by apply HG1 | by apply db_edge]. }
    eapply (for_each_invariant S); [| |exact H2].
    { intros G1 s G1' Hs HG1 (t & _ & HG1')%bind_Ok. injection HG1' as <-.
      intros u v [Huv|[= -> ->]]%elem_of_edges_add_edge; [by apply HG1|].
      by apply subnet_edge. }
    apply (foldl_invariant S); [by intros G1 vpc _ HG1 u v Huv; apply HG1|].
    intros u v Huv. by inversion Huv.
Qed.

Lemma build_graph_edges_complete inv used G u v :
  build_graph inv = Ok (used, G) → built_edge inv used u v → (u, v) ∈ edges G.
Proof.
  intros (G2 & _ & H2 & H5)%build_graph_Ok Hedge.
  set (P := λ G : DiGraph, (u, v) ∈ edges G).
  assert (∀ G n a, P G → P (add_node G n a)) as Pn by (by intros).
  assert (∀ G x y, P G → P (add_edge G x y)) as Pe
    by (intros; by apply edge_kept_edge).
  change (P G). destruct Hedge as [s Hs|db sn Hdb Hsn|lb Hlb Hused|svc c Hsvc Hc
                                  |svc lb name Hsvc Hlb Hres Hname
                                  |svc lb arn vpc_id Hsvc Hlb Harn Hne Htg].
  - eapply (kept_services P Pn Pe); [|exact H5].
    apply (kept_lbs P Pn Pe), (kept_dbs P Pn Pe).
    eapply (for_each_reaches P _ _ _ _ s Hs); [| |exact H2].
    + intros G1 s' G1' HG1 (t & _ & HG1')%bind_Ok. injection HG1' as <-.
      by apply Pe, Pn.
    + intros G1 G1' (t & _ & HG1')%bind_Ok. injection HG1' as <-.
      apply elem_of_edges_add_edge. by right.
  - eapply (kept_services P Pn Pe); [|exact H5]. apply (kept_lbs P Pn Pe).
    apply (foldl_reaches P _ _ _ db Hdb); [intros; by apply (kept_db P Pn Pe)|].
    intros G1. apply edges_add_db. right. by exists sn.
  - eapply (kept_services P Pn Pe); [|exact H5].
    apply (foldl_reaches P _ _ _ lb Hlb); [intros; by apply (kept_lb P Pn Pe)|].
    intros G1. unfold add_lb. rewrite decide_True by done.
    apply elem_of_edges_add_edge. by right.
  - eapply (for_each_reaches P _ _ _ _ svc Hsvc); [| |exact H5].
    + intros G1 svc' G1'. apply (kept_service P Pn Pe).
    + intros G1 G1'. unfold add_service. rewrite Hc. simpl.
      apply (kept_bindings P Pn Pe). apply elem_of_edges_add_edge. by right.
  - eapply (for_each_reaches P _ _ _ _ svc Hsvc); [| |exact H5].
    + intros G1 svc' G1'. apply (kept_service P Pn Pe).
    + intros G1 G1' (c & _ & Hfor)%bind_Ok.
      eapply (for_each_reaches P _ _ _ _ lb Hlb); [| |exact Hfor].
      * intros G3 lb' G3'. apply (kept_binding P Pn Pe).
      * intros G3 G3'. unfold add_binding. rewrite Hres. simpl. intros [= <-].
        apply edges_anchor_service. left. apply edges_link_lb. right. by exists name.
  - eapply (for_each_reaches P _ _ _ _ svc Hsvc); [| |exact H5].
    + intros G1 svc' G1'. apply (kept_service P Pn Pe).
    + intros G1 G1' (c & _ & Hfor)%bind_Ok.
      eapply (for_each_reaches P _ _ _ _ lb Hlb); [| |exact Hfor].
      * intros G3 lb' G3'. apply (kept_binding P Pn Pe).
      * intros G3 G3' (o & _ & HG3')%bind_Ok. injection HG3' as <-.
        apply edges_anchor_service. right. exists vpc_id. rewrite Harn. by simpl.
Qed.

Lemma attach_orphans_nil' G : attach_orphans G [] = G.
Proof. done. Qed.

(** X10: the edges of the graph [main] draws from are exactly these:
    container → subnet for every subnet; subnet → database for every
    non-empty subnet identifier a database lists; container → load balancer
    for every load balancer with a used name; cluster → service for every
    service; service → load balancer for every binding the service loop
    resolves to a non-empty name; container → service for every binding
    whose non-empty ARN is a key of the target-group table; and sentinel →
    node for every unattached node. *)
Theorem built_graph_edge_set (inv : inventory) (used : gset string) (G : DiGraph)
    (un : list string) (u v : string) :
  build inv = Ok (used, G, un) →
  has_edge G u v = true ↔ built_edge inv used u v ∨ (u = NO_VPC ∧ v ∈ un).
Proof.
  intros (G0 & HG0 & _ & ->)%build_Ok.
  assert (has_edge G0 u v = true ↔ built_edge inv used u v) as H0.
  { rewrite has_edge_true. split.
    - by apply build_graph_edges_sound.
    - by apply build_graph_edges_complete. }
  destruct un as [|n ns].
  - rewrite attach_orphans_nil', H0. split; [by left|].
    intros [?|[_ Hv]]; [done | by inversion Hv].
  - rewrite attach_orphans_cons, has_edge_foldl_out.
    unfold has_edge at 1. simpl. fold (has_edge G0 u v). by rewrite H0.
Qed.

Lemma built_graph_edge_set_witness :
  has_edge small_graph "vpc-1" "subnet-1" = true
  ↔ built_edge small_inventory ∅ "vpc-1" "subnet-1" ∨ ("vpc-1" = NO_VPC ∧ "subnet-1" ∈ []).
Proof.
  apply (built_graph_edge_set small_inventory ∅ small_graph []). by vm_compute.
Defined.

(** ** The nodes of the graph *)

Section node_origin.
Variable inv : inventory.
Variable used : gset string.
Variable un : list string.

(** Every node was added by a step or is the source of an edge. *)
Let accounted (G : DiGraph) : Prop :=
  ∀ n, n ∈ node_ids G → (∃ st, adds inv used un st n) ∨ (∃ v, (n, v) ∈ edges G).

Lemma accounted_add_node G n a st :
  adds inv used un st n → accounted G → accounted (add_node G n a).
Proof.
  intros Hadd HG m [Hm| ->]%elem_of_node_ids_add_node; [by apply HG|].
  left. by exists st.
Qed.

Lemma accounted_add_edge G u v :
  ((∃ st, adds inv used un st v) ∨ v ∈ node_ids G) →
  accounted G → accounted (add_edge G u v).
Proof.
  intros Hv HG m Hm.
  assert (∀ k, k ∈ node_ids G →
               (∃ st, adds inv used un st k) ∨ ∃ w, (k, w) ∈ edges (add_edge G u v))
    as Hold.
  { intros k Hk. destruct (HG k Hk) as [?|[w Hw]]; [by left|].
    right. exists w. by apply edge_kept_edge. }
  apply elem_of_node_ids_add_edge in Hm as [Hm|[->| ->]].
  - by apply Hold.
  - right. exists v. apply elem_of_edges_add_edge. by right.
  - destruct Hv as [?|Hv]; [by left | by apply Hold].
Qed.

Lemma accounted_build_graph G : build_graph inv = Ok (used, G) → accounted G.
Proof.
  intros (G2 & _ & H2 & H5)%build_graph_Ok.
  eapply (for_each_invariant accounted); [| |exact H5].
  - intros G1 svc G1' Hsvc HG1 (c & Hc & Hfor)%bind_Ok.
    assert (adds inv used un Services (service_node_id (Service.serviceName svc)))
      as Hsid by (by exists svc).
    eapply (for_each_invariant accounted); [| |exact Hfor].
    + intros G3 lb G3' Hlb HG3 (o & Ho & HG3')%bind_Ok. injection HG3' as <-.
      assert (accounted (link_lb (service_node_id (Service.serviceName svc)) o G3))
        as Hlink.
      { unfold link_lb. destruct (truthy_opt o) eqn:Hto; [|done].
        apply truthy_opt_true' in Hto as (name & -> & Hname). simpl.
        assert (adds inv used un LoadBalancers (lb_node_id name)) as Hlbid.
        { right. by exists svc, lb, name. }
        apply accounted_add_edge; [left; by eexists|].
        destruct (has_node _ _); [done|]. by eapply accounted_add_node. }
      unfold anchor_service. destruct (truthy _); [|done].
      destruct (_ !! _); [|done]. apply accounted_add_edge; [left; by eexists | done].
    + apply accounted_add_edge; [left; by eexists|].
      eapply accounted_add_node; [exact Hsid|].
      eapply (accounted_add_node _ _ _ Clusters); [by exists svc, c | done].
  - apply (foldl_invariant accounted).
    { intros G1 lb Hlb HG1. unfold add_lb. case_decide; [|done].
      assert (adds inv used un LoadBalancers
                   (lb_node_id (LoadBalancer.LoadBalancerName lb))) as Hadd.
      { left. by exists lb. }
      apply accounted_add_edge; [left; by eexists|]. by eapply accounted_add_node. }
    apply (foldl_invariant accounted).
    { intros G1 db Hdb HG1. rewrite add_db_listed.
      assert (adds inv used un Databases (DBInstance.DBInstanceIdentifier db)) as Hadd
        by (by exists db).
      apply (foldl_invariant accounted).
      - intros G3 sn _. apply accounted_add_edge. left. by eexists.
      - by eapply accounted_add_node. }
    eapply (for_each_invariant accounted); [| |exact H2].
    { intros G1 s G1' Hs HG1 (t & _ & HG1')%bind_Ok. injection HG1' as <-.
      assert (adds inv used un Subnets (Subnet.SubnetId s)) as Hadd by (by exists s).
      apply accounted_add_edge; [left; by eexists|]. by eapply accounted_add_node. }
    apply (foldl_invariant accounted).
    { intros G1 vpc Hvpc HG1. eapply (accounted_add_node _ _ _ Containers); [|done].
      by exists vpc. }
    intros n Hn. by inversion Hn.
Qed.
End node_origin.

Lemma build_edges_closed inv used G un :
  build inv = Ok (used, G, un) → edges_closed G.
Proof.
  apply (build_ind edges_closed).
  - by intros u v Huv; inversion Huv.
  - intros. by apply edges_closed_add_node.
  - intros. by apply edges_closed_add_edge.
Qed.

(** X11: the nodes of the graph [main] draws from are exactly the ids that
    some construction step adds and the sources of its edges; nothing else
    becomes a node. *)
Theorem built_graph_node_set (inv : inventory) (used : gset string) (G : DiGraph)
    (un : list string) (n : string) :
  build inv = Ok (used, G, un) →
  n ∈ node_ids G ↔ (∃ st, adds inv used un st n) ∨ (∃ v, has_edge G n v = true).
Proof.
  intros Hb. split.
  - pose proof Hb as (G0 & HG0 & Hun & ->)%build_Ok.
    pose proof (accounted_build_graph inv used un G0 HG0) as Hacc.
    destruct (filter_raising_Ok _ _ _ Hun) as [_ Hin].
    destruct un as [|m ms].
    { intros Hn. destruct (Hacc n Hn) as [?|[v Hv]]; [by left|].
      right. exists v. by apply has_edge_true. }
    rewrite attach_orphans_cons. intros Hn.
    assert (n = NO_VPC ∨ n ∈ node_ids G0) as [->|Hn0].
    { apply node_ids_foldl_out in Hn as [Hn|[?|Hn]].
      - apply elem_of_node_ids_add_node in Hn as [?|?]; [by right | by left].
      - by left.
      - right. by apply Hin in Hn as [? _]. }
    + left. by exists Sentinel.
    + destruct (Hacc n Hn0) as [?|[v Hv]]; [by left|]. right. exists v.
      apply has_edge_foldl_out. left. by apply has_edge_true.
  - intros [[st Hadd]|[v Hv]].
    + by eapply adds_are_nodes.
    + apply has_edge_true in Hv. by destruct (build_edges_closed _ _ _ _ Hb n v Hv).
Qed.

Lemma built_graph_node_set_witness :
  "db-1" ∈ node_ids small_graph
  ↔ (∃ st, adds small_inventory ∅ [] st "db-1")
    ∨ (∃ v, has_edge small_graph "db-1" v = true).
Proof.
  apply (built_graph_node_set small_inventory ∅ small_graph []). by vm_compute.
Defined.

(** ** Reachability and the rows of the diagrams *)

Lemma elem_of_expand G seen y :
  y ∈ expand G seen ↔ y ∈ seen ∨ ∃ x, x ∈ seen ∧ has_edge G x y = true.
Proof.
  unfold expand. rewrite elem_of_union, elem_of_list_to_set, list_elem_of_fmap.
  split.
  - intros [?|([x y'] & -> & [Hx Hin]%list_elem_of_filter)]; [by left|].
    right. exists x. split; [done|]. by apply has_edge_true.
  - intros [?|(x & Hx & Hxy%has_edge_true)]; [by left|].
    right. exists (x, y). split; [done|]. by apply list_elem_of_filter.
Qed.

Lemma expand_incl G seen : seen ⊆ expand G seen.
Proof. intros x Hx. apply elem_of_expand. by left. Qed.

Lemma reach_incl rounds G seen : seen ⊆ reach rounds G seen.
Proof.
  revert seen. induction rounds as [|k IH]; intros seen; simpl; [done|].
  etrans; [apply expand_incl | apply IH].
Qed.

Lemma reach_sound rounds G seen n :
  n ∈ reach rounds G seen → ∃ s, s ∈ seen ∧ reachable G s n.
Proof.
  revert seen. induction rounds as [|k IH]; intros seen; simpl.
  - intros Hn. exists n. split; [done | apply rtc_refl].
  - intros (s & [Hs|(x & Hx & Hxs)]%elem_of_expand & Hsn)%IH.
    + by exists s.
    + exists x. split; [done|]. by eapply rtc_l.
Qed.

Lemma reach_fixed rounds G seen : expand G seen = seen → reach rounds G seen = seen.
Proof.
  intros Hfix. induction rounds as [|k IH]; simpl; [done|]. by rewrite Hfix.
Qed.

Lemma reach_nodes rounds G seen (V : gset string) :
  (∀ x y, has_edge G x y = true → y ∈ V) → seen ⊆ V → reach rounds G seen ⊆ V.
Proof.
  intros HV. revert seen. induction rounds as [|k IH]; intros seen Hseen; simpl; [done|].
  apply IH. intros y [Hy|(x & _ & Hxy)]%elem_of_expand; [by apply Hseen | by eapply HV].
Qed.

(** Each round either adds a node or the set is closed under the edges. *)
Lemma reach_closed_or_grows rounds G seen :
  expand G (reach rounds G seen) = reach rounds G seen
  ∨ size seen + rounds ≤ size (reach rounds G seen).
Proof.
  revert seen. induction rounds as [|k IH]; intros seen; simpl; [right; lia|].
  destruct (decide (expand G seen ⊆ seen)) as [Hclosed|Hgrow].
  - left. assert (expand G seen = seen) as Hfix.
    { apply set_eq. intros x. split; [apply Hclosed | apply expand_incl]. }
    rewrite Hfix, reach_fixed by done. done.
  - destruct (IH (expand G seen)) as [?|Hsize]; [by left|]. right.
    assert (seen ⊂ expand G seen) as Hlt.
    { split; [apply expand_incl | done]. }
    apply subset_size in Hlt. lia.
Qed.

Lemma size_list_to_set_le (l : list string) : size (list_to_set l : gset string) ≤ length l.
Proof.
  induction l as [|x l IH].
  - change (size (∅ : gset string) ≤ 0). by rewrite size_empty.
  - change (size ({[x]} ∪ list_to_set l : gset string) ≤ S (length l)).
    rewrite size_union_alt, size_singleton.
    assert (size (list_to_set l ∖ {[x]} : gset string) ≤ size (list_to_set l : gset string))
      as Hle.
    { apply subseteq_size. intros y Hy. by apply elem_of_difference in Hy as [? _]. }
    lia.
Qed.

Lemma reach_closed G source :
  edges_closed G → source ∈ node_ids G →
  expand G (reach (length (nodes G)) G {[source]}) = reach (length (nodes G)) G {[source]}.
Proof.
  intros Hclosed Hsrc.
  destruct (reach_closed_or_grows (length (nodes G)) G {[source]}) as [?|Hsize]; [done|].
  exfalso. rewrite size_singleton in Hsize.
  assert (reach (length (nodes G)) G {[source]} ⊆ list_to_set (node_ids G)) as Hin.
  { apply reach_nodes.
    - intros x y Hxy%has_edge_true. apply elem_of_list_to_set.
      by destruct (Hclosed x y Hxy).
    - intros x ->%elem_of_singleton. by apply elem_of_list_to_set. }
  apply subseteq_size in Hin. pose proof (size_list_to_set_le (node_ids G)) as Hle.
  unfold node_ids in Hle at 2. rewrite length_fmap in Hle. lia.
Qed.

Lemma row_nodes_reach G root :
  has_node G root = true →
  row_nodes G root = Some (reach (length (nodes G)) G {[root]}).
Proof.
  intros Hroot. unfold row_nodes, descendants. rewrite Hroot. simpl. f_equal.
  apply set_eq. intros x.
  rewrite elem_of_union, elem_of_difference, elem_of_singleton. split.
  - intros [->|[? _]]; [|done]. apply reach_incl. by apply elem_of_singleton.
  - intros Hx. destruct (decide (x = root)); [by left | by right].
Qed.

Lemma row_nodes_reachable G root row n :
  edges_closed G → row_nodes G root = Some row → n ∈ row ↔ reachable G root n.
Proof.
  intros Hclosed Hrow.
  assert (has_node G root = true) as Hroot.
  { unfold row_nodes, descendants in Hrow. by destruct (has_node G root). }
  rewrite row_nodes_reach in Hrow by done. injection Hrow as <-. split.
  - intros (s & ->%elem_of_singleton & Hsn)%reach_sound. done.
  - pose proof (reach_closed G root Hclosed (proj1 (has_node_true _ _) Hroot)) as Hfix.
    revert n. apply (rtc_ind_r (λ n, n ∈ reach (length (nodes G)) G {[root]})).
    + apply reach_incl. by apply elem_of_singleton.
    + intros y z _ Hyz IH. rewrite <- Hfix. apply elem_of_expand. right. by exists y.
Qed.

Lemma built_edge_reachable inv used G un u v :
  build inv = Ok (used, G, un) → built_edge inv used u v → reachable G u v.
Proof.
  intros (G0 & HG0 & _ & ->)%build_Ok Huv. apply rtc_once.
  apply has_edge_true.
  apply (kept_attach (λ G, (u, v) ∈ edges G)); [done | |].
  - intros. by apply edge_kept_edge.
  - by eapply build_graph_edges_complete.
Qed.

(** X12: for the graph [main] draws from, [nx.descendants] is defined at
    every container and, when something is unattached, at the sentinel; the
    row of a diagram is exactly the set of nodes that a path of edges reaches
    from its root, and the orphan row holds every unattached node. *)
Theorem diagram_rows (inv : inventory) (used : gset string) (G : DiGraph)
    (un : list string) :
  build inv = Ok (used, G, un) →
  (∀ v, v ∈ vpcs inv →
        ∃ row, row_nodes G (Vpc.VpcId v) = Some row
               ∧ ∀ n, n ∈ row ↔ reachable G (Vpc.VpcId v) n) ∧
  (un ≠ [] →
   ∃ row, row_nodes G NO_VPC = Some row
          ∧ (∀ n, n ∈ row ↔ reachable G NO_VPC n)
          ∧ ∀ n, n ∈ un → n ∈ row).
Proof.
  intros Hb. pose proof (build_edges_closed _ _ _ _ Hb) as Hclosed.
  assert (∀ root, root ∈ node_ids G →
                  ∃ row, row_nodes G root = Some row
                         ∧ ∀ n, n ∈ row ↔ reachable G root n) as Hrow.
  { intros root Hroot%has_node_true. eexists. split; [by apply row_nodes_reach|].
    intros n. apply row_nodes_reachable; [done | by apply row_nodes_reach]. }
  split.
  - intros v Hv. apply Hrow.
    apply (adds_are_nodes _ _ _ _ Containers _ Hb). by exists v.
  - intros Hne.
    destruct (Hrow NO_VPC) as (row & Hr & Hreach).
    { by apply (adds_are_nodes _ _ _ _ Sentinel _ Hb). }
    exists row. split_and!; [done..|]. intros n Hn. apply Hreach, rtc_once.
    apply build_Ok in Hb as (G0 & _ & _ & ->).
    destruct un as [|m ms]; [done|]. rewrite attach_orphans_cons.
    apply has_edge_foldl_out. by right.
Qed.

Lemma diagram_rows_witness :
  ∃ row, row_nodes (attach_orphans (add_db empty_graph (DBInstance.mk "db-1" None))
                                   ["db-1"]) NO_VPC = Some row
         ∧ "db-1" ∈ row.
Proof.
  destruct (diagram_rows
              orphan_db_inventory ∅
              (attach_orphans (add_db empty_graph (DBInstance.mk "db-1" None)) ["db-1"])
              ["db-1"]) as [_ Horphan].
  - reflexivity.
  - destruct Horphan as (row & Hrow & _ & Hun); [done|].
    exists row. split; [done|]. apply Hun. left.
Defined.

(** X13: the diagram of a container shows each subnet of that container and
    each database that lists such a subnet; it shows each load balancer of
    that container with a used name, and each service bound to a target
    group of that container. *)
Theorem container_diagram_contents (inv : inventory) (used : gset string) (G : DiGraph)
    (un : list string) (v : Vpc.t) :
  build inv = Ok (used, G, un) →
  v ∈ vpcs inv →
  ∃ row, row_nodes G (Vpc.VpcId v) = Some row ∧
    Vpc.VpcId v ∈ row ∧
    (∀ s, s ∈ subs inv → Subnet.VpcId s = Vpc.VpcId v →
          Subnet.SubnetId s ∈ row ∧
          ∀ db, db ∈ rds inv → Subnet.SubnetId s ∈ listed_subnet_ids db →
                DBInstance.DBInstanceIdentifier db ∈ row) ∧
    (∀ lb, lb ∈ lbs inv → LoadBalancer.VpcId lb = Vpc.VpcId v →
           LoadBalancer.LoadBalancerName lb ∈ used →
           lb_node_id (LoadBalancer.LoadBalancerName lb) ∈ row) ∧
    (∀ svc lb tg_arn, svc ∈ ecs_services inv →
                      lb ∈ default [] (Service.loadBalancers svc) →
                      Binding.targetGroupArn lb = Some tg_arn → tg_arn ≠ "" →
                      tg_to_vpc inv !! tg_arn = Some (Vpc.VpcId v) →
                      service_node_id (Service.serviceName svc) ∈ row).
Proof.
  intros Hb Hv. pose proof (build_edges_closed _ _ _ _ Hb) as Hclosed.
  assert (has_node G (Vpc.VpcId v) = true) as Hroot.
  { apply has_node_true, (adds_are_nodes _ _ _ _ Containers _ Hb). by exists v. }
  eexists. split; [by apply row_nodes_reach|].
  assert (∀ n, n ∈ reach (length (nodes G)) G {[Vpc.VpcId v]}
               ↔ reachable G (Vpc.VpcId v) n) as Hreach.
  { intros n. apply row_nodes_reachable; [done | by apply row_nodes_reach]. }
  split_and!.
  - apply Hreach, rtc_refl.
  - intros s Hs Hvpc.
    assert (reachable G (Vpc.VpcId v) (Subnet.SubnetId s)) as Hsub.
    { rewrite <- Hvpc. eapply built_edge_reachable; [done|]. by apply subnet_edge. }
    split; [by apply Hreach|]. intros db Hdb Hsn. apply Hreach.
    eapply rtc_trans; [exact Hsub|].
    eapply built_edge_reachable; [done|]. by apply db_edge.
  - intros lb Hlb Hvpc Hused. apply Hreach. rewrite <- Hvpc.
    eapply built_edge_reachable; [done|]. by apply lb_edge.
  - intros svc lb tg_arn Hsvc Hlb Harn Hne Htg. apply Hreach.
    eapply built_edge_reachable; [done|]. by eapply anchor_edge.
Qed.

Lemma container_diagram_contents_witness :
  ∃ row, row_nodes small_graph "vpc-1" = Some row ∧ "vpc-1" ∈ row.
Proof.
  destruct (container_diagram_contents
              small_inventory ∅ small_graph [] (Vpc.mk "vpc-1" (Some "10.0.0.0/16")))
    as (row & Hrow & Hroot & _).
  - by vm_compute.
  - left.
  - by exists row.
Defined.

(** ** The subgraph of a row *)

Lemma node_attrs_filter (row : gset string) l n :
  node_attrs (filter (λ p : string * attrs, p.1 ∈ row) l) n
  = if decide (n ∈ row) then node_attrs l n else None.
Proof.
  induction l as [|[m b] l IH]; [by case_decide|].
  destruct (decide (m ∈ row)) as [Hm|Hm].
  - rewrite filter_cons_True by done. cbn [node_attrs].
    destruct (String.eqb_spec m n) as [->|Hne]; [|done].
    by case_decide.
  - rewrite filter_cons_False by done. rewrite IH. cbn [node_attrs].
    destruct (String.eqb_spec m n) as [->|Hne]; [|done].
    by case_decide.
Qed.

Lemma node_attrs_of_elem l n a : NoDup l.*1 → (n, a) ∈ l → node_attrs l n = Some a.
Proof.
  induction l as [|[m b] l IH]; intros Hnd Hin; [by inversion Hin|].
  rewrite fmap_cons in Hnd. apply NoDup_cons in Hnd as [Hm Hnd]. simpl in *.
  apply elem_of_cons in Hin as [[= -> ->]|Hin].
  - by rewrite String.eqb_refl.
  - destruct (String.eqb_spec m n) as [->|Hne]; [|by apply IH].
    exfalso. apply Hm. apply list_elem_of_fmap. by exists (n, a).
Qed.

Lemma build_NoDup inv used G un : build inv = Ok (used, G, un) → NoDup (node_ids G).
Proof.
  intros (G0 & HG0 & _ & ->)%build_Ok.
  apply NoDup_attach_orphans. by destruct (build_graph_inv _ _ _ HG0).
Qed.

Lemma row_in_nodes G root row n :
  edges_closed G → row_nodes G root = Some row → n ∈ row → n ∈ node_ids G.
Proof.
  intros Hclosed Hrow Hn.
  assert (has_node G root = true) as Hroot.
  { unfold row_nodes, descendants in Hrow. by destruct (has_node G root). }
  apply (row_nodes_reachable _ _ _ _ Hclosed Hrow) in Hn.
  apply has_node_true in Hroot. revert n Hn.
  apply (rtc_ind_r (λ n, n ∈ node_ids G)); [done|].
  intros y z _ Hyz%has_edge_true _. by destruct (Hclosed y z Hyz).
Qed.

Lemma node_attrs_omap G (order : list string) n :
  node_attrs (omap (λ m, a ← node_attrs (nodes G) m; Some (m, a)) order) n
  = if decide (n ∈ order) then node_attrs (nodes G) n else None.
Proof.
  induction order as [|m order IH].
  { simpl. destruct (decide (n ∈ [])) as [H|]; [by inversion H | done]. }
  cbn [omap list_omap]. destruct (node_attrs (nodes G) m) as [b|] eqn:Hm; simpl.
  - destruct (String.eqb_spec m n) as [->|Hne].
    + rewrite decide_True by left. by rewrite Hm.
    + rewrite IH. destruct (decide (n ∈ order)) as [Hin|Hin].
      * by rewrite decide_True by (by right).
      * rewrite decide_False; [done|]. by intros [->|?]%elem_of_cons.
  - rewrite IH. destruct (decide (n ∈ order)) as [Hin|Hin].
    + by rewrite decide_True by (by right).
    + destruct (decide (n ∈ m :: order)) as [[->|?]%elem_of_cons|_]; done.
Qed.

Lemma node_ids_omap G (order : list string) :
  (∀ n, n ∈ order → n ∈ node_ids G) →
  (omap (λ m, a ← node_attrs (nodes G) m; Some (m, a)) order).*1 = order.
Proof.
  induction order as [|m order IH]; intros Hin; [done|].
  cbn [omap list_omap].
  destruct (proj2 (node_attrs_Some_elem (nodes G) m)) as [b Hb]; [apply Hin; left|].
  rewrite Hb. simpl. f_equal. apply IH. intros n Hn. apply Hin. by right.
Qed.

Lemma node_ids_filter (row : gset string) (l : list (string * attrs)) :
  (filter (λ p : string * attrs, p.1 ∈ row) l).*1 = filter (λ n, n ∈ row) l.*1.
Proof.
  induction l as [|[m b] l IH]; [done|].
  rewrite fmap_cons. simpl. destruct (decide (m ∈ row)) as [Hm|Hm].
  - rewrite !filter_cons_True by done. rewrite fmap_cons. simpl. by rewrite IH.
  - by rewrite !filter_cons_False by done.
Qed.

(** The nodes of the copy, whatever the order of the iteration. *)
Lemma subgraph_nodes (set_order : gset string → list string) G (row : gset string) :
  (∀ X, set_order X ≡ₚ elements X) →
  NoDup (node_ids G) →
  (∀ n, n ∈ row → n ∈ node_ids G) →
  NoDup (node_ids (subgraph set_order G row)) ∧
  (∀ n, n ∈ node_ids (subgraph set_order G row) ↔ n ∈ row) ∧
  (∀ n, n ∈ row →
        node_attrs (nodes (subgraph set_order G row)) n = node_attrs (nodes G) n).
Proof.
  intros Horder Hnd Hin.
  assert (filter (λ n, n ∈ node_ids G) row = row) as Hok.
  { apply set_eq. intros n. rewrite elem_of_filter. split; [by intros [_ ?]|].
    intros Hn. split; [by apply Hin | done]. }
  unfold subgraph. cbv zeta. rewrite Hok. unfold node_ids. cbn [nodes].
  destruct (2 * size row <? length (nodes G))%nat.
  - rewrite node_ids_omap.
    2:{ intros n Hn. apply Hin. rewrite Horder in Hn. by apply elem_of_elements in Hn. }
    split_and!.
    + rewrite Horder. apply NoDup_elements.
    + intros n. by rewrite Horder, elem_of_elements.
    + intros n Hn. rewrite node_attrs_omap, decide_True; [done|].
      rewrite Horder. by apply elem_of_elements.
  - rewrite node_ids_filter. split_and!.
    + by apply NoDup_filter.
    + intros n. rewrite list_elem_of_filter. split; [by intros [? _]|].
      intros Hn. split; [done | by apply Hin].
    + intros n Hn. by rewrite node_attrs_filter, decide_True.
Qed.

(** X14: the subgraph drawn for a root has exactly the nodes of the row, each
    once and with its attributes, whatever the order in which the library
    copies them, and exactly the edges of the graph that leave a node of the
    row: no edge of a shown node is cut off. *)
Theorem subgraph_of_row (set_order : gset string → list string) (inv : inventory)
    (used : gset string) (G : DiGraph) (un : list string) (root : string)
    (row : gset string) :
  (∀ X, set_order X ≡ₚ elements X) →
  build inv = Ok (used, G, un) →
  row_nodes G root = Some row →
  NoDup (node_ids (subgraph set_order G row)) ∧
  (∀ n, n ∈ node_ids (subgraph set_order G row) ↔ n ∈ row) ∧
  (∀ n, n ∈ row →
        node_attrs (nodes (subgraph set_order G row)) n = node_attrs (nodes G) n) ∧
  (∀ u v, has_edge (subgraph set_order G row) u v = true
          ↔ u ∈ row ∧ has_edge G u v = true).
Proof.
  intros Horder Hb Hrow. pose proof (build_edges_closed _ _ _ _ Hb) as Hclosed.
  destruct (subgraph_nodes set_order G row Horder) as (Hnd & Hmem & Hattrs).
  { by eapply build_NoDup. }
  { intros n Hn. by eapply row_in_nodes. }
  split_and!; [done..|].
  intros u v. rewrite !has_edge_true. unfold subgraph. cbn [edges].
  rewrite list_elem_of_filter. simpl. split; [by intros [[? _] ?]|].
  intros [Hu Huv]. split_and!; [done| |done].
  apply (row_nodes_reachable _ _ _ _ Hclosed Hrow).
  apply (row_nodes_reachable _ _ _ _ Hclosed Hrow) in Hu.
  eapply rtc_r; [exact Hu|]. by apply has_edge_true.
Qed.

Lemma subgraph_of_row_witness :
  "db-1" ∈ node_ids (subgraph elements small_graph {["subnet-1"; "db-1"]})
  ↔ "db-1" ∈ ({["subnet-1"; "db-1"]} : gset string).
Proof.
  destruct (subgraph_of_row elements small_inventory ∅ small_graph [] "subnet-1"
              {["subnet-1"; "db-1"]}) as (_ & Hmem & _).
  - intros X. reflexivity.
  - by vm_compute.
  - by vm_compute.
  - exact (Hmem "db-1").
Defined.

(** ** Short names and marks *)

Lemma str_take_length k s : String.length (str_take k s) = Nat.min k (String.length s).
Proof.
  revert s. induction k as [|k IH]; intros [|c s]; simpl; [done..|]. by rewrite IH.
Qed.

Lemma str_take_all k s : String.length s ≤ k → str_take k s = s.
Proof.
  revert s. induction k as [|k IH]; intros [|c s]; simpl; [done|lia|done|].
  intros Hlen. rewrite IH; [done | lia].
Qed.

Lemma append_cons c s t : String c s +:+ t = String c (s +:+ t).
Proof. done. Qed.

Lemma append_nil t : "" +:+ t = t.
Proof. done. Qed.

Lemma str_take_prefix k s : ∃ rest, s = str_take k s +:+ rest.
Proof.
  revert s. induction k as [|k IH]; intros s.
  - exists s. by destruct s.
  - destruct s as [|c s]; [by exists ""|]. destruct (IH s) as [rest Hrest].
    exists rest. simpl. rewrite append_cons. by f_equal.
Qed.

Lemma str_take_no_char c k s : contains_char c s = false → contains_char c (str_take k s) = false.
Proof.
  revert s. induction k as [|k IH]; intros [|d s]; simpl; [done..|].
  intros [Hd Hs]%orb_false_iff. rewrite Hd. simpl. by apply IH.
Qed.

Lemma split_single sep s : contains_char sep s = false → split sep s = [s].
Proof.
  induction s as [|c s IH]; simpl; [done|].
  intros [Hc Hs]%orb_false_iff. rewrite Hc. by rewrite IH.
Qed.

Lemma split_last_after_sep sep p s :
  contains_char sep s = false → last (split sep (p +:+ String sep s)) = Some s.
Proof.
  intros Hs. induction p as [|c p IH].
  - rewrite append_nil. simpl. rewrite Ascii.eqb_refl. by rewrite split_single.
  - rewrite append_cons. simpl.
    pose proof (split_length sep (p +:+ String sep s)) as Hlen.
    destruct (Ascii.eqb c sep).
    + destruct (split sep (p +:+ String sep s)) as [|h t]; [simpl in Hlen; lia|].
      exact IH.
    + assert (2 ≤ length (split sep (p +:+ String sep s))) as Hlen2.
      { apply contains_char_split. clear. induction p as [|d p IH].
        - rewrite append_nil. simpl. by rewrite Ascii.eqb_refl.
        - rewrite append_cons. simpl. rewrite IH. apply orb_true_r. }
      destruct (split sep (p +:+ String sep s)) as [|h [|h' t]];
        [simpl in Hlen2; lia..|].
      exact IH.
Qed.

Lemma short_name_Ok n : ∃ short, short_name n = Ok short.
Proof.
  unfold short_name. destruct (contains_char ":" n); [|by eexists].
  destruct (split_last_Ok ":" n) as [tail ->]. by eexists.
Qed.

Lemma short_name_colon n tail :
  contains_char ":" n = true → getitem (split ":" n) (-1) = Ok tail →
  short_name n = Ok (str_take 10 tail).
Proof. intros Hc Htail. unfold short_name. by rewrite Hc, Htail. Qed.

(** X15: the short name of a node id is always defined; with a ':' in the id
    it is the first ten characters of what follows the last ':', so it has no
    ':' itself, and for a synthetic id whose name has no ':' it is the first
    ten characters of the name; without a ':' it is the first twelve
    characters of the id, the whole id when that is no longer. *)
Theorem short_name_of_id (n : string) :
  ∃ short,
    short_name n = Ok short ∧
    String.length short ≤ 12 ∧
    (contains_char ":" n = true →
     String.length short ≤ 10 ∧ contains_char ":" short = false ∧
     ∀ p name, n = p +:+ ":" +:+ name → contains_char ":" name = false →
               short = str_take 10 name) ∧
    (contains_char ":" n = false →
     short = str_take 12 n ∧ (String.length n ≤ 12 → short = n)).
Proof.
  destruct (contains_char ":" n) eqn:Hc.
  - destruct (split_last_Ok ":" n) as [tail Htail].
    exists (str_take 10 tail). rewrite (short_name_colon n tail Hc Htail).
    rewrite getitem_last in Htail.
    destruct (last (split ":" n)) as [tail'|] eqn:Hlast; [|done].
    injection Htail as ->.
    assert (String.length (str_take 10 tail) ≤ 10) as Hlen.
    { rewrite str_take_length. lia. }
    split; [done|]. split; [lia|]. split; [|done]. intros _. split_and!; [done| |].
    + apply str_take_no_char, (split_no_sep ":" n).
      apply last_Some in Hlast as [l' ->]. apply elem_of_app. right. left.
    + intros p name -> Hname.
      change (p +:+ ":" +:+ name) with (p +:+ String ":" name) in Hlast.
      rewrite split_last_after_sep in Hlast by done. by injection Hlast as <-.
  - exists (str_take 12 n). unfold short_name. rewrite Hc.
    split; [done|]. split; [rewrite str_take_length; lia|].
    split; [done|]. intros _. split; [done|]. intros Hlen. by rewrite str_take_all.
Qed.

Lemma short_name_of_id_witness :
  short_name (service_node_id "checkout-service") = Ok "checkout-s".
Proof.
  destruct (short_name_of_id (service_node_id "checkout-service"))
    as (short & Hshort & _ & Hcolon & _).
  destruct Hcolon as (_ & _ & Hname); [reflexivity|].
  rewrite Hshort. f_equal. apply (Hname "SVC" "checkout-service"); reflexivity.
Defined.

Lemma build_attrs_by_kind inv used G un :
  build inv = Ok (used, G, un) → attrs_by_kind G.
Proof.
  apply (build_ind attrs_by_kind).
  - by intros n a.
  - intros. by apply attrs_by_kind_add_node.
  - intros. by apply attrs_by_kind_add_edge.
Qed.

Lemma draw_node_Ok n a :
  ∃ short, short_name n = Ok short ∧
           draw_node (n, a)
           = Ok {| mark_id := n;
                   tier := default 99%Z (layer a);
                   fill := default "gray" (color a);
                   text := default n (label a) +:+ nl +:+ short |}.
Proof.
  destruct (short_name_Ok n) as [short Hshort]. exists short. split; [done|].
  unfold draw_node. simpl. by rewrite Hshort.
Qed.

Lemma draw_nodes_Ok ps :
  ∃ ms, draw_nodes ps = Ok ms ∧ map mark_id ms = ps.*1 ∧
        ∀ m, m ∈ ms → ∃ a, (mark_id m, a) ∈ ps ∧ draw_node (mark_id m, a) = Ok m.
Proof.
  induction ps as [|[n a] ps (ms & Hms & Hids & Hall)]; simpl.
  - exists []. split_and!; [done..|]. intros m Hm. by inversion Hm.
  - destruct (draw_node_Ok n a) as (short & _ & Hdraw). rewrite Hdraw, Hms. simpl.
    eexists. split_and!; [done| |].
    + simpl. by rewrite Hids.
    + intros m [->|Hm]%elem_of_cons.
      * exists a. simpl. split; [left | done].
      * destruct (Hall m Hm) as (b & Hb & Hdb). exists b. split; [by right | done].
Qed.

Lemma step_attrs_style a :
  step_attrs a →
  ∃ k c l, a = mk_attrs l c k ∧ (k, c) ∈ kind_styles.
Proof.
  unfold kind_styles. intros []; eexists _, _, _; (split; [reflexivity|]).
  - left.
  - right. left.
  - do 2 right. left.
  - do 3 right. left.
  - do 4 right. left.
  - do 5 right. left.
  - do 6 right. left.
Qed.

(** X16: drawing the nodes of a diagram never fails, and there is exactly one
    mark per node of the row.  A node created by a step is drawn on the layer
    and in the colour of its kind, with its label above its short name; a
    node that is only an edge end is drawn on layer 99 in gray, with its own
    id as label. *)
Theorem picture_marks (set_order : gset string → list string) (inv : inventory)
    (used : gset string) (G : DiGraph) (un : list string) (root : string)
    (row : gset string) :
  (∀ X, set_order X ≡ₚ elements X) →
  build inv = Ok (used, G, un) →
  row_nodes G root = Some row →
  ∃ ms, picture set_order G root = Some (Ok ms) ∧
        map mark_id ms ≡ₚ elements row ∧
        ∀ m, m ∈ ms →
             ∃ a short,
               node_attrs (nodes G) (mark_id m) = Some a ∧
               short_name (mark_id m) = Ok short ∧
               ((∃ l, a = mk_attrs l (fill m) (tier m) ∧ step_attrs a
                      ∧ (tier m, fill m) ∈ kind_styles
                      ∧ text m = l +:+ nl +:+ short)
                ∨ (a = no_attrs ∧ (tier m, fill m) = default_style
                   ∧ text m = mark_id m +:+ nl +:+ short)).
Proof.
  intros Horder Hb Hrow. unfold picture. rewrite Hrow. cbn [mbind option_bind].
  pose proof (build_edges_closed _ _ _ _ Hb) as Hclosed.
  destruct (subgraph_nodes set_order G row Horder) as (Hnd & Hmem & Hattrs).
  { by eapply build_NoDup. }
  { intros n Hn. by eapply row_in_nodes. }
  destruct (draw_nodes_Ok (nodes (subgraph set_order G row)))
    as (ms & Hms & Hids & Hall).
  exists ms. split_and!; [by rewrite Hms| |].
  - rewrite Hids. apply NoDup_Permutation; [done | apply NoDup_elements|].
    intros n. by rewrite elem_of_elements.
  - intros m Hm. destruct (Hall m Hm) as (a & Ha & Hdraw).
    assert (mark_id m ∈ row) as Hin.
    { apply Hmem. unfold node_ids. apply list_elem_of_fmap. by exists (mark_id m, a). }
    apply node_attrs_of_elem in Ha; [|done]. rewrite Hattrs in Ha by done.
    destruct (draw_node_Ok (mark_id m) a) as (short & Hshort & Hdraw').
    rewrite Hdraw' in Hdraw. injection Hdraw as Hm'.
    exists a, short. split_and!; [done..|].
    destruct (build_attrs_by_kind _ _ _ _ Hb _ _ Ha) as [->|Hk].
    + right. rewrite <- Hm'. done.
    + left. destruct (step_attrs_style a Hk) as (k & c & l & -> & Hstyle).
      exists l. rewrite <- Hm'. done.
Qed.

Lemma picture_marks_witness :
  ∃ ms, picture elements small_graph "subnet-1" = Some (Ok ms)
        ∧ map mark_id ms ≡ₚ elements ({["subnet-1"; "db-1"]} : gset string).
Proof.
  destruct (picture_marks elements small_inventory ∅ small_graph [] "subnet-1"
              {["subnet-1"; "db-1"]}) as (ms & Hms & Hids & _).
  - intros X. reflexivity.
  - by vm_compute.
  - by vm_compute.
  - exists ms. split; [exact Hms | exact Hids].
Defined.

(** ** The files [main] writes *)

Lemma append_length s t : String.length (s +:+ t) = String.length s + String.length t.
Proof.
  induction s as [|c s IH]; [done|]. rewrite append_cons. simpl. by rewrite IH.
Qed.

Lemma append_suffix_inj s1 s2 t : s1 +:+ t = s2 +:+ t → s1 = s2.
Proof.
  revert s2. induction s1 as [|c s1 IH]; intros [|d s2] Heq.
  - done.
  - apply (f_equal String.length) in Heq.
    rewrite append_nil, append_cons in Heq. simpl in Heq.
    rewrite append_length in Heq. lia.
  - apply (f_equal String.length) in Heq.
    rewrite append_nil, append_cons in Heq. simpl in Heq.
    rewrite append_length in Heq. lia.
  - rewrite !append_cons in Heq. injection Heq as -> Heq. f_equal. by apply IH.
Qed.

(** X17: when the builder succeeds, [main] writes one file
    [<VpcId>_topology.png] per container, in the order of the input, and
    after them [NO_VPC_topology.png] exactly when something is unattached;
    the titles are [Topology for <VpcId>] and the orphan title.  If the
    container ids are pairwise different and none is [NO_VPC], no file is
    written twice. *)
Theorem output_files (inv : inventory) (used : gset string) (G : DiGraph)
    (un : list string) :
  build inv = Ok (used, G, un) →
  ∃ ds, main inv = Ok ds ∧
        map file ds
        = map (λ v, Vpc.VpcId v +:+ "_topology.png") (vpcs inv)
          ++ match un with [] => [] | _ :: _ => ["NO_VPC_topology.png"] end ∧
        map title ds
        = map (λ v, "Topology for " +:+ Vpc.VpcId v) (vpcs inv)
          ++ match un with [] => [] | _ :: _ => [orphan_title] end ∧
        (NoDup (vpc_ids inv) → NO_VPC ∉ vpc_ids inv → NoDup (map file ds)).
Proof.
  intros Hb. eexists. split; [by apply (main_spec _ _ _ _ Hb)|].
  assert (map file (map (vpc_diagram inv used) (vpcs inv))
          = map (λ v, Vpc.VpcId v +:+ "_topology.png") (vpcs inv)) as Hfiles.
  { rewrite map_map. done. }
  assert (NoDup (vpc_ids inv) →
          NoDup (map (λ v, Vpc.VpcId v +:+ "_topology.png") (vpcs inv))) as Hnd.
  { unfold vpc_ids. intros Hids.
    replace (map (λ v, Vpc.VpcId v +:+ "_topology.png") (vpcs inv))
      with ((λ n, n +:+ "_topology.png") <$> (map Vpc.VpcId (vpcs inv)))
      by (by rewrite <- list_fmap_compose).
    apply NoDup_fmap_2; [|done]. intros s1 s2. apply append_suffix_inj. }
  split_and!.
  - rewrite map_app, Hfiles. by destruct un.
  - rewrite !map_app, map_map. by destruct un.
  - intros Hids Hsent. rewrite map_app, Hfiles.
    destruct un as [|n ns]; simpl; [rewrite app_nil_r; by apply Hnd|].
    apply NoDup_app. split_and!; [by apply Hnd| |apply NoDup_singleton].
    intros f Hf Hf'. apply list_elem_of_singleton in Hf'. subst f.
    apply list_elem_of_fmap in Hf as (v & Heq & Hv).
    apply Hsent. unfold vpc_ids.
    change "NO_VPC_topology.png" with (NO_VPC +:+ "_topology.png") in Heq.
    apply append_suffix_inj in Heq. rewrite Heq. by apply list_elem_of_fmap_2.
Qed.

Lemma output_files_witness :
  ∃ ds, main small_inventory = Ok ds ∧ map file ds = ["vpc-1_topology.png"].
Proof.
  destruct (output_files small_inventory ∅ small_graph []) as (ds & Hmain & Hfiles & _).
  - by vm_compute.
  - exists ds. split; [done|]. rewrite Hfiles. reflexivity.
Defined.

(** ** Services in the orphan diagram *)

(** X18: when no subnet id and no database id contains a ':', the orphan
    diagram shows the cluster and the node of every service, also of a
    service that is bound to a container through a target group. *)
Theorem services_in_orphan_diagram (inv : inventory) (used : gset string) (G : DiGraph)
    (un : list string) (svc : Service.t) :
  build inv = Ok (used, G, un) →
  Forall (λ n, contains_char ":" n = false) (subnet_ids inv ++ db_ids inv) →
  svc ∈ ecs_services inv →
  ∃ row cluster_name,
    row_nodes G NO_VPC = Some row ∧
    getitem (split "/" (Service.clusterArn svc)) (-1) = Ok cluster_name ∧
    cluster_node_id cluster_name ∈ row ∧
    service_node_id (Service.serviceName svc) ∈ row.
Proof.
  intros Hb Hnat Hsvc.
  destruct (split_last_Ok "/" (Service.clusterArn svc)) as [c Hc].
  destruct (cluster_unattached _ _ _ _ _ _ Hb Hnat Hsvc Hc) as (Hun & Hedge & _).
  pose proof (build_edges_closed _ _ _ _ Hb) as Hclosed.
  assert (has_node G NO_VPC = true) as Hroot.
  { apply has_node_true, (adds_are_nodes _ _ _ _ Sentinel _ Hb).
    split; [|done]. intros ->. by inversion Hun. }
  exists (reach (length (nodes G)) G {[NO_VPC]}), c.
  assert (∀ n, n ∈ reach (length (nodes G)) G {[NO_VPC]} ↔ reachable G NO_VPC n)
    as Hreach.
  { intros n. apply row_nodes_reachable; [done | by apply row_nodes_reach]. }
  split_and!; [by apply row_nodes_reach | done | |].
  - by apply Hreach, rtc_once.
  - apply Hreach. eapply rtc_l; [exact Hedge|].
    eapply built_edge_reachable; [done|]. by apply cluster_edge.
Qed.

Lemma services_in_orphan_diagram_witness :
  ∃ row cluster_name,
    row_nodes (attach_orphans
                 {| nodes := [("CLUSTER:prod", mk_attrs "ECS Cluster" "lightyellow" 3);
                              ("SVC:web", mk_attrs ("ECS Service" +:+ nl +:+ "web") "gold" 4)];
                    edges := [("CLUSTER:prod", "SVC:web")] |}
                 ["CLUSTER:prod"]) NO_VPC = Some row ∧
    getitem (split "/" "arn:aws:ecs:us-east-1:123456789012:cluster/prod") (-1)
    = Ok cluster_name ∧
    cluster_node_id cluster_name ∈ row ∧
    service_node_id "web" ∈ row.
Proof.
  apply (services_in_orphan_diagram
           classic_lb_inventory {["classic-lb"]}
           (attach_orphans
              {| nodes := [("CLUSTER:prod", mk_attrs "ECS Cluster" "lightyellow" 3);
                           ("SVC:web", mk_attrs ("ECS Service" +:+ nl +:+ "web") "gold" 4)];
                 edges := [("CLUSTER:prod", "SVC:web")] |}
              ["CLUSTER:prod"])
           ["CLUSTER:prod"]
           (Service.mk "web" "arn:aws:ecs:us-east-1:123456789012:cluster/prod"
                       (Some [Binding.mk (Some "classic-lb") None]))).
  - by vm_compute.
  - constructor.
  - left.
Defined.

(** * References that do not resolve, the sentinel and the scan *)

(** ** The used-name scan on one ARN *)

Lemma scanned_name_from_arn (lb : Binding.t) (tg_arn : string) :
  truthy_opt (Binding.loadBalancerName lb) = false →
  Binding.targetGroupArn lb = Some tg_arn →
  (last (split ":" tg_arn) = Some "targetgroup/my-tg/abc123" →
   scanned_name lb = Some "my-tg") ∧
  (∀ tail, last (split ":" tg_arn) = Some tail →
           length (split "/" tail) < 2 →
           scanned_name lb = None).
Proof.
  intros Hname Harn. unfold scanned_name. rewrite Hname, Harn.
  cbn -[Nat.leb]. destruct (truthy tg_arn) eqn:Ht.
  - split.
    + intros ->. reflexivity.
    + intros tail -> Hlen. cbn -[Nat.leb].
      by apply Nat.leb_gt in Hlen as ->.
  - split; [|done].
    assert (tg_arn = "") as ->.
    { destruct (String.eqb_spec tg_arn ""); [done|].
      by apply truthy_true in n; rewrite n in Ht. }
    intros [=].
Qed.

(** The scan of the whole input against the scan of the input without one
    binding. *)
Lemma used_lb_names_without_binding (inv : inventory) (pre post : list Service.t)
    (svc : Service.t) (bpre bpost : list Binding.t) (lb : Binding.t) :
  ecs_services inv = pre ++ svc :: post →
  Service.loadBalancers svc = Some (bpre ++ lb :: bpost) →
  ∃ others : gset string,
    used_lb_names (with_services inv (pre ++ with_bindings svc (bpre ++ bpost) :: post))
    = Ok others ∧
    used_lb_names inv
    = Ok (match scanned_name lb with Some name => {[name]} ∪ others | None => others end).
Proof.
  intros Hsvcs Hlbs. eexists. split; [apply used_lb_names_scanned|].
  rewrite used_lb_names_scanned. f_equal. unfold all_bindings. rewrite Hsvcs.
  cbn [ecs_services with_services].
  rewrite !bind_app, !bind_cons, Hlbs.
  cbn [with_bindings Service.loadBalancers default from_option id].
  rewrite !omap_app. cbn [omap list_omap]. destruct (scanned_name lb); set_ext.
Qed.

(** C8: in the used-name scan of lines 43-53, a binding without a direct
    name whose target-group ARN ends, after its last colon, in
    [targetgroup/my-tg/abc123] contributes exactly the name [my-tg]: the set
    of used names is the set the scan finds without that binding, with
    [my-tg] added.  When that last component splits on '/' into fewer than
    two segments the binding contributes nothing: the set of used names is
    the set the scan finds without that binding. *)
Theorem used_name_from_arn (inv : inventory) (pre post : list Service.t)
    (svc : Service.t) (bpre bpost : list Binding.t) (lb : Binding.t) (tg_arn : string) :
  ecs_services inv = pre ++ svc :: post →
  Service.loadBalancers svc = Some (bpre ++ lb :: bpost) →
  truthy_opt (Binding.loadBalancerName lb) = false →
  Binding.targetGroupArn lb = Some tg_arn →
  ∃ others : gset string,
    used_lb_names (with_services inv (pre ++ with_bindings svc (bpre ++ bpost) :: post))
    = Ok others ∧
    (last (split ":" tg_arn) = Some "targetgroup/my-tg/abc123" →
     (∀ used, used_name_binding used lb = Ok ({["my-tg"]} ∪ used)) ∧
     used_lb_names inv = Ok ({["my-tg"]} ∪ others)) ∧
    (∀ tail, last (split ":" tg_arn) = Some tail →
             length (split "/" tail) < 2 →
             (∀ used, used_name_binding used lb = Ok used) ∧
             used_lb_names inv = Ok others).
Proof.
  intros Hsvcs Hlbs Hname Harn.
  destruct (used_lb_names_without_binding inv pre post svc bpre bpost lb Hsvcs Hlbs)
    as (others & Hothers & Hused).
  destruct (scanned_name_from_arn lb tg_arn Hname Harn) as [Hfound Hnone].
  exists others. split_and!; [done| |].
  - intros Hlast. split.
    + intros used. by apply (used_name_binding_from_arn used lb tg_arn).
    + by rewrite Hused, (Hfound Hlast).
  - intros tail Hlast Hlen. split.
    + intros used. by eapply (used_name_binding_from_arn used lb tg_arn).
    + by rewrite Hused, (Hnone tail Hlast Hlen).
Qed.

Lemma used_name_from_arn_witness :
  ∃ others : gset string,
    used_lb_names (with_services target_group_inventory
                     [Service.mk "web" "arn:aws:ecs:us-east-1:123456789012:cluster/prod"
                                 (Some [])])
    = Ok others ∧
    used_lb_names target_group_inventory = Ok ({["my-tg"]} ∪ others).
Proof.
  destruct (used_name_from_arn
              target_group_inventory [] []
              (Service.mk "web" "arn:aws:ecs:us-east-1:123456789012:cluster/prod"
                 (Some [Binding.mk None
                          (Some "arn:aws:elasticloadbalancing:us-east-1:123456789012:targetgroup/my-tg/abc123")]))
              [] []
              (Binding.mk None
                 (Some "arn:aws:elasticloadbalancing:us-east-1:123456789012:targetgroup/my-tg/abc123"))
              "arn:aws:elasticloadbalancing:us-east-1:123456789012:targetgroup/my-tg/abc123")
    as (others & Hothers & Hfound & _); [reflexivity..|].
  exists others. split; [exact Hothers|]. apply Hfound. reflexivity.
Defined.

(** ** Database edges in the graph of lines 43-103 *)

Lemma build_graph_NoDup_edges inv used G :
  build_graph inv = Ok (used, G) → NoDup (edges G).
Proof.
  apply (build_graph_ind inv (λ G, NoDup (edges G))).
  - by intros.
  - intros. by apply NoDup_edges_add_edge.
  - constructor.
Qed.

Lemma synthetic_id_colon name :
  contains_char ":" (lb_node_id name) = true ∧
  contains_char ":" (service_node_id name) = true ∧
  contains_char ":" (cluster_node_id name) = true.
Proof. by split_and!. Qed.

(** C9, at an input where it fails: a database lists the subnet [subnet-1],
    which is a node when the database step runs, and [subnet-gone], which is
    not.  One listed subnet is valid, and the database has two inbound
    edges; the final pass then raises [KeyError] on [subnet-gone], a node
    without a label. *)
Lemma stale_subnet_counted :
  for_each add_subnet (subs stale_subnet_inventory)
           (foldl add_vpc empty_graph (vpcs stale_subnet_inventory))
  = Ok {| nodes := [("vpc-1", mk_attrs ("VPC" +:+ nl +:+ "unknown") "skyblue" 2);
                    ("subnet-1", mk_attrs ("Subnet" +:+ nl +:+ "subnet-1") "lightgreen" 1)];
          edges := [("vpc-1", "subnet-1")] |} ∧
  build_graph stale_subnet_inventory
  = Ok (∅,
        {| nodes := [("vpc-1", mk_attrs ("VPC" +:+ nl +:+ "unknown") "skyblue" 2);
                     ("subnet-1", mk_attrs ("Subnet" +:+ nl +:+ "subnet-1") "lightgreen" 1);
                     ("db-1", mk_attrs "RDS" "plum" 0);
                     ("subnet-gone", no_attrs)];
           edges := [("vpc-1", "subnet-1"); ("subnet-1", "db-1");
                     ("subnet-gone", "db-1")] |}) ∧
  in_degree
    {| nodes := [("vpc-1", mk_attrs ("VPC" +:+ nl +:+ "unknown") "skyblue" 2);
                 ("subnet-1", mk_attrs ("Subnet" +:+ nl +:+ "subnet-1") "lightgreen" 1);
                 ("db-1", mk_attrs "RDS" "plum" 0);
                 ("subnet-gone", no_attrs)];
       edges := [("vpc-1", "subnet-1"); ("subnet-1", "db-1"); ("subnet-gone", "db-1")] |}
    "db-1"
  = 2 ∧
  build stale_subnet_inventory = Raise KeyError.
Proof. by vm_compute. Qed.

(** C9, as the code has it: in the graph of lines 43-103 every non-empty
    subnet identifier a database lists has an edge to the database, whether
    or not that subnet is a node of its own.  When the database's id has no
    ':', is no subnet id and belongs to no other database, these are all its
    inbound edges: their number is the number of different identifiers
    listed, and none when the subnet group or its list is missing or empty. *)
Theorem db_inbound_edges (inv : inventory) (used : gset string) (G : DiGraph)
    (db : DBInstance.t) :
  build_graph inv = Ok (used, G) →
  db ∈ rds inv →
  (∀ sn, sn ∈ listed_subnet_ids db →
         has_edge G sn (DBInstance.DBInstanceIdentifier db) = true) ∧
  (contains_char ":" (DBInstance.DBInstanceIdentifier db) = false →
   DBInstance.DBInstanceIdentifier db ∉ subnet_ids inv →
   (∀ db', db' ∈ rds inv →
           DBInstance.DBInstanceIdentifier db' = DBInstance.DBInstanceIdentifier db →
           db' = db) →
   (∀ u, has_edge G u (DBInstance.DBInstanceIdentifier db) = true
         ↔ u ∈ listed_subnet_ids db) ∧
   in_degree G (DBInstance.DBInstanceIdentifier db)
   = size (list_to_set (listed_subnet_ids db) : gset string) ∧
   (NoDup (listed_subnet_ids db) →
    in_degree G (DBInstance.DBInstanceIdentifier db) = length (listed_subnet_ids db)) ∧
   (DBInstance.DBSubnetGroup db = None
    ∨ DBInstance.DBSubnetGroup db = Some (DBSubnetGroup.mk None)
    ∨ DBInstance.DBSubnetGroup db = Some (DBSubnetGroup.mk (Some [])) →
    in_degree G (DBInstance.DBInstanceIdentifier db) = 0)).
Proof.
  intros HG Hdb.
  set (db_id := DBInstance.DBInstanceIdentifier db).
  assert (∀ sn, sn ∈ listed_subnet_ids db → has_edge G sn db_id = true) as Hlisted.
  { intros sn Hsn. apply has_edge_true.
    apply (build_graph_edges_complete _ _ _ _ _ HG). by apply db_edge. }
  split; [done|]. intros Hcolon Hsub Hone.
  assert (∀ u, has_edge G u db_id = true ↔ u ∈ listed_subnet_ids db) as Hiff.
  { intros u. split; [|by apply Hlisted]. intros Hu%has_edge_true.
    apply (build_graph_edges_sound _ _ _ _ _ HG) in Hu.
    inversion Hu as [s Hs Hsrc Htgt|db' sn Hdb' Hsn Hsrc Htgt|lb Hlb Hused Hsrc Htgt
                    |svc c Hsvc Hc Hsrc Htgt|svc lb name Hsvc Hlb Hres Hname Hsrc Htgt
                    |svc lb arn vpc_id Hsvc Hlb Harn Hne Htg Hsrc Htgt].
    - exfalso. apply Hsub. fold db_id. rewrite <- Htgt. unfold subnet_ids.
      by apply list_elem_of_fmap_2.
    - by rewrite <- (Hone db' Hdb' Htgt).
    - exfalso. fold db_id in Hcolon. rewrite <- Htgt in Hcolon.
      by destruct (synthetic_id_colon (LoadBalancer.LoadBalancerName lb)) as (E & _); congruence.
    - exfalso. fold db_id in Hcolon. rewrite <- Htgt in Hcolon.
      by destruct (synthetic_id_colon (Service.serviceName svc)) as (_ & E & _); congruence.
    - exfalso. fold db_id in Hcolon. rewrite <- Htgt in Hcolon.
      by destruct (synthetic_id_colon name) as (E & _); congruence.
    - exfalso. fold db_id in Hcolon. rewrite <- Htgt in Hcolon.
      by destruct (synthetic_id_colon (Service.serviceName svc)) as (_ & E & _); congruence. }
  assert (in_degree G db_id = size (list_to_set (listed_subnet_ids db) : gset string))
    as Hdeg.
  { rewrite in_degree_predecessors by (by eapply build_graph_NoDup_edges). f_equal.
    apply set_eq. intros u.
    by rewrite elem_of_predecessors, <- has_edge_true, Hiff, elem_of_list_to_set. }
  split_and!; [done..| |].
  - intros Hnd. by rewrite Hdeg, size_list_to_set.
  - intros Hmiss%db_subnets_missing. rewrite Hdeg. unfold listed_subnet_ids.
    by rewrite Hmiss.
Qed.

Lemma db_inbound_edges_witness :
  in_degree small_graph "db-1" = 1.
Proof.
  destruct (db_inbound_edges
              small_inventory ∅ small_graph
              (DBInstance.mk "db-1"
                 (Some (DBSubnetGroup.mk (Some [DBSubnet.mk (Some "subnet-1")])))))
    as (_ & Hexact).
  - by vm_compute.
  - left.
  - destruct Hexact as (_ & _ & Hdeg & _).
    + reflexivity.
    + apply (bool_decide_unpack _). by vm_compute.
    + intros db' Hdb' _. vm_compute in Hdb'.
      apply elem_of_cons in Hdb' as [->|Hdb']; [reflexivity | by inversion Hdb'].
    + apply Hdeg. apply (bool_decide_unpack _). by vm_compute.
Defined.

(** ** References that do not resolve *)

Lemma node_ids_link_lb sid o G n :
  n ∈ node_ids (link_lb sid o G)
  ↔ n ∈ node_ids G
    ∨ ∃ name, o = Some name ∧ name ≠ "" ∧ (n = sid ∨ n = lb_node_id name).
Proof.
  unfold link_lb. destruct (truthy_opt o) eqn:Ho.
  - apply truthy_opt_true' in Ho as (name & -> & Hname). simpl.
    rewrite elem_of_node_ids_add_edge.
    assert (n ∈ node_ids (if has_node G (lb_node_id name) then G
                          else add_node G (lb_node_id name) lb_attrs)
            ↔ n ∈ node_ids G ∨ n = lb_node_id name) as ->.
    { destruct (has_node G (lb_node_id name)) eqn:Hh.
      - apply has_node_true in Hh. split; [by left | by intros [?| ->]].
      - apply elem_of_node_ids_add_node. }
    split.
    + intros [[?| ->]|[->| ->]]; [by left|right; exists name; tauto..].
    + intros [?|(name' & [= <-] & _ & [->| ->])]; tauto.
  - split; [by left|]. intros [?|(name & -> & Hname & _)]; [done|].
    simpl in Ho. apply truthy_true in Hname. congruence.
Qed.

Lemma add_binding_unanchored to_vpc sid G lb G' :
  default "" (Binding.targetGroupArn lb) = ""
  ∨ to_vpc !! default "" (Binding.targetGroupArn lb) = None →
  add_binding to_vpc sid G lb = Ok G' →
  ∃ o, resolve_lb_name lb = Ok o ∧ G' = link_lb sid o G.
Proof.
  intros Harn (o & Ho & HG')%bind_Ok. injection HG' as <-.
  exists o. split; [done|]. unfold anchor_service.
  destruct Harn as [E|E]; rewrite E; [done|]. by destruct (truthy _).
Qed.

(** C3, as the code has it.  A subnet id listed by a database is not skipped
    when it is no node: the database step makes it a node and adds the edge
    subnet → database, and both are in the graph of lines 43-103.  A binding
    whose target-group ARN is empty or is no key of the target-group table
    adds no container → service edge and no container node: all it adds is
    what lines 95-99 add for the name line 93 resolves, the service and
    load-balancer ends of the edge service → load balancer.  In the graph of
    lines 43-103 an edge into a service node comes from the cluster of a
    service of that name, or from the container the table gives for the ARN
    of a binding of such a service, unless the id of the service node is also
    the id of a subnet or of a database. *)
Theorem missing_reference_behaviour (inv : inventory) (used : gset string)
    (G0 : DiGraph) :
  build_graph inv = Ok (used, G0) →
  (∀ db sn, db ∈ rds inv → sn ∈ listed_subnet_ids db →
            has_node G0 sn = true
            ∧ has_edge G0 sn (DBInstance.DBInstanceIdentifier db) = true) ∧
  (∀ G db sn, sn ∈ listed_subnet_ids db → has_node G sn = false →
              has_node (add_db G db) sn = true
              ∧ has_edge (add_db G db) sn (DBInstance.DBInstanceIdentifier db) = true) ∧
  (∀ sid G lb G',
     default "" (Binding.targetGroupArn lb) = ""
     ∨ tg_to_vpc inv !! default "" (Binding.targetGroupArn lb) = None →
     add_binding (tg_to_vpc inv) sid G lb = Ok G' →
     ∃ o, resolve_lb_name lb = Ok o ∧
          G' = link_lb sid o G ∧
          (∀ u v, has_edge G' u v = true
                  ↔ has_edge G u v = true
                    ∨ ∃ name, o = Some name ∧ name ≠ "" ∧ u = sid ∧ v = lb_node_id name) ∧
          (∀ n, n ∈ node_ids G'
                ↔ n ∈ node_ids G
                  ∨ ∃ name, o = Some name ∧ name ≠ "" ∧ (n = sid ∨ n = lb_node_id name))) ∧
  (∀ u name,
     has_edge G0 u (service_node_id name) = true →
     (∃ svc cluster_name,
        svc ∈ ecs_services inv ∧ Service.serviceName svc = name
        ∧ getitem (split "/" (Service.clusterArn svc)) (-1) = Ok cluster_name
        ∧ u = cluster_node_id cluster_name)
     ∨ (∃ svc lb tg_arn,
          svc ∈ ecs_services inv ∧ Service.serviceName svc = name
          ∧ lb ∈ default [] (Service.loadBalancers svc)
          ∧ Binding.targetGroupArn lb = Some tg_arn ∧ tg_arn ≠ ""
          ∧ tg_to_vpc inv !! tg_arn = Some u)
     ∨ service_node_id name ∈ subnet_ids inv
     ∨ service_node_id name ∈ db_ids inv).
Proof.
  intros HG0. split_and!.
  - intros db sn Hdb Hsn.
    assert ((sn, DBInstance.DBInstanceIdentifier db) ∈ edges G0) as Hedge.
    { apply (build_graph_edges_complete _ _ _ _ _ HG0). by apply db_edge. }
    split; [|by apply has_edge_true]. apply has_node_true.
    assert (edges_closed G0) as Hclosed.
    { apply (build_graph_ind inv edges_closed) with (used := used); [| | |done].
      - intros. by apply edges_closed_add_node.
      - intros. by apply edges_closed_add_edge.
      - by intros u v Huv; inversion Huv. }
    by destruct (Hclosed _ _ Hedge).
  - intros G db sn Hs _. rewrite add_db_listed. split.
    + apply has_node_true, node_ids_foldl_link. right.
      split; [by intros E; rewrite E in Hs; inversion Hs | by right].
    + apply has_edge_foldl_link. by right.
  - intros sid G lb G' Harn Hadd.
    destruct (add_binding_unanchored _ _ _ _ _ Harn Hadd) as (o & Ho & ->).
    exists o. split_and!; [done..| |].
    + intros u v. rewrite !has_edge_true, edges_link_lb. split.
      * intros [?|(name & -> & Hname & [= -> ->])]; [by left|]. right. by exists name.
      * intros [?|(name & -> & Hname & -> & ->)]; [by left|]. right. by exists name.
    + intros n. apply node_ids_link_lb.
  - intros u name Hu%has_edge_true.
    apply (build_graph_edges_sound _ _ _ _ _ HG0) in Hu.
    inversion Hu as [s Hs Hsrc Htgt|db' sn Hdb' Hsn Hsrc Htgt|lb Hlb Hused Hsrc Htgt
                    |svc c Hsvc Hc Hsrc Htgt|svc lb nm Hsvc Hlb Hres Hname Hsrc Htgt
                    |svc lb arn vpc_id Hsvc Hlb Harn Hne Htg Hsrc Htgt].
    + right. right. left. unfold subnet_ids. by apply list_elem_of_fmap_2.
    + right. right. right. unfold db_ids. by apply list_elem_of_fmap_2.
    + left. rewrite !append_nil in Htgt. by exists svc, c.
    + right. left. rewrite !append_nil in Htgt. by exists svc, lb, arn.
Qed.

Lemma missing_reference_behaviour_witness :
  (has_node (add_db empty_graph
               (DBInstance.mk "db-1"
                  (Some (DBSubnetGroup.mk (Some [DBSubnet.mk (Some "subnet-gone")])))))
            "subnet-gone" = true ∧
   has_edge (add_db empty_graph
               (DBInstance.mk "db-1"
                  (Some (DBSubnetGroup.mk (Some [DBSubnet.mk (Some "subnet-gone")])))))
            "subnet-gone" "db-1" = true) ∧
  ∃ o, resolve_lb_name (Binding.mk None (Some "arn:tg/none/1")) = Ok o ∧
       add_edge (add_node empty_graph "LB:none" lb_attrs) "SVC:api" "LB:none"
       = link_lb "SVC:api" o empty_graph.
Proof.
  destruct (missing_reference_behaviour
              unknown_arn_inventory {["none"; "known"]}
              {| nodes := [("vpc-1", mk_attrs ("VPC" +:+ nl +:+ "unknown") "skyblue" 2);
                           ("CLUSTER:prod", mk_attrs "ECS Cluster" "lightyellow" 3);
                           ("SVC:api", mk_attrs ("ECS Service" +:+ nl +:+ "api") "gold" 4);
                           ("LB:none", lb_attrs); ("LB:known", lb_attrs)];
                 edges := [("CLUSTER:prod", "SVC:api"); ("SVC:api", "LB:none");
                           ("SVC:api", "LB:known"); ("vpc-1", "SVC:api")] |})
    as (_ & Hdb & Hbinding & _).
  - by vm_compute.
  - split.
    + apply Hdb; [vm_compute; left | reflexivity].
    + destruct (Hbinding "SVC:api" empty_graph (Binding.mk None (Some "arn:tg/none/1"))
                  (add_edge (add_node empty_graph "LB:none" lb_attrs) "SVC:api" "LB:none"))
        as (o & Ho & HG & _).
      * right. reflexivity.
      * reflexivity.
      * by exists o.
Defined.

(** ** The sentinel's id *)

Lemma sentinel_id_absent inv used G :
  build_graph inv = Ok (used, G) →
  NO_VPC ∉ native_ids inv ++ referenced_ids inv →
  has_node G NO_VPC = false.
Proof.
  intros HG Habsent. destruct (has_node G NO_VPC) eqn:Hh; [|done].
  exfalso. apply Habsent. apply has_node_true in Hh.
  unfold native_ids, referenced_ids. rewrite !elem_of_app.
  destruct (accounted_build_graph inv used [] G HG NO_VPC Hh) as [[st Hadd]|[v Hv]].
  - pose proof (adds_native _ _ _ _ _ Hadd) as Hn.
    destruct st; simpl in Hn; [tauto..|done|done|done|].
    by destruct Hadd as [? _].
  - apply (build_graph_edges_sound _ _ _ _ _ HG) in Hv.
    inversion Hv as [s Hs Hsrc Htgt|db' sn Hdb' Hsn Hsrc Htgt|lb Hlb Hused Hsrc Htgt
                    |svc c Hsvc Hc Hsrc Htgt|svc lb nm Hsvc Hlb Hres Hname Hsrc Htgt
                    |svc lb arn vpc_id Hsvc Hlb Harn Hne Htg Hsrc Htgt].
    + right. left. by apply list_elem_of_fmap_2.
    + right. right. left. apply list_elem_of_bind. by exists db'.
    + right. right. right. left. by apply list_elem_of_fmap_2.
    + right. right. right. right.
      apply tg_to_vpc_value in Htg as (tg & Htg & Hvpc).
      rewrite <- Hvpc. by apply list_elem_of_fmap_2.
Qed.

(** C6, at an input where it fails: the only resource is a container whose
    id is [NO_VPC].  Nothing is unattached, yet the graph has a node [NO_VPC]
    and [main] writes [NO_VPC_topology.png], the diagram of that container. *)
Lemma sentinel_id_taken_by_container :
  build sentinel_named_inventory
  = Ok (∅,
        {| nodes := [(NO_VPC, mk_attrs ("VPC" +:+ nl +:+ "unknown") "skyblue" 2)];
           edges := [] |},
        []) ∧
  has_node {| nodes := [(NO_VPC, mk_attrs ("VPC" +:+ nl +:+ "unknown") "skyblue" 2)];
              edges := [] |} NO_VPC = true ∧
  main sentinel_named_inventory
  = Ok [ {| file := "NO_VPC_topology.png";
            title := "Topology for NO_VPC";
            legend := base_handles sentinel_named_inventory ∅ |} ].
Proof. by vm_compute. Qed.

(** C6, as the code has it: when the builder succeeds, the unattached list
    has no repetition and holds exactly the nodes of the graph built by the
    earlier steps whose in-degree is zero and whose label is one of the
    always-contained kinds.  If it is empty the final pass leaves the graph as
    it was, no node carries the sentinel's label and [main] returns the
    per-container diagrams only; if moreover no container, subnet or database
    has the id [NO_VPC] and no reference of the input names it, the graph has
    no node [NO_VPC] and no file [NO_VPC_topology.png] is written.  If the
    list is non-empty the node [NO_VPC] is there with the sentinel's
    attributes and an edge to every unattached node. *)
Theorem unattached_exact (inv : inventory) (used : gset string) (G' : DiGraph)
    (un : list string) :
  build inv = Ok (used, G', un) →
  ∃ G, build_graph inv = Ok (used, G) ∧
       NoDup un ∧
       (∀ n, n ∈ un ↔
             in_degree G n = 0 ∧
             ∃ a l, node_attrs (nodes G) n = Some a ∧ label a = Some l
                    ∧ l ∈ always_contained) ∧
       (un = [] →
        G' = G ∧ no_sentinel G' ∧
        main inv = Ok (map (vpc_diagram inv used) (vpcs inv)) ∧
        (NO_VPC ∉ native_ids inv ++ referenced_ids inv →
         has_node G' NO_VPC = false ∧
         NO_VPC +:+ "_topology.png"
           ∉ map file (map (vpc_diagram inv used) (vpcs inv)))) ∧
       (un ≠ [] →
        node_attrs (nodes G') NO_VPC = Some sentinel_attrs ∧
        ∀ n, n ∈ un → has_edge G' NO_VPC n = true).
Proof.
  intros Hb. pose proof (main_spec _ _ _ _ Hb) as Hmain.
  apply build_Ok in Hb as (G & HG & Hun & ->).
  destruct (build_graph_inv _ _ _ HG) as [Hnd Hsent].
  destruct (filter_raising_Ok _ _ _ Hun) as [_ Hin].
  exists G. split_and!; [done| | | |].
  - by eapply filter_raising_NoDup.
  - intros n. rewrite Hin, is_unattached_true. split; [by intros [_ ?]|].
    intros [Hz (a & l & Ha & Hl & Hk)]. split; [|by eauto 6].
    apply node_attrs_Some_elem. by eexists.
  - intros ->. split_and!; [done..| |].
    + by rewrite app_nil_r in Hmain.
    + intros Habsent. split; [by eapply sentinel_id_absent|].
      intros (d & Hfile & (v & -> & Hv)%list_elem_of_fmap)%list_elem_of_fmap.
      apply Habsent. unfold native_ids, vpc_ids. rewrite !elem_of_app. left. left.
      simpl in Hfile. apply append_suffix_inj in Hfile. rewrite Hfile.
      by apply list_elem_of_fmap_2.
  - intros Hne. destruct un as [|n0 ns]; [done|]. rewrite attach_orphans_cons. split.
    + apply node_attrs_foldl_out. by rewrite node_attrs_add_node_eq.
    + intros n Hn. apply has_edge_foldl_out. by right.
Qed.

Lemma unattached_exact_witness :
  has_node small_graph NO_VPC = false.
Proof.
  destruct (unattached_exact small_inventory ∅ small_graph [])
    as (G & _ & _ & _ & Hempty & _).
  - by vm_compute.
  - destruct (Hempty eq_refl) as (_ & _ & _ & Habsent).
    apply Habsent. apply (bool_decide_unpack _). by vm_compute.
Defined.
